(** * AutoMTL: the differentiable architecture-search core

    A shallow embedding of the search engine of AutoMTL
    ([src/nas/automtl.py], [src/nas/aux_losses.py], [src/nas/choicer.py],
    [src/nas/fixed.py], [src/utils/utils.py], [src/trainer/trainer.py],
    [src/blocks/ops.py], [src/supernets/supernet.py],
    [src/datasets/dataset_utils.py]) together with the
    properties its specification states about it.

    Conventions.
    - Python exceptions are values of [exn]; a statement that may raise is a
      computation in the [result] monad.
    - Python [int] is [Z].  Floating point numbers are idealised as the reals
      [R] wherever a claim is about values (mixtures, entropies, finite
      differences); where only the data flow matters the arithmetic is a
      parameter ([PyFloat]); where NaN and the infinities matter the IEEE
      binary64 numbers of [PrimFloat] are used.
    - A tensor is the list of its entries; a torch object that is shared by
      reference (a parameter of the model) is a location in a store.

    Part I holds the model, Part II the theorems. *)

From Stdlib Require Import Reals Lra Floats ZArith String List Lia Bool.
From stdpp Require Import base list.
Import ListNotations.

(** * Part I: the model *)

(** ** Python conventions *)

Module Py.

Inductive exn : Type :=
| ValueError (msg : string)
| KeyError
| TypeError
| IndexError
| AssertionError (msg : string)
| ZeroDivisionError
| RuntimeError
| AttributeError
| NotImplementedError
| NoContextError.

Inductive result (A : Type) : Type :=
| Ok (a : A)
| Raise (e : exn).

Arguments Ok {A} a.
Arguments Raise {A} e.

#[global] Instance result_ret : MRet result := fun _ a => Ok a.

#[global] Instance result_bind : MBind result := fun _ _ f m =>
  match m with
  | Ok a => f a
  | Raise e => Raise e
  end.

Definition is_ok {A} (r : result A) : bool :=
  match r with Ok _ => true | Raise _ => false end.

(** A Python [dict] with string keys: insertion ordered, assignment to an
    existing key keeps the key's position and replaces its value. *)
Definition dict (V : Type) : Type := list (string * V).

Fixpoint dict_get {V} (d : dict V) (k : string) : option V :=
  match d with
  | [] => None
  | (k', v) :: d' => if String.eqb k' k then Some v else dict_get d' k
  end.

Fixpoint dict_set {V} (d : dict V) (k : string) (v : V) : dict V :=
  match d with
  | [] => [(k, v)]
  | (k', v') :: d' =>
      if String.eqb k' k then (k', v) :: d' else (k', v') :: dict_set d' k v
  end.

Definition dict_mem {V} (d : dict V) (k : string) : bool :=
  match dict_get d k with Some _ => true | None => false end.

Definition dict_values {V} (d : dict V) : list V := map snd d.

Definition dict_keys {V} (d : dict V) : list string := map fst d.

End Py.

Import Py.

(** ** [utils.utils.DecayScheduler] *)

(** The float operations [DecayScheduler.step] performs.  [f_of_int] is the
    implicit conversion of an [int] operand, [f_div] is never applied to a
    zero divisor (Python raises before). *)
Class PyFloat (F : Type) : Type := {
  f_of_int : Z -> F;
  f_add : F -> F -> F;
  f_mul : F -> F -> F;
  f_div : F -> F -> F;
  f_cos : F -> F;
  f_pi : F
}.

#[global] Instance PyFloat_R : PyFloat R := {|
  f_of_int := IZR;
  f_add := Rplus;
  f_mul := Rmult;
  f_div := Rdiv;
  f_cos := cos;
  f_pi := PI
|}.

Module DecayScheduler.
Section WithFloat.
Context {F : Type} {fl : PyFloat F}.

Record t : Type := mk {
  base_weight : F;
  cnt : Z;
  decay_type : string;
  weight : F;
  steps : Z
}.

(** [__init__(self, base_weight=1.0, steps=15, decay_type='linear')] *)
Definition init (base : F) (steps_arg : Z) (dtype : string) : t :=
  {| base_weight := base; cnt := 0; decay_type := dtype;
     weight := base; steps := steps_arg - 1 |}.

(** [reset(self, base_weight=1.0, steps=15)]: the decay type is kept. *)
Definition reset (s : t) (base : F) (steps_arg : Z) : t :=
  {| base_weight := base; cnt := 0; decay_type := decay_type s;
     weight := base; steps := steps_arg - 1 |}.

(** [x / self.steps] with [self.steps] an [int]. *)
Definition div_steps (x : F) (n : Z) : result F :=
  if (n =? 0)%Z then Raise ZeroDivisionError else Ok (f_div x (f_of_int n)).

(** The weight [step] assigns once [self.cnt] has been incremented to [c]. *)
Definition decayed (dtype : string) (base : F) (n c : Z) : result F :=
  if String.eqb dtype "cosine" then
    q ← div_steps (f_mul f_pi (f_of_int c)) n;
    Ok (f_div (f_mul base (f_add (f_of_int 1) (f_cos q))) (f_of_int 2))
  else if String.eqb dtype "slow_cosine" then
    q ← div_steps (f_mul (f_div f_pi (f_of_int 2)) (f_of_int c)) n;
    Ok (f_mul base (f_cos q))
  else if String.eqb dtype "linear" then
    div_steps (f_mul base (f_of_int (n - c))) n
  else
    Ok base.

(** [step(self)] *)
Definition step (s : t) : result t :=
  let c := (cnt s + 1)%Z in
  w ← decayed (decay_type s) (base_weight s) (steps s) c;
  Ok {| base_weight := base_weight s; cnt := c; decay_type := decay_type s;
        weight := w; steps := steps s |}.

(** The assignment [auxiliary_skip_weight.cnt = ...]. *)
Definition set_cnt (s : t) (c : Z) : t :=
  {| base_weight := base_weight s; cnt := c; decay_type := decay_type s;
     weight := weight s; steps := steps s |}.

(** [k] epochs of [DartsTrainer.fit], each ending in
    [auxiliary_skip_weight.step()]. *)
Fixpoint advance (k : nat) (s : t) : result t :=
  match k with
  | O => Ok s
  | S k' => s' ← advance k' s; step s'
  end.

(** The scheduler lines of [DartsTrainer._resume_checkpoint]:
    [self.start_epoch = checkpoint['epoch'] + 1;
     auxiliary_skip_weight.cnt = self.start_epoch - 1;
     auxiliary_skip_weight.step()]. *)
Definition resume (s : t) (checkpoint_epoch : Z) : result t :=
  let start_epoch := (checkpoint_epoch + 1)%Z in
  step (set_cnt s (start_epoch - 1)).

(** [step] reads the counter, the base weight, the decay type and the step
    count, never the previous weight. *)
Definition same_schedule (s1 s2 : t) : Prop :=
  base_weight s1 = base_weight s2 /\ decay_type s1 = decay_type s2 /\
  steps s1 = steps s2.

End WithFloat.
Arguments t F : clear implicits.
End DecayScheduler.

(** ** The model step of [DartsTrainer._train_epoch] and [_check_nan] *)

Module ModelStep.

Inductive optimizer : Type := ModelOptim | ExpertOptim.

Inductive target : Type := ModelParams | ExpertParams.

Inductive event : Type :=
| ZeroGrad (o : optimizer)
| PredsAndLoss
| UpdateLossContainers
| SimLoss
| Backward (loss : float)
| ClipGradNorm (p : target)
| OptimStep (o : optimizer).

(** [torch.isnan] on a scalar. *)
Definition isnan (x : float) : bool := negb (PrimFloat.eqb x x).

(** [AbstractTrainer._check_nan] *)
Definition _check_nan (loss : float) : result unit :=
  if isnan loss then Raise (ValueError "Training loss is nan.") else Ok tt.

(** The loss handed to [_check_nan]: [loss = loss + sim_loss] from epoch 5. *)
Definition combined_loss (epoch_idx : Z) (task_loss sim_loss : float) : float :=
  if (5 <=? epoch_idx)%Z then PrimFloat.add task_loss sim_loss else task_loss.

(** Phase 2 of one batch of [_train_epoch]: the actions performed, in order,
    and how the phase ends.  [task_loss] is the sum returned by
    [_preds_and_loss], [sim_loss] the value of [self.sim_loss(...)],
    [clip] the truth value of [self.clip_grad_norm]. *)
Definition model_step (epoch_idx : Z) (task_loss sim_loss : float) (clip : bool)
  : list event * result unit :=
  let past := (5 <=? epoch_idx)%Z in
  let before :=
    [ZeroGrad ModelOptim] ++ (if past then [ZeroGrad ExpertOptim] else [])
    ++ [PredsAndLoss; UpdateLossContainers] ++ (if past then [SimLoss] else []) in
  let loss := combined_loss epoch_idx task_loss sim_loss in
  match _check_nan loss with
  | Raise e => (before, Raise e)
  | Ok _ =>
      (before ++ [Backward loss]
       ++ (if clip then [ClipGradNorm ModelParams; ClipGradNorm ExpertParams] else [])
       ++ [OptimStep ModelOptim]
       ++ (if past then [OptimStep ExpertOptim] else []),
       Ok tt)
  end.

Definition is_update (e : event) : bool :=
  match e with
  | Backward _ | OptimStep _ => true
  | _ => false
  end.

(** A loss that is not a finite number. *)
Definition non_finite (x : float) : bool :=
  isnan x || PrimFloat.eqb x infinity || PrimFloat.eqb x neg_infinity.

End ModelStep.

(** ** Tensors over the reals *)

Module Tensor.

(** A tensor is the list of its entries. *)
Abbreviation tensor := (list R) (only parsing).

(** Elementwise operations on tensors of one shape, and the operations with
    a scalar operand. *)
Definition tadd (a b : tensor) : tensor := zip_with Rplus a b.
Definition tsub (a b : tensor) : tensor := zip_with Rminus a b.
Definition tscale (c : R) (a : tensor) : tensor := map (Rmult c) a.
Definition tdiv (a : tensor) (c : R) : tensor := map (fun x => x / c)%R a.
Definition sadd (c : R) (a : tensor) : tensor := map (Rplus c) a.

Definition rsum (l : list R) : R := fold_right Rplus 0%R l.

(** [torch.dot] *)
Definition dot (a b : tensor) : R := rsum (zip_with Rmult a b).

(** [torch.cat([w.view(-1) for w in ws]).norm()] *)
Definition norm_cat (ws : list tensor) : R :=
  R_sqrt.sqrt (rsum (map (fun x => x * x)%R (concat ws))).

(** [torch.log2] of one entry. *)
Definition log2 (x : R) : R := (ln x / ln 2)%R.

(** [a + b] for two tensors of one shape.  (Torch also accepts operands
    whose shapes differ in dimensions of size one; the vectors added here
    all have the length of the candidate list.) *)
Definition add_same_shape (a b : tensor) : result tensor :=
  if length a =? length b then Ok (tadd a b) else Raise RuntimeError.

(** [torch.softmax(a, -1)] of a vector. *)
Definition softmax (a : tensor) : tensor :=
  map (fun x => exp x / rsum (map exp a))%R a.

End Tensor.

(** ** [DartsTrainer._unrolled_backward] and its helpers *)

Module Unrolled.
Import Tensor.

(** A torch tensor object is named by its location in the store. *)
Abbreviation loc := nat (only parsing).
Abbreviation store := (list (list R)) (only parsing).

Inductive diagnostic : Type :=
| HessianNormWarning (norm : R).

(** What the routine reads and writes of the trainer.
    - [params]: the current value of every tensor object;
    - [grad]: the [.grad] field of every tensor object;
    - [optim_state]: [self.optimizer.state], a [defaultdict(dict)] keyed by
      parameter: [None] no entry, [Some None] the entry [{}],
      [Some (Some m)] the entry [{'momentum_buffer': m}];
    - [lr], [momentum], [weight_decay]: [self.optimizer.param_groups[0]];
    - [model_parameters]: the objects [self.model.parameters()] yields;
    - [nas_alphas]: [[c.alpha for _, c in self.nas_modules]];
    - [log]: what was handed to [logger.warning]. *)
Record trainer : Type := mk_trainer {
  params : store;
  grad : loc -> option tensor;
  optim_state : loc -> option (option tensor);
  lr : R;
  momentum : R;
  weight_decay : R;
  model_parameters : list loc;
  nas_alphas : list loc;
  log : list diagnostic
}.

(** A supernet with its loss, as autograd sees it: the loss on a batch and
    its gradient with respect to one tensor object, at the current values.
    A forward pass is a function of the batch and of the values of the
    tensor objects (the samples of dropout and the running statistics of
    batch normalisation are no parameters and are left out). *)
Class Autograd (batch losses : Type) : Type := {
  loss_value : batch -> store -> losses;
  loss_grad : batch -> store -> loc -> tensor
}.

Definition set_params (st : trainer) (s : store) : trainer :=
  mk_trainer s (grad st) (optim_state st) (lr st) (momentum st)
    (weight_decay st) (model_parameters st) (nas_alphas st) (log st).

Definition set_grad (st : trainer) (p : loc) (g : tensor) : trainer :=
  mk_trainer (params st)
    (fun q => if Nat.eqb q p then Some g else grad st q)
    (optim_state st) (lr st) (momentum st)
    (weight_decay st) (model_parameters st) (nas_alphas st) (log st).

Definition set_optim_state (st : trainer) (o : loc -> option (option tensor)) : trainer :=
  mk_trainer (params st) (grad st) o (lr st) (momentum st)
    (weight_decay st) (model_parameters st) (nas_alphas st) (log st).

Definition warn (st : trainer) (d : diagnostic) : trainer :=
  mk_trainer (params st) (grad st) (optim_state st) (lr st) (momentum st)
    (weight_decay st) (model_parameters st) (nas_alphas st) (log st ++ [d]).

(** The value of the tensor object [p]. *)
Definition value (s : store) (p : loc) : tensor := s !!! p.

(** [copy.deepcopy(tuple(self.model.parameters()))] *)
Definition snapshot (st : trainer) : list tensor :=
  map (value (params st)) (model_parameters st).

(** [self.optimizer.state[w].get('momentum_buffer', 0.)]: indexing the
    [defaultdict] creates the entry [{}] when [w] has none. *)
Definition momentum_buffer_get (st : trainer) (w : loc) : option tensor * trainer :=
  match optim_state st w with
  | Some d => (d, st)
  | None =>
      (None,
       set_optim_state st (fun q => if Nat.eqb q w then Some None else optim_state st q))
  end.

(** [momentum * m + g] with [m] a buffer or the float [0.]. *)
Definition momentum_term (mo : R) (m : option tensor) (g : tensor) : tensor :=
  match m with
  | Some mt => tadd (tscale mo mt) g
  | None => sadd (mo * 0)%R g
  end.

(** [w - lr * (momentum * m + g + weight_decay * w)] *)
Definition virtual_weight (lr_ mo wd : R) (w : tensor) (m : option tensor) (g : tensor)
  : tensor :=
  tsub w (tscale lr_ (tadd (momentum_term mo m g) (tscale wd w))).

(** The body of the loop of [_compute_virtual_model]: the new value is bound
    to the loop variable [w]; the pair is that local value and the trainer. *)
Definition virtual_body (lr_ mo wd : R) (st : trainer) (wg : loc * tensor)
  : tensor * trainer :=
  let '(w, g) := wg in
  let '(m, st1) := momentum_buffer_get st w in
  (virtual_weight lr_ mo wd (value (params st1) w) m g, st1).

Section WithAutograd.
Context {batch losses : Type} {ag : Autograd batch losses}.

(** [torch.autograd.grad(loss, ws)] for the loss of [data] at the current
    values. *)
Definition autograd_grad (data : batch) (st : trainer) (ws : list loc) : list tensor :=
  map (loss_grad data (params st)) ws.

(** [_compute_virtual_model(self, data, lr, momentum, weight_decay)] *)
Definition _compute_virtual_model (data : batch) (lr_ mo wd : R) (st : trainer) : trainer :=
  let gradients := autograd_grad data st (model_parameters st) in
  fold_left (fun st' wg => snd (virtual_body lr_ mo wd st' wg))
    (zip (model_parameters st) gradients) st.

(** [_restore_weights(self, backup_params)]: [param.copy_(backup)]. *)
Definition _restore_weights (backup : list tensor) (st : trainer) : trainer :=
  fold_left (fun st' pb => set_params st' (<[pb.1 := pb.2]> (params st')))
    (zip (model_parameters st) backup) st.

(** The inner loop of [_compute_hessian]: [p += e * d]. *)
Definition perturb (e : R) (dw : list tensor) (st : trainer) : trainer :=
  fold_left
    (fun st' pd =>
       set_params st'
         (<[pd.1 := tadd (value (params st') pd.1) (tscale e pd.2)]> (params st')))
    (zip (model_parameters st) dw) st.

(** [_compute_hessian(self, backup_params, dw, data)] *)
Definition _compute_hessian (backup : list tensor) (dw : list tensor) (data : batch)
  (st : trainer) : list tensor * trainer :=
  let st := _restore_weights backup st in
  let norm := norm_cat dw in
  let eps := (0.01 / norm)%R in
  let st := if Rlt_dec norm 1e-8 then warn st (HessianNormWarning norm) else st in
  let '(dalphas, st) :=
    fold_left
      (fun acc e =>
         let st' := perturb e dw acc.2 in
         (acc.1 ++ [autograd_grad data st' (nas_alphas st')], st'))
      [eps; (-2 * eps)%R] ([], st) in
  match dalphas with
  | [dalpha_pos; dalpha_neg] =>
      (zip_with (fun p n => tdiv (tsub p n) (2 * eps)%R) dalpha_pos dalpha_neg, st)
  | _ => ([], st)
  end.

(** [_unrolled_backward(self, train_data, valid_data)] *)
Definition _unrolled_backward (train_data valid_data : batch) (st : trainer)
  : losses * trainer :=
  let backup_params := snapshot st in
  let lr_ := lr st in
  let mo := momentum st in
  let wd := weight_decay st in
  let st := _compute_virtual_model train_data lr_ mo wd st in
  let loss := loss_value valid_data (params st) in
  let w_model := model_parameters st in
  let w_ctrl := nas_alphas st in
  let w_grads := autograd_grad valid_data st (w_model ++ w_ctrl) in
  let d_model := take (length w_model) w_grads in
  let d_ctrl := drop (length w_model) w_grads in
  let '(hessian, st) := _compute_hessian backup_params d_model train_data st in
  let st :=
    fold_left (fun st' pdh => set_grad st' pdh.1.1 (tsub pdh.1.2 (tscale lr_ pdh.2)))
      (zip (zip w_ctrl d_ctrl) hessian) st in
  let st := _restore_weights backup_params st in
  (loss, st).

End WithAutograd.

(** The trainer is well formed: [parameters()] yields each tensor object
    once, and every object it or the choice wrappers name exists. *)
Definition well_formed (st : trainer) : bool :=
  bool_decide (NoDup (model_parameters st))
  && forallb (fun p => p <? length (params st)) (model_parameters st)
  && forallb (fun p => p <? length (params st)) (nas_alphas st).

(** The momentum buffer the optimizer holds for [q], if any. *)
Definition momentum_buffer (o : loc -> option (option tensor)) (q : loc) : option tensor :=
  match o q with Some (Some m) => Some m | _ => None end.

(** *** The loops, on the one component each of them changes *)

Definition restore_store (ps : list loc) (backup : list tensor) (s : store) : store :=
  fold_left (fun s' pb => <[pb.1 := pb.2]> s') (zip ps backup) s.

Definition perturb_store (e : R) (ps : list loc) (dw : list tensor) (s : store) : store :=
  fold_left (fun s' pd => <[pd.1 := tadd (value s' pd.1) (tscale e pd.2)]> s')
    (zip ps dw) s.

Definition set_grads (st : trainer) (g : loc -> option tensor) : trainer :=
  mk_trainer (params st) g (optim_state st) (lr st) (momentum st)
    (weight_decay st) (model_parameters st) (nas_alphas st) (log st).

Definition assign_grads (lr_ : R) (l : list (loc * tensor * tensor))
  (g : loc -> option tensor) : loc -> option tensor :=
  fold_left
    (fun g' pdh q =>
       if Nat.eqb q pdh.1.1 then Some (tsub pdh.1.2 (tscale lr_ pdh.2)) else g' q)
    l g.

(** *** The words of the specification *)

(** [S] is [base] with the [i]-th model parameter moved by [c] times the
    [i]-th tensor of [dw], every other object as in [base]. *)
Definition shifted (ps : list loc) (base : store) (c : R) (dw : list tensor)
  (S : store) : Prop :=
  (forall i p d, ps !! i = Some p -> dw !! i = Some d ->
     value S p = tadd (value base p) (tscale c d))
  /\ (forall l, l ∉ ps -> S !! l = base !! l)
  /\ length S = length base.

(** The symmetric difference quotient [(gp - gn) / (2 eps)]. *)
Definition difference_quotient (eps : R) (gp gn : tensor) : tensor :=
  tdiv (tsub gp gn) (2 * eps)%R.

(** *** A supernet to run the routine on

    One weight [w] (object 0) and one architecture weight [alpha]
    (object 1), both scalars; the loss on the batch [x] is
    [alpha * w^2 * x / 2].  [parameters()] of the model yields both objects,
    the only operation-level wrapper owns [alpha].  The optimizer has taken
    no step yet, so it holds no momentum buffer. *)
Definition scalar (s : store) (p : loc) : R := hd 0%R (value s p).

#[global] Instance toy_autograd : Autograd R R := {|
  loss_value x s := (scalar s 1 * (scalar s 0 * scalar s 0) * x / 2)%R;
  loss_grad x s p :=
    match p with
    | 0 => [(scalar s 1 * scalar s 0 * x)%R]
    | 1 => [(scalar s 0 * scalar s 0 * x / 2)%R]
    | _ => []
    end
|}.

Definition toy_trainer : trainer := {|
  params := [[1%R]; [1%R]];
  grad := fun _ => None;
  optim_state := fun _ => None;
  lr := 0.1%R;
  momentum := 0.9%R;
  weight_decay := 0%R;
  model_parameters := [0; 1];
  nas_alphas := [1];
  log := []
|}.

End Unrolled.

(** ** [nas.aux_losses.JSDivLoss] *)

Module JSDivLoss.
Import Tensor.

Record t : Type := mk {
  weight : R;
  weight_step : R
}.

(** [__init__(self, init_weight, max_epochs)] with [max_epochs] an [int]. *)
Definition init (init_weight : R) (max_epochs : Z) : result t :=
  if (max_epochs =? 0)%Z then Raise ZeroDivisionError
  else Ok {| weight := init_weight; weight_step := (init_weight / IZR max_epochs)%R |}.

(** [step(self)] *)
Definition step (s : t) : t :=
  {| weight := (weight s - weight_step s)%R; weight_step := weight_step s |}.

(** [entropy(self, x)]: [torch.dot(x, torch.log2(x))]. *)
Definition entropy (x : tensor) : R := dot x (map log2 x).

(** The additions of [sum(probs)] after the first. *)
Fixpoint sum_tensors (acc : tensor) (ps : list tensor) : result tensor :=
  match ps with
  | [] => Ok acc
  | p :: ps' => acc' ← add_same_shape acc p; sum_tensors acc' ps'
  end.

(** [forward(self, alphas)].  [sum] starts from the integer [0]; with no
    tensor at all the mean is [0 / 0]. *)
Definition forward (s : t) (alphas : list tensor) : result R :=
  let n := INR (length alphas) in
  let probs := map softmax alphas in
  match probs with
  | [] => Raise ZeroDivisionError
  | p :: ps =>
      total ← sum_tensors (sadd 0 p) ps;
      let means := tdiv total n in
      let loss :=
        fold_left (fun loss prob => (loss - entropy prob / n)%R) probs (entropy means) in
      Ok (weight s * loss)%R
  end.

(** [self.sim_loss = JSDivLoss(config.auxiliary_loss_weight, self.epochs - 5)]
    in [DartsTrainer.__init__]. *)
Definition of_trainer (auxiliary_loss_weight : R) (epochs : Z) : result t :=
  init auxiliary_loss_weight (epochs - 5).

(** The calls [self.sim_loss.step()] of [k] epochs past the curriculum
    epoch. *)
Definition decay (k : nat) (s : t) : t := Nat.iter k step s.

(** *** The words of the specification *)

(** Shannon entropy, in bits. *)
Definition shannon_entropy (p : tensor) : R :=
  (- rsum (map (fun x => x * log2 x) p))%R.

(** The mean of distributions over [m] outcomes. *)
Definition mean_distribution (m : nat) (ps : list tensor) : tensor :=
  map (fun j => rsum (map (fun p => nth j p 0) ps) / INR (length ps))%R (seq 0 m).

(** Jensen-Shannon divergence: the entropy of the mean minus the mean of
    the entropies. *)
Definition js_divergence (m : nat) (ps : list tensor) : R :=
  (shannon_entropy (mean_distribution m ps)
   - rsum (map shannon_entropy ps) / INR (length ps))%R.

End JSDivLoss.
(** ** [DartsLayerChoice.forward] and [blocks.ops.DropPath] *)

Module DartsLayerChoice.
Import Tensor.

(** A batched tensor: one row of entries per data point. *)
Abbreviation batch := (list (list R)) (only parsing).

Definition shape (x : batch) : list nat := map length x.

Definition same_shape (a b : batch) : bool := bool_decide (shape a = shape b).

Definition entry (x : batch) (b j : nat) : R := nth j (nth b x []) 0%R.

(** [x * c] and [c * x] for a scalar [c]. *)
Definition bmul (x : batch) (c : R) : batch := map (map (fun v => v * c)%R) x.
Definition bscale (c : R) (x : batch) : batch := map (map (fun v => c * v)%R) x.

Definition badd (a b : batch) : batch := zip_with tadd a b.

(** [a + b] for two batches of one shape.  (Torch also accepts operands
    whose shapes differ in dimensions of size one; the supernet's blocks map
    [block_in_dim] to an equal [block_out_dim].) *)
Definition add_batches (a b : batch) : result batch :=
  if same_shape a b then Ok (badd a b) else Raise RuntimeError.

(** [DropPath.forward]: [mask] is the sample
    [torch.zeros((x.size(0), 1)).bernoulli_(keep_prob)], one entry per row. *)
Definition drop_path (training : bool) (p : R) (mask : list R) (x : batch) : batch :=
  if training then
    if Rlt_dec 0 p then
      let keep_prob := (1 - p)%R in
      zip_with (fun row m => map (fun v => v / keep_prob * m)%R row) x mask
    else x
  else x.

(** [torch.stack]: at least one tensor, all of one shape. *)
Definition stack (rs : list batch) : result (list batch) :=
  match rs with
  | [] => Raise RuntimeError
  | r :: rs' => if forallb (same_shape r) rs' then Ok rs else Raise RuntimeError
  end.

(** [op_results * w.view(-1, 1, ...)]: the [i]-th slice times the [i]-th
    weight.  ([alpha] has one entry per candidate.) *)
Definition mul_dim0 (rs : list batch) (w : tensor) : result (list batch) :=
  if length rs =? length w then Ok (zip_with bmul rs w) else Raise RuntimeError.

(** [torch.sum(_, dim=0)] of a stack. *)
Definition sum_dim0 (rs : list batch) : batch :=
  match rs with
  | [] => []
  | r :: rs' => fold_left badd rs' r
  end.

(** The wrapper: [op_choices] in the order of the [ModuleDict], each
    candidate a function of its input; [alpha]; the ratio of [drop_path];
    the [training] flag of the module. *)
Record t : Type := mk {
  name : string;
  op_choices : list (string * (batch -> batch));
  alpha : tensor;
  drop_path_ratio : R;
  training : bool
}.

Inductive call : Type :=
| CallCandidate (op_name : string) (input : batch)
| CallAuxiliaryOp (input : batch).

(** The results of the list comprehension of [forward]:
    [self.drop_path(op(x))] for the [i]-th candidate, [mask_of i] being the
    sample drawn in that call of [drop_path]. *)
Definition op_outputs (m : t) (mask_of : nat -> list R) (x : batch) : list batch :=
  imap (fun i op => drop_path (training m) (drop_path_ratio m) (mask_of i) (op.2 x))
    (op_choices m).

(** [forward(self, x)]: the calls made, in order, and the result.
    [aux_weight] is [auxiliary_skip_weight.weight] at the time of the call,
    [self.auxiliary_op] is [nn.Identity()]. *)
Definition forward (aux_weight : R) (m : t) (mask_of : nat -> list R) (x : batch)
  : list call * result batch :=
  let calls := map (fun op => CallCandidate op.1 x) (op_choices m) in
  let mixture :=
    op_results ← stack (op_outputs m mask_of x);
    weighted ← mul_dim0 op_results (softmax (alpha m));
    Ok (sum_dim0 weighted) in
  match mixture with
  | Raise e => (calls, Raise e)
  | Ok mix => (calls ++ [CallAuxiliaryOp x], add_batches mix (bscale aux_weight x))
  end.

(** *** The words of the specification *)

(** The weighted sum over the candidates of [softmax(alpha)[i]] times the
    [i]-th candidate applied to [x], at one entry. *)
Definition weighted_sum_entry (m : t) (x : batch) (b j : nat) : R :=
  rsum (imap (fun i op => nth i (softmax (alpha m)) 0 * entry (op.2 x) b j)%R
          (op_choices m)).

(** The same with what [drop_path] made of each candidate's output. *)
Definition mixture_entry (m : t) (mask_of : nat -> list R) (x : batch) (b j : nat) : R :=
  rsum (imap (fun i op =>
                nth i (softmax (alpha m)) 0
                * entry (drop_path (training m) (drop_path_ratio m) (mask_of i) (op.2 x)) b j)%R
          (op_choices m)).

End DartsLayerChoice.

(** ** Architecture parameters in [DartsTrainer.__init__] *)

Module ArchParams.

(** A trainable wrapper ([DartsLayerChoice] or [DartsExpertChoice]) as
    [__init__] sees it: its [name] (the label of the choice it replaced) and
    the tensor object its attribute [alpha] refers to. *)
Record wrapper : Type := mk_wrapper {
  name : string;
  alpha : nat
}.

(** The list [replace_layer_choice] / [replace_expert_choice] fills:
    [(child.label, wrapper)]. *)
Abbreviation modules := (list (string * wrapper)) (only parsing).

(** [m.alpha = a] *)
Definition set_alpha (m : wrapper) (a : nat) : wrapper :=
  {| name := name m; alpha := a |}.

(** [self.expert_params = {}; for _, m in self.expert_modules:
    self.expert_params[m.name] = m.alpha] *)
Definition collect_expert_params (expert_modules : modules) : dict nat :=
  fold_left (fun d lm => dict_set d (name lm.2) (alpha lm.2)) expert_modules [].

Definition size_eqb (s1 s2 : list nat) : bool := bool_decide (s1 = s2).

(** The loop over [self.nas_modules], from the dictionary [ctrl_params]
    on: the list with the wrappers as the loop leaves them, and the
    dictionary.  [size a] is [a.size()]. *)
Fixpoint share_ctrl_params (size : nat -> list nat) (nas_modules : modules)
  (ctrl_params : dict nat) : result (modules * dict nat) :=
  match nas_modules with
  | [] => Ok ([], ctrl_params)
  | (label, m) :: rest =>
      match dict_get ctrl_params (name m) with
      | Some a =>
          if size_eqb (size (alpha m)) (size a) then
            r ← share_ctrl_params size rest ctrl_params;
            Ok ((label, set_alpha m a) :: r.1, r.2)
          else
            Raise (AssertionError "Size of parameters with the same label should be same")
      | None =>
          r ← share_ctrl_params size rest (dict_set ctrl_params (name m) (alpha m));
          Ok ((label, m) :: r.1, r.2)
      end
  end.

(** What lines 150-178 of [__init__] leave in the trainer: the two lists of
    wrappers and the parameter lists handed to the two Adam optimizers. *)
Record arch_state : Type := mk_arch_state {
  expert_modules : modules;
  nas_modules : modules;
  expert_optim_params : list nat;
  ctrl_optim_params : list nat
}.

Definition init_arch_params (size : nat -> list nat)
  (experts nas : modules) : result arch_state :=
  let expert_params := collect_expert_params experts in
  r ← share_ctrl_params size nas [];
  Ok {| expert_modules := experts;
        nas_modules := r.1;
        expert_optim_params := dict_values expert_params;
        ctrl_optim_params := dict_values r.2 |}.

(** What a checkpoint file holds of the wrappers:
    [checkpoint['expert_modules']] and [checkpoint['nas_modules']], as
    [torch.load] rebuilds them. *)
Record checkpoint : Type := mk_checkpoint {
  saved_expert_modules : modules;
  saved_nas_modules : modules
}.

(** [_resume_checkpoint(self)] on the wrapper lists; [saved] is [None] when
    there is no file at [self.saved_model_file].  The two optimizers keep
    the parameter lists they were built with: [load_state_dict] loads state
    into them. *)
Definition _resume_checkpoint (saved : option checkpoint) (st : arch_state)
  : arch_state :=
  match saved with
  | None => st
  | Some c =>
      {| expert_modules := saved_expert_modules c;
         nas_modules := saved_nas_modules c;
         expert_optim_params := expert_optim_params st;
         ctrl_optim_params := ctrl_optim_params st |}
  end.

(** [DartsTrainer.__init__], lines 150-182: the wrappers and the optimizers'
    parameters the constructed trainer holds.  [need_research] is the truth
    value of [config.need_research]. *)
Definition __init__ (size : nat -> list nat) (experts nas : modules)
  (need_research : bool) (saved : option checkpoint) : result arch_state :=
  st ← init_arch_params size experts nas;
  Ok (if need_research then st else _resume_checkpoint saved st).

(** *** The words of the specification *)

(** Wrappers of one label refer to one tensor object. *)
Definition shares_alpha (ms : modules) : Prop :=
  forall l1 m1 l2 m2,
    In (l1, m1) ms -> In (l2, m2) ms -> name m1 = name m2 -> alpha m1 = alpha m2.

(** The first wrapper of the list with the label [n]. *)
Definition first_with_name (ms : modules) (n : string) : option wrapper :=
  snd <$> List.find (fun lm => String.eqb (name lm.2) n) ms.

(** Some wrapper's [alpha] has another shape than the [alpha] of the first
    wrapper of its label. *)
Definition shape_mismatch (size : nat -> list nat) (ms : modules) : Prop :=
  exists l m m0,
    In (l, m) ms /\ first_with_name ms (name m) = Some m0
    /\ size (alpha m) <> size (alpha m0).

(** The [alpha] the loop gives to a wrapper of label [n]: the entry of the
    dictionary if there is one, its own otherwise. *)
Definition resolved (ctrl : dict nat) (ms : modules) (n : string) : option nat :=
  match dict_get ctrl n with
  | Some a => Some a
  | None => alpha <$> first_with_name ms n
  end.

(** The wrapper [m] after the loop: its [alpha] is the resolved one. *)
Definition rebound (ctrl : dict nat) (ms : modules) (lm : string * wrapper)
  : string * wrapper :=
  (lm.1, set_alpha lm.2 (default (alpha lm.2) (resolved ctrl ms (name lm.2)))).

End ArchParams.

(** ** [utils.utils.ContextStack] and [nas.choicer.LayerChoice] *)

Module Choicer.
Import Tensor.

(** A value of the exported architecture file: a candidate name, an index,
    or a list of names. *)
Inductive json : Type :=
| JStr (s : string)
| JInt (z : Z)
| JList (l : list string).

(** A fixed architecture: choice label to selection. *)
Abbreviation arch := (list (string * json)) (only parsing).

(** [ContextStack._stack]: namespace to the stack of values pushed. *)
Abbreviation context_stack := (list (string * list (list (string * json)))) (only parsing).

Definition stack_of (st : context_stack) (key : string) : list arch :=
  default [] (dict_get st key).

(** [ContextStack.push(key, value)] *)
Definition push (st : context_stack) (key : string) (value : arch) : context_stack :=
  dict_set st key (stack_of st key ++ [value]).

(** [ContextStack.pop(key)] *)
Definition pop (st : context_stack) (key : string) : result context_stack :=
  match stack_of st key with
  | [] => Raise IndexError
  | v :: vs => Ok (dict_set st key (removelast (v :: vs)))
  end.

(** [ContextStack.top(key)], also [get_current_context(key)]. *)
Definition top (st : context_stack) (key : string) : result arch :=
  match stack_of st key with
  | [] => Raise NoContextError
  | v :: vs => Ok (List.last vs v)
  end.

(** [get_fixed_value(label)] *)
Definition get_fixed_value (st : context_stack) (label : string) : result json :=
  ret ← top st "fixed";
  match dict_get ret label with
  | Some v => Ok v
  | None => Raise KeyError
  end.

(** An [nn.Module] handed in as a candidate: whether it is an instance of
    [LayerChoice], the parameter tensors it holds, what it computes. *)
Record module : Type := mk_module {
  is_layer_choice : bool;
  parameters : list nat;
  forward : tensor -> tensor
}.

(** The [candidates] argument: a [dict] or a [list] of modules. *)
Inductive candidates : Type :=
| CDict (d : dict module)
| CList (l : list module).

(** [l[i]] of Python for an [int] index. *)
Definition list_index {A} (l : list A) (i : Z) : result A :=
  let n := Z.of_nat (length l) in
  let k := if (i <? 0)%Z then (i + n)%Z else i in
  if ((0 <=? k) && (k <? n))%Z
  then match nth_error l (Z.to_nat k) with
       | Some a => Ok a
       | None => Raise IndexError
       end
  else Raise IndexError.

Section WithInt.
(** [int(s)] for a string, [None] where Python raises [ValueError]. *)
Context (int_of_string : string -> option Z).

(** [int(chosen)] *)
Definition py_int (chosen : json) : result Z :=
  match chosen with
  | JStr s =>
      match int_of_string s with
      | Some z => Ok z
      | None => Raise (ValueError "invalid literal for int()")
      end
  | JInt z => Ok z
  | JList _ => Raise TypeError
  end.

(** [LayerChoice.create_fixed_module(cls, candidates, label, **kwargs)] *)
Definition create_fixed_module (st : context_stack) (c : candidates) (label : string)
  : result module :=
  chosen ← get_fixed_value st label;
  match c with
  | CList l => i ← py_int chosen; list_index l i
  | CDict d =>
      match chosen with
      | JStr s =>
          match dict_get d s with
          | Some m => Ok m
          | None => Raise KeyError
          end
      | JInt _ => Raise KeyError
      | JList _ => Raise TypeError
      end
  end.

(** What [__new__] returns: a new, uninitialised instance of the class, or
    an object that exists already. *)
Inductive instance : Type :=
| Fresh
| Existing (m : module).

(** [Mutable.__new__(cls, *args, **kwargs)] for [cls = LayerChoice];
    [args] is [None] when the call has no argument at all. *)
Definition __new__ (st : context_stack) (args : option (candidates * string))
  : result instance :=
  match args with
  | None => Ok Fresh
  | Some (c, label) =>
      match create_fixed_module st c label with
      | Ok m => Ok (Existing m)
      | Raise NoContextError => Ok Fresh
      | Raise e => Raise e
      end
  end.

(** The module a construction leaves behind: a searchable node holding
    every candidate, or the module [__new__] handed back. *)
Inductive built : Type :=
| Searchable (label : string) (names : list string) (children : dict module)
| Selected (m : module).

(** [self.prior = prior or [1 / len(candidates) for _ in
    range(len(candidates))]] and the assertion on its sum. *)
Definition check_prior (n : nat) (prior : option (list R)) : result unit :=
  let p := match prior with
           | Some (x :: xs) => x :: xs
           | _ => repeat (1 / INR n)%R n
           end in
  if Rlt_dec (Rabs (fold_left Rplus p 0%R - 1)) 1e-5 then Ok tt
  else Raise (AssertionError "Sum of prior distribution is not 1.").

(** [LayerChoice.__init__(self, candidates, label, *, prior=None)]: a list
    has no [items()]; [self.names[0]] needs a candidate. *)
Definition __init__ (c : candidates) (label : string) (prior : option (list R))
  : result built :=
  match c with
  | CList l => _ ← check_prior (length l) prior; Raise AttributeError
  | CDict d =>
      _ ← check_prior (length d) prior;
      match d with
      | [] => Raise IndexError
      | _ => Ok (Searchable label (dict_keys d) d)
      end
  end.

(** [LayerChoice(candidates, label, prior=prior)]: Python calls [__new__]
    and runs [__init__] on what it returns if that is an instance of the
    class. *)
Definition construct (st : context_stack) (c : candidates) (label : string)
  (prior : option (list R)) : result built :=
  obj ← __new__ st (Some (c, label));
  match obj with
  | Fresh => __init__ c label prior
  | Existing m =>
      if is_layer_choice m then __init__ c label prior else Ok (Selected m)
  end.

End WithInt.

(** The parameter tensors of the module built. *)
Definition built_parameters (b : built) : list nat :=
  match b with
  | Searchable _ _ children => concat (map (fun nm => parameters nm.2) children)
  | Selected m => parameters m
  end.

(** Calling the module built: [LayerChoice] defines no [forward]. *)
Definition built_forward (b : built) (x : tensor) : result tensor :=
  match b with
  | Searchable _ _ _ => Raise NotImplementedError
  | Selected m => Ok (forward m x)
  end.

(** [with fixed_arch(a): ...] entered from the stack [st]. *)
Definition fixed_arch (st : context_stack) (a : arch) : context_stack :=
  push st "fixed" a.

End Choicer.

(** ** [named_parameters] of the trainable wrappers *)

Module Wrapper.

(** An [nn.Module] as [torch.nn.Module.named_parameters] sees it: the
    identity of the object, its [_parameters] (name to tensor object) and
    its [_modules] (name to child), both in registration order. *)
#[warnings="-register-all"]
Inductive nn_module : Type :=
| Module (oid : nat) (_parameters : list (string * nat))
    (_modules : list (string * nn_module)).

Definition own_parameters (m : nn_module) : list (string * nat) :=
  match m with Module _ ps _ => ps end.

(** [prefix + ('.' if prefix else '') + name] *)
Definition join (prefix name : string) : string :=
  match prefix with
  | EmptyString => name
  | _ => String.append prefix (String.append "." name)
  end.

(** [nn.Module.named_modules(memo, prefix)]: depth first, a module object
    already in [memo] is skipped with everything below it.  The pair is what
    is yielded and the memo afterwards. *)
Fixpoint named_modules (m : nn_module) (prefix : string) (memo : list nat)
  : list (string * nn_module) * list nat :=
  match m with
  | Module oid _ children =>
      if existsb (Nat.eqb oid) memo then ([], memo)
      else
        let fix over (cs : list (string * nn_module)) (memo : list nat) :=
          match cs with
          | [] => ([], memo)
          | (name, c) :: cs' =>
              let r1 := named_modules c (join prefix name) memo in
              let r2 := over cs' r1.2 in
              (r1.1 ++ r2.1, r2.2)
          end in
        let r := over children (oid :: memo) in
        ((prefix, m) :: r.1, r.2)
  end.

(** The loop of [nn.Module._named_members]: a tensor object already
    yielded is skipped. *)
Fixpoint named_members (members : list (string * nat)) (memo : list nat)
  : list (string * nat) :=
  match members with
  | [] => []
  | (k, v) :: rest =>
      if existsb (Nat.eqb v) memo then named_members rest memo
      else (k, v) :: named_members rest (v :: memo)
  end.

(** [nn.Module.named_parameters(self)] with its defaults
    ([prefix=''], [recurse=True], [remove_duplicate=True]). *)
Definition nn_named_parameters (m : nn_module) : list (string * nat) :=
  named_members
    (flat_map (fun pm => map (fun kv => (join pm.1 kv.1, kv.2)) (own_parameters pm.2))
       (named_modules m "" []).1)
    [].

(** [DartsLayerChoice.named_parameters] and
    [DartsExpertChoice.named_parameters]: the entries of
    [super().named_parameters()] whose name is not ['alpha']. *)
Definition named_parameters (m : nn_module) : list (string * nat) :=
  List.filter (fun np => negb (String.eqb np.1 "alpha")) (nn_named_parameters m).

(** [parameters(self)]: [for _, p in self.named_parameters(): yield p]. *)
Definition parameters (m : nn_module) : list nat :=
  map snd (named_parameters m).

(** A [DartsLayerChoice] after [__init__]: [op_choices] (a [ModuleDict] of
    the candidates), [alpha], [drop_path], [auxiliary_op]. *)
Definition DartsLayerChoice (oid : nat) (alpha : nat)
  (candidates : list (string * nn_module)) : nn_module :=
  Module oid [("alpha"%string, alpha)]
    [("op_choices"%string, Module (oid + 1) [] candidates);
     ("drop_path"%string, Module (oid + 2) [] []);
     ("auxiliary_op"%string, Module (oid + 3) [] [])].

(** A [DartsExpertChoice] after [__init__]: [op_choices], [alpha],
    [auxiliary_skip]. *)
Definition DartsExpertChoice (oid : nat) (alpha : nat)
  (candidates : list (string * nn_module)) : nn_module :=
  Module oid [("alpha"%string, alpha)]
    [("op_choices"%string, Module (oid + 1) [] candidates);
     ("auxiliary_skip"%string, Module (oid + 2) [] [])].

(** *** The supernet of the repository after [DartsTrainer.__init__], cut
    to one expert with one layer of two candidates

    [supernets.supernet.ExpertModule] holds its layers in a [ModuleList];
    each layer was a [LayerChoice] and is a [DartsLayerChoice] once
    [replace_layer_choice] has run; the task's [ExpertChoice] over the
    experts is a [DartsExpertChoice]. *)
Definition linear (oid : nat) (weight bias : nat) : nn_module :=
  Module oid [("weight"%string, weight); ("bias"%string, bias)] [].

Definition expert_layer : nn_module :=
  DartsLayerChoice 20 100
    [("skipconnect"%string, Module 30 [] []);
     ("MLP-16"%string, Module 31 [] [("mlp_layers"%string,
        Module 32 [] [("0"%string, linear 33 101 102)])])].

Definition expert_0 : nn_module :=
  Module 10 [] [("layers"%string, Module 11 [] [("0"%string, expert_layer)])].

Definition task_0_experts : nn_module :=
  DartsExpertChoice 1 200 [("expert_0"%string, expert_0)].

End Wrapper.

(** ** [utils.utils.EarlyStopper] *)

Module EarlyStopper.

Record t : Type := mk {
  _metrics : list R;
  _patience : Z;
  _not_rise_steps : Z;
  _cur_max : option R;
  _method : string
}.

(** [__init__(self, patience=5, method='min')] *)
Definition init (patience : Z) (method : string) : t :=
  {| _metrics := []; _patience := patience; _not_rise_steps := 0;
     _cur_max := None; _method := method |}.

(** [if self._method == 'min': m = -m] *)
Definition signed (method : string) (m : R) : R :=
  if String.eqb method "min" then (- m)%R else m.

(** [add_metric(self, m)]: the answer and the stopper afterwards. *)
Definition add_metric (s : t) (m : R) : bool * t :=
  let m := signed (_method s) m in
  let metrics := _metrics s ++ [m] in
  let cur_max := match _cur_max s with None => m | Some c => c end in
  let '(cur_max, not_rise_steps) :=
    if Rgt_dec m cur_max then (m, 0%Z) else (cur_max, (_not_rise_steps s + 1)%Z) in
  ((_patience s <=? not_rise_steps)%Z,
   {| _metrics := metrics; _patience := _patience s;
      _not_rise_steps := not_rise_steps; _cur_max := Some cur_max;
      _method := _method s |}).

(** The stopper after the metrics [ms], fed in order. *)
Definition feed (s : t) (ms : list R) : t :=
  fold_left (fun s m => (add_metric s m).2) ms s.

End EarlyStopper.

(** ** [utils.utils.LossContainer] *)

Module LossContainer.
Import Tensor.

(** What [update] is handed and what the container holds: a tuple of
    per-task losses or a single loss (the number [item()] reads from a
    tensor, or a number). *)
Inductive losses : Type :=
| LTuple (l : list R)
| LScalar (x : R).

Record t : Type := mk {
  sum : option losses;
  avg : option losses;
  cnt : Z
}.

(** [__init__(self)], also the state [reset(self)] leaves. *)
Definition init : t := {| sum := None; avg := None; cnt := 0 |}.

Definition reset (s : t) : t := init.

(** [tuple(map(sum, zip(a, b)))]: [sum] of a pair starts from [0]. *)
Definition add_tuples (a b : list R) : list R :=
  zip_with (fun x y => (0 + x + y)%R) a b.

(** [update(self, losses)].  A tuple cannot be added to a number nor zipped
    with one: [TypeError]. *)
Definition update (s : t) (l : losses) : result t :=
  let c := (cnt s + 1)%Z in
  match l with
  | LTuple loss_tuple =>
      new_sum ← match sum s with
                | None => Ok loss_tuple
                | Some (LTuple old) => Ok (add_tuples old loss_tuple)
                | Some (LScalar _) => Raise TypeError
                end;
      Ok {| sum := Some (LTuple new_sum);
            avg := Some (LTuple (map (fun loss => loss / IZR c)%R new_sum));
            cnt := c |}
  | LScalar x =>
      new_sum ← match sum s with
                | None => Ok x
                | Some (LScalar old) => Ok (old + x)%R
                | Some (LTuple _) => Raise TypeError
                end;
      Ok {| sum := Some (LScalar new_sum);
            avg := Some (LScalar (new_sum / IZR c)%R);
            cnt := c |}
  end.

(** The updates of a run of batches. *)
Fixpoint updates (s : t) (ls : list losses) : result t :=
  match ls with
  | [] => Ok s
  | l :: ls' => s' ← update s l; updates s' ls'
  end.

End LossContainer.

(** ** [datasets.dataset_utils.DataProvider] *)

Module DataProvider.
Section WithData.
Context {A : Type}.

(** A data loader: the batches of its [p]-th pass ([enumerate(dataloader)]
    starts a new pass; a shuffling loader orders every pass anew). *)
Definition dataloader : Type := nat -> list A.

(** The provider: the number of the pass its iterator runs through, and
    what that iterator has still to yield. *)
Record t : Type := mk {
  pass : nat;
  iterator : list A
}.

(** [__init__(self, dataloader)] *)
Definition init (dl : dataloader) : t := {| pass := 0; iterator := dl 0 |}.

(** What [next(self)] does: returns a batch, or lets the [StopIteration] of
    an empty new pass through. *)
Inductive outcome : Type :=
| Batch (data : A)
| StopIteration.

(** [next(self)] *)
Definition next (dl : dataloader) (s : t) : outcome * t :=
  match iterator s with
  | data :: rest => (Batch data, {| pass := pass s; iterator := rest |})
  | [] =>
      match dl (S (pass s)) with
      | data :: rest => (Batch data, {| pass := S (pass s); iterator := rest |})
      | [] => (StopIteration, {| pass := S (pass s); iterator := [] |})
      end
  end.

(** The outcomes of [k] calls of [next], and the provider afterwards. *)
Fixpoint calls (dl : dataloader) (k : nat) (s : t) : list outcome * t :=
  match k with
  | O => ([], s)
  | S k' =>
      let r := next dl s in
      let rs := calls dl k' r.2 in
      (r.1 :: rs.1, rs.2)
  end.

(** The provider runs through pass [p] and has handed out [r] of its [n]
    batches. *)
Definition at_position (dl : dataloader) (n : nat) (s : t) (p r : nat) : Prop :=
  pass s = p /\ iterator s = drop r (dl p) /\ r <= n.

End WithData.
Arguments dataloader A : clear implicits.
Arguments t A : clear implicits.
Arguments outcome A : clear implicits.
End DataProvider.

(** ** [DartsExpertChoice] *)

Module DartsExpertChoice.
Import Tensor.

(** The expert-level wrapper: [op_choices] in the order of the
    [ModuleDict], each expert a function of its input, and [alpha]. *)
Record t : Type := mk {
  n_chosen : nat;
  name : string;
  op_choices : list (string * (list (list R) -> list (list R)));
  alpha : tensor
}.

(** [forward(self, x)] *)
Definition forward (m : t) (x : list (list R)) : result (list (list R)) :=
  op_results ← DartsLayerChoice.stack (map (fun op => op.2 x) (op_choices m));
  weighted ← DartsLayerChoice.mul_dim0 op_results (softmax (alpha m));
  Ok (DartsLayerChoice.sum_dim0 weighted).

End DartsExpertChoice.

(** ** The [export] methods of the wrappers and of [DartsTrainer] *)

Module ArchExport.
Import Tensor Choicer.

(** [torch.argmax] of a vector: the index of its largest entry, the first
    one where several entries hold the maximum; [best] at index [best_i] is
    the largest entry seen before index [i]. *)
Fixpoint argmax_from (best_i : nat) (best : R) (i : nat) (a : tensor) : nat :=
  match a with
  | [] => best_i
  | x :: a' =>
      if Rgt_dec x best then argmax_from i x (S i) a'
      else argmax_from best_i best (S i) a'
  end.

Definition argmax (a : tensor) : result nat :=
  match a with
  | [] => Raise IndexError
  | x :: a' => Ok (argmax_from 0 x 1 a')
  end.

(** The indices [torch.sort(a, descending=True)] returns: index [i] goes
    in front of the first index whose entry is smaller. *)
Fixpoint insert_descending (a : tensor) (i : nat) (idx : list nat) : list nat :=
  match idx with
  | [] => [i]
  | j :: idx' =>
      if Rlt_dec (nth j a 0%R) (nth i a 0%R) then i :: j :: idx'
      else j :: insert_descending a i idx'
  end.

Definition sort_descending (a : tensor) : list nat :=
  fold_left (fun idx i => insert_descending a i idx) (seq 0 (length a)) [].

(** The entries of [a] at the indices [idx] do not increase. *)
Fixpoint descending (a : tensor) (idx : list nat) : Prop :=
  match idx with
  | [] => True
  | i :: idx' =>
      match idx' with
      | [] => True
      | j :: _ => (nth j a 0 <= nth i a 0)%R
      end /\ descending a idx'
  end.

(** [names[i]] for an index that is not negative. *)
Definition name_at (names : list string) (i : nat) : result string :=
  match names !! i with
  | Some n => Ok n
  | None => Raise IndexError
  end.

(** [[op_choices[i] for i in idx]] *)
Fixpoint names_at (names : list string) (idx : list nat) : result (list string) :=
  match idx with
  | [] => Ok []
  | i :: idx' => n ← name_at names i; ns ← names_at names idx'; Ok (n :: ns)
  end.

(** [DartsLayerChoice.export(self)] *)
Definition layer_choice_export (m : DartsLayerChoice.t) : result string :=
  i ← argmax (DartsLayerChoice.alpha m);
  name_at (map fst (DartsLayerChoice.op_choices m)) i.

(** [DartsExpertChoice.export(self)] *)
Definition expert_choice_export (m : DartsExpertChoice.t) : result (list string) :=
  names_at (map fst (DartsExpertChoice.op_choices m))
    (sort_descending (DartsExpertChoice.alpha m)).

(** One loop of [DartsTrainer.export]:
    [for name, module in modules: if name not in result:
    result[name] = module.export()]. *)
Fixpoint export_loop {M : Type} (module_export : M -> result json)
  (modules : list (string * M)) (result_ : dict json) : result (dict json) :=
  match modules with
  | [] => Ok result_
  | (name, module) :: rest =>
      if dict_mem result_ name then export_loop module_export rest result_
      else
        v ← module_export module;
        export_loop module_export rest (dict_set result_ name v)
  end.

(** [DartsTrainer.export(self)] *)
Definition export (nas_modules : list (string * DartsLayerChoice.t))
  (expert_modules : list (string * DartsExpertChoice.t)) : result (dict json) :=
  r ← export_loop (fun m => v ← layer_choice_export m; Ok (JStr v)) nas_modules [];
  export_loop (fun m => v ← expert_choice_export m; Ok (JList v)) expert_modules r.

(** The first module of a list with the label [l]. *)
Definition first_labelled {M : Type} (modules : list (string * M)) (l : string)
  : option M :=
  snd <$> List.find (fun lm => String.eqb lm.1 l) modules.

Definition to_option {A : Type} (r : result A) : option A :=
  match r with Ok a => Some a | Raise _ => None end.

End ArchExport.

(** ** [nas.choicer.ChosenExperts] and [ExpertChoice.create_fixed_module] *)

Module ChosenExperts.
Import Tensor Choicer.

(** An expert module handed in as a candidate: its attribute
    [expert_in_dim] and what it computes on a batch. *)
Record expert : Type := mk_expert {
  expert_in_dim : nat;
  run : list (list R) -> list (list R)
}.

(** The module built: [gate_weight] is the weight of the [nn.Linear] of
    [self.gate], one row per output. *)
Record t : Type := mk {
  chosen : list json;
  n_chosen : nat;
  experts : list expert;
  gate_weight : list (list R)
}.

(** The keys [for i in chosen] runs through: the items of a list, the
    characters of a string; an [int] is not iterable. *)
Definition iterate (chosen_ : json) : result (list string) :=
  match chosen_ with
  | JList l => Ok l
  | JStr s => Ok (map (fun c => String c EmptyString) (list_ascii_of_string s))
  | JInt _ => Raise TypeError
  end.

(** [[candidates[i] for i in chosen]] *)
Fixpoint lookup_all (candidates : dict expert) (keys : list string)
  : result (list expert) :=
  match keys with
  | [] => Ok []
  | k :: keys' =>
      match dict_get candidates k with
      | Some e => es ← lookup_all candidates keys'; Ok (e :: es)
      | None => Raise KeyError
      end
  end.

(** [__init__(self, candidates, chosen, n_chosen)]; [init_weight i o] is
    the weight [nn.Linear(i, o, bias=False)] starts with. *)
Definition __init__ (init_weight : nat -> nat -> list (list R))
  (candidates : dict expert) (chosen_ : json) (n_chosen_ : nat) : result t :=
  let chosen_list := match chosen_ with
                     | JList l => map JStr l
                     | _ => [chosen_]
                     end in
  keys ← iterate chosen_;
  es ← lookup_all candidates keys;
  match es with
  | [] => Raise IndexError
  | e0 :: _ =>
      Ok {| chosen := take n_chosen_ chosen_list;
            n_chosen := n_chosen_;
            experts := es;
            gate_weight := init_weight (expert_in_dim e0) n_chosen_ |}
  end.

(** [nn.Linear] without bias on a batch: every row has as many entries as
    every row of the weight. *)
Definition linear (W : list (list R)) (x : list (list R)) : result (list (list R)) :=
  if forallb (fun row => forallb (fun w => length w =? length row) W) x
  then Ok (map (fun row => map (fun w => dot w row) W) x)
  else Raise RuntimeError.

(** [[self.experts[i](x) for i in idx]] *)
Fixpoint experts_outputs (es : list expert) (x : list (list R)) (idx : list nat)
  : result (list (list (list R))) :=
  match idx with
  | [] => Ok []
  | i :: idx' =>
      match es !! i with
      | Some e => outs ← experts_outputs es x idx'; Ok (run e x :: outs)
      | None => Raise IndexError
      end
  end.

(** [torch.bmm(gate_value.unsqueeze(1), experts_out).squeeze(1)] for the
    outputs stacked along dimension 1: row [b] of the result is the sum of
    the rows [b] of the outputs, the [i]-th weighted by [gate_value[b][i]]. *)
Definition bmm (gate_value : list (list R)) (outs : list (list (list R)))
  : result (list (list R)) :=
  match outs with
  | [] => Raise RuntimeError
  | o :: _ =>
      if length gate_value =? length o then
        Ok (imap (fun b g =>
                    map (fun j => dot g (map (fun r => DartsLayerChoice.entry r b j) outs))
                      (seq 0 (length (nth b o []))))
              gate_value)
      else Raise RuntimeError
  end.

(** [forward(self, x)] *)
Definition forward (m : t) (x : list (list R)) : result (list (list R)) :=
  logits ← linear (gate_weight m) x;
  let gate_value := map softmax logits in
  outs ← experts_outputs (experts m) x (seq 0 (n_chosen m));
  experts_out ← DartsLayerChoice.stack outs;
  bmm gate_value experts_out.

(** [ExpertChoice.create_fixed_module(cls, candidates, n_chosen, label)] *)
Definition create_fixed_module (init_weight : nat -> nat -> list (list R))
  (st : list (string * list (list (string * json))))
  (candidates : dict expert) (n_chosen_ : nat) (label : string) : result t :=
  chosen_ ← get_fixed_value st label;
  __init__ init_weight candidates chosen_ n_chosen_.

End ChosenExperts.

(** * Part II: the theorems *)

(** ** Python dictionaries *)

Module PyFacts.

Lemma dict_get_set_eq {V} (d : dict V) (k : string) (v : V) :
  dict_get (dict_set d k v) k = Some v.
Proof.
  induction d as [|[k' v'] d IH]; simpl.
  - rewrite String.eqb_refl. reflexivity.
  - destruct (String.eqb k' k) eqn:E; simpl; rewrite E; [reflexivity | exact IH].
Qed.

Lemma dict_get_set_ne {V} (d : dict V) (k k' : string) (v : V) :
  k <> k' -> dict_get (dict_set d k v) k' = dict_get d k'.
Proof.
  intros Hne. induction d as [|[k0 v0] d IH]; simpl.
  - apply String.eqb_neq in Hne. rewrite Hne. reflexivity.
  - destruct (String.eqb k0 k) eqn:E; simpl.
    + apply String.eqb_eq in E. subst k0.
      apply String.eqb_neq in Hne. rewrite Hne. reflexivity.
    + rewrite IH. reflexivity.
Qed.

Lemma dict_keys_set {V} (d : dict V) (k : string) (v : V) :
  dict_keys (dict_set d k v)
  = if dict_mem d k then dict_keys d else dict_keys d ++ [k].
Proof.
  unfold dict_mem. induction d as [|[k' v'] d IH]; simpl; [reflexivity|].
  destruct (String.eqb k' k) eqn:E; simpl; [reflexivity|].
  rewrite IH. destruct (dict_get d k); reflexivity.
Qed.

Lemma dict_get_None_keys {V} (d : dict V) (k : string) :
  dict_get d k = None -> ~ In k (dict_keys d).
Proof.
  induction d as [|[k' v'] d IH]; simpl; [tauto|].
  destruct (String.eqb_spec k' k) as [->|Hne]; [discriminate|].
  intros H [Hk|Hk]; [congruence | exact (IH H Hk)].
Qed.

Lemma NoDup_dict_set {V} (d : dict V) (k : string) (v : V) :
  NoDup (dict_keys d) -> NoDup (dict_keys (dict_set d k v)).
Proof.
  intros Hnd. rewrite dict_keys_set. unfold dict_mem.
  destruct (dict_get d k) eqn:E; [exact Hnd|].
  apply NoDup_app. repeat split.
  - exact Hnd.
  - intros x Hx Hk. apply list_elem_of_In in Hx. apply list_elem_of_In in Hk.
    destruct Hk as [->|[]]. exact (dict_get_None_keys d x E Hx).
  - apply NoDup_singleton.
Qed.

Lemma In_dict_values {V} (d : dict V) (a : V) :
  NoDup (dict_keys d) ->
  (In a (dict_values d) <-> exists k, dict_get d k = Some a).
Proof.
  unfold dict_values, dict_keys.
  induction d as [|[k v] d IH]; simpl; intros Hnd.
  - split; [tauto | intros [k H]; discriminate].
  - apply NoDup_cons in Hnd as [Hk Hnd]. rewrite list_elem_of_In in Hk. split.
    + intros [->|Hin].
      * exists k. rewrite String.eqb_refl. reflexivity.
      * apply (IH Hnd) in Hin as [k' Hk']. exists k'.
        destruct (String.eqb_spec k k') as [->|_]; [|exact Hk'].
        exfalso. apply Hk. clear -Hk'.
        induction d as [|[k0 v0] d IHd]; simpl in *; [discriminate|].
        destruct (String.eqb_spec k0 k') as [->|_]; [left; reflexivity|].
        right. exact (IHd Hk').
    + intros [k' Hk'].
      destruct (String.eqb k k'); [left; congruence|].
      right. apply (IH Hnd). exists k'. exact Hk'.
Qed.

End PyFacts.

Module DecaySchedulerFacts.
Import DecayScheduler.
Section WithFloat.
Context {F : Type} {fl : PyFloat F}.

Lemma step_ignores_weight (s1 s2 : t F) :
  same_schedule s1 s2 -> cnt s1 = cnt s2 -> step s1 = step s2.
Proof.
  intros (Hb & Hd & Hn) Hc. unfold step. rewrite Hb, Hd, Hn, Hc. reflexivity.
Qed.

Lemma step_schedule (s s' : t F) :
  step s = Ok s' -> same_schedule s' s /\ cnt s' = (cnt s + 1)%Z.
Proof.
  unfold step. destruct (decayed _ _ _ _) as [w|e]; simpl; [|discriminate].
  intros [= <-]. repeat split.
Qed.

Lemma advance_schedule (k : nat) (s s' : t F) :
  advance k s = Ok s' -> same_schedule s' s /\ cnt s' = (cnt s + Z.of_nat k)%Z.
Proof.
  revert s'. induction k as [|k IH]; intros s' H.
  - injection H as <-. repeat split. simpl. lia.
  - simpl in H. destruct (advance k s) as [s1|e]; simpl in H; [|discriminate].
    destruct (IH s1 eq_refl) as ((Hb & Hd & Hn) & Hc).
    destruct (step_schedule _ _ H) as ((Hb' & Hd' & Hn') & Hc').
    repeat split; try congruence. lia.
Qed.

(** A division by zero does not depend on the dividend. *)
Lemma decayed_raise (d : string) (b b' : F) (n c c' : Z) (e : exn) :
  decayed d b n c = Raise e -> decayed d b' n c' = Raise e.
Proof.
  unfold decayed, div_steps.
  destruct (n =? 0)%Z; repeat (destruct (String.eqb d _)); simpl; congruence.
Qed.

Lemma step_raise (s1 s2 : t F) (e : exn) :
  decay_type s1 = decay_type s2 -> steps s1 = steps s2 ->
  step s1 = Raise e -> step s2 = Raise e.
Proof.
  intros Hd Hn. unfold step.
  destruct (decayed (decay_type s1) _ _ _) as [w|e1] eqn:E1; simpl; [discriminate|].
  intros [= <-]. rewrite <- Hd, <- Hn.
  rewrite (decayed_raise _ _ (base_weight s2) _ _ (cnt s2 + 1) _ E1). reflexivity.
Qed.

Lemma advance_raise (k : nat) (s s2 : t F) (e : exn) :
  decay_type s = decay_type s2 -> steps s = steps s2 ->
  advance k s = Raise e -> step s2 = Raise e.
Proof.
  intros Hd Hn. induction k as [|k IH]; simpl; [discriminate|].
  destruct (advance k s) as [s1|e1] eqn:E; simpl.
  - destruct (advance_schedule _ _ _ E) as ((_ & Hd1 & Hn1) & _).
    apply step_raise; congruence.
  - intros [= <-]. auto.
Qed.

Lemma decayed_ok (d : string) (b : F) (n c : Z) :
  n <> 0%Z -> exists w, decayed d b n c = Ok w.
Proof.
  intros Hn. apply Z.eqb_neq in Hn. unfold decayed, div_steps. rewrite Hn.
  repeat (destruct (String.eqb d _)); simpl; eexists; reflexivity.
Qed.

Lemma advance_ok (k : nat) (s : t F) :
  steps s <> 0%Z ->
  exists s', advance k s = Ok s' /\ cnt s' = (cnt s + Z.of_nat k)%Z.
Proof.
  intros Hn. induction k as [|k (s1 & E & Hc)].
  - exists s. split; [reflexivity | simpl; lia].
  - simpl. rewrite E. simpl.
    destruct (advance_schedule _ _ _ E) as ((Hb & Hd & Hn1) & _).
    unfold step.
    destruct (decayed_ok (decay_type s1) (base_weight s1) (steps s1) (cnt s1 + 1))
      as (w & Ew); [congruence|].
    rewrite Ew. simpl. eexists. split; [reflexivity|]. simpl. lia.
Qed.

Lemma set_cnt_same (s : t F) : set_cnt s (cnt s) = s.
Proof. destruct s; reflexivity. Qed.

(** C8 — Resume equivalence of the decay scheduler.  For every decay type,
    base weight, step count and [k >= 1]: advancing [k] times after a reset
    gives the same scheduler (counter and weight, or the same exception) as
    (1) advancing [k-1] times, setting the counter to [k-1] and advancing
    once more, and as (2) what [_resume_checkpoint] rebuilds in a new process
    from the epoch index alone: reset, counter set to [start_epoch - 1] with
    [start_epoch = k], one step.  When the step count is not [1] the
    result is a scheduler whose counter is [k]. *)
Theorem decay_resume_equivalence
  (s0 s0' : t F) (base : F) (epochs : Z) (k : nat) :
  (1 <= k)%nat ->
  decay_type s0' = decay_type s0 ->
  let uninterrupted := advance k (reset s0 base epochs) in
  uninterrupted =
    (s1 ← advance (k - 1) (reset s0 base epochs);
     step (set_cnt s1 (Z.of_nat (k - 1))))
  /\ uninterrupted = resume (reset s0' base epochs) (Z.of_nat k - 1)
  /\ ((epochs <> 1)%Z ->
      exists s, uninterrupted = Ok s /\ cnt s = Z.of_nat k).
Proof.
  intros Hk Hd. destruct k as [|k]; [lia|].
  replace (S k - 1)%nat with k by lia.
  set (r := reset s0 base epochs).
  assert (Hr : reset s0' base epochs = r) by (unfold r, reset; rewrite Hd; reflexivity).
  cbv zeta. split; [|split].
  - simpl. destruct (advance k r) as [s1|e] eqn:E; simpl; [|reflexivity].
    destruct (advance_schedule _ _ _ E) as (_ & Hc).
    replace (Z.of_nat k) with (cnt s1) by (rewrite Hc; unfold r; simpl; lia).
    rewrite set_cnt_same. reflexivity.
  - rewrite Hr. unfold resume.
    replace (Z.of_nat (S k) - 1 + 1 - 1)%Z with (Z.of_nat k) by lia.
    simpl. destruct (advance k r) as [s1|e] eqn:E; simpl.
    + destruct (advance_schedule _ _ _ E) as (Hs & Hc).
      apply step_ignores_weight; [exact Hs|].
      rewrite Hc. unfold r. simpl. lia.
    + symmetry. eapply advance_raise; [| |exact E]; reflexivity.
  - intros Hn. destruct (advance_ok (S k) r) as (s & E & Hc).
    + unfold r. simpl. lia.
    + exists s. split; [exact E|]. rewrite Hc. unfold r. simpl. lia.
Qed.

End WithFloat.

(** C8 at the scheduler the trainer owns ([DecayScheduler()] linear, base
    weight 1.0, reset for 10 epochs), resumed after three epochs. *)
Lemma decay_resume_equivalence_witness :
  let s := init (F := R) 1%R 15 "linear" in
  advance 3 (reset s 1%R 10) = resume (reset s 1%R 10) 2.
Proof.
  intros s.
  exact (proj1 (proj2 (decay_resume_equivalence s s 1%R 10 3
                         ltac:(lia) eq_refl))).
Defined.

End DecaySchedulerFacts.

Module ModelStepFacts.
Import ModelStep.

Lemma model_step_nan (epoch_idx : Z) (task_loss sim_loss : float) (clip : bool) :
  isnan (combined_loss epoch_idx task_loss sim_loss) = true ->
  snd (model_step epoch_idx task_loss sim_loss clip)
    = Raise (ValueError "Training loss is nan.")
  /\ forallb (fun e => negb (is_update e))
       (fst (model_step epoch_idx task_loss sim_loss clip)) = true.
Proof.
  intros H. unfold model_step, _check_nan. rewrite H.
  split; [reflexivity|]. simpl. destruct (5 <=? epoch_idx)%Z; reflexivity.
Qed.

Lemma model_step_not_nan (epoch_idx : Z) (task_loss sim_loss : float) (clip : bool) :
  isnan (combined_loss epoch_idx task_loss sim_loss) = false ->
  snd (model_step epoch_idx task_loss sim_loss clip) = Ok tt
  /\ In (Backward (combined_loss epoch_idx task_loss sim_loss))
        (fst (model_step epoch_idx task_loss sim_loss clip))
  /\ In (OptimStep ModelOptim)
        (fst (model_step epoch_idx task_loss sim_loss clip)).
Proof.
  intros H. unfold model_step, _check_nan. rewrite H.
  split; [reflexivity|]. simpl.
  split; rewrite ?in_app_iff; destruct (5 <=? epoch_idx)%Z, clip; simpl; intuition.
Qed.

(** C7 (as the code has it) — The model step raises [ValueError] exactly when
    the combined training loss is NaN, and then before [backward] and before
    any optimizer step; for every other loss, the infinities included, it
    goes on to [backward] and to the model optimizer's step. *)
Theorem check_nan_guards_model_step
  (epoch_idx : Z) (task_loss sim_loss : float) (clip : bool) :
  let loss := combined_loss epoch_idx task_loss sim_loss in
  let run := model_step epoch_idx task_loss sim_loss clip in
  (isnan loss = true ->
     snd run = Raise (ValueError "Training loss is nan.")
     /\ forallb (fun e => negb (is_update e)) (fst run) = true)
  /\ (isnan loss = false ->
     snd run = Ok tt /\ In (Backward loss) (fst run)
     /\ In (OptimStep ModelOptim) (fst run)).
Proof.
  cbv zeta. split; [apply model_step_nan | apply model_step_not_nan].
Qed.

(** C7 at a NaN loss in epoch 7 (inf + -inf) and at a finite loss. *)
Lemma check_nan_guards_model_step_witness :
  snd (model_step 7 infinity neg_infinity true)
    = Raise (ValueError "Training loss is nan.")
  /\ snd (model_step 0 one zero false) = Ok tt.
Proof.
  split.
  - exact (proj1 (proj1 (check_nan_guards_model_step 7 infinity neg_infinity true)
                    eq_refl)).
  - exact (proj1 (proj2 (check_nan_guards_model_step 0 one zero false) eq_refl)).
Defined.

(** C7 as stated fails: an infinite training loss is non-finite, yet the
    model step raises nothing, runs [backward] on it and steps the model
    optimizer. *)
Lemma infinite_loss_not_caught :
  non_finite (combined_loss 0 infinity zero) = true
  /\ model_step 0 infinity zero false
     = ([ZeroGrad ModelOptim; PredsAndLoss; UpdateLossContainers; Backward infinity;
         OptimStep ModelOptim], Ok tt).
Proof. split; reflexivity. Qed.

End ModelStepFacts.

Module UnrolledFacts.
Import Tensor Unrolled.



Lemma restore_store_snapshot (ps : list loc) (s0 s : store) :
  length s = length s0 ->
  (forall l, l ∉ ps -> s !! l = s0 !! l) ->
  restore_store ps (map (value s0) ps) s = s0.
Proof.
  revert s. induction ps as [|p ps IH]; intros s Hlen Hout.
  - apply list_eq. intros i. apply Hout. apply not_elem_of_nil.
  - unfold restore_store. simpl. apply IH.
    + rewrite length_insert. exact Hlen.
    + intros l Hl. destruct (decide (l = p)) as [->|Hne].
      * destruct (decide (p < length s)) as [Hlt|Hge].
        -- rewrite list_lookup_insert_eq by exact Hlt.
           unfold value. symmetry. apply list_lookup_lookup_total_lt. lia.
        -- rewrite list_insert_ge by lia.
           rewrite !lookup_ge_None_2; [reflexivity|lia|lia].
      * rewrite list_lookup_insert_ne by congruence.
        apply Hout. rewrite not_elem_of_cons. split; assumption.
Qed.

Lemma perturb_store_length e ps dw s :
  length (perturb_store e ps dw s) = length s.
Proof.
  unfold perturb_store. revert dw s.
  induction ps as [|p ps IH]; intros [|d dw] s; simpl; try reflexivity.
  rewrite IH, length_insert. reflexivity.
Qed.

Lemma perturb_store_frame e ps dw s l :
  l ∉ ps -> perturb_store e ps dw s !! l = s !! l.
Proof.
  unfold perturb_store. revert dw s.
  induction ps as [|p ps IH]; intros [|d dw] s Hl; simpl; try reflexivity.
  apply not_elem_of_cons in Hl as [Hne Hl].
  rewrite IH by exact Hl. apply list_lookup_insert_ne. congruence.
Qed.

Lemma perturb_store_at e ps dw s i p d :
  NoDup ps -> ps !! i = Some p -> dw !! i = Some d -> p < length s ->
  value (perturb_store e ps dw s) p = tadd (value s p) (tscale e d).
Proof.
  unfold perturb_store. revert dw s i.
  induction ps as [|q ps IH]; intros [|d' dw] s i Hnd Hp Hd Hlt;
    try (destruct i; discriminate).
  apply NoDup_cons in Hnd as [Hq Hnd]. destruct i as [|i]; simpl in *.
  - injection Hp as ->. injection Hd as ->.
    unfold value at 1.
    rewrite (list_lookup_total_alt _ p).
    change (fold_left _ (zip ps dw) ?s0) with (perturb_store e ps dw s0).
    rewrite perturb_store_frame by exact Hq.
    rewrite list_lookup_insert_eq by exact Hlt. reflexivity.
  - change (fold_left _ (zip ps dw) ?s0) with (perturb_store e ps dw s0).
    unfold perturb_store. rewrite (IH dw _ i Hnd Hp Hd).
    + assert (p <> q) by (intros ->; apply Hq; eapply list_elem_of_lookup_2; eauto).
      unfold value. rewrite list_lookup_total_insert_ne by congruence. reflexivity.
    + rewrite length_insert. exact Hlt.
Qed.


(** *** The trainer *)


Lemma set_params_id st : set_params st (params st) = st.
Proof. destruct st; reflexivity. Qed.

Section WithAutograd.
Context {batch losses : Type} {ag : Autograd batch losses}.

Lemma restore_weights_eq backup st :
  _restore_weights backup st
  = set_params st (restore_store (model_parameters st) backup (params st)).
Proof.
  unfold _restore_weights, restore_store.
  generalize (zip (model_parameters st) backup) as l. intros l.
  revert st. induction l as [|a l IH]; intros st; simpl.
  - symmetry. apply set_params_id.
  - rewrite IH. reflexivity.
Qed.

Lemma perturb_eq e dw st :
  perturb e dw st
  = set_params st (perturb_store e (model_parameters st) dw (params st)).
Proof.
  unfold perturb, perturb_store.
  generalize (zip (model_parameters st) dw) as l. intros l.
  revert st. induction l as [|a l IH]; intros st; simpl.
  - symmetry. apply set_params_id.
  - rewrite IH. reflexivity.
Qed.

(** The virtual step leaves every tensor where it was: its loop rebinds the
    loop variable and writes nothing back; only empty entries are added to
    the optimizer's state. *)
Lemma compute_virtual_model_eq data lr_ mo wd st :
  exists o,
    _compute_virtual_model data lr_ mo wd st = set_optim_state st o
    /\ forall q, momentum_buffer o q = momentum_buffer (optim_state st) q.
Proof.
  unfold _compute_virtual_model.
  generalize (zip (model_parameters st) (autograd_grad data st (model_parameters st))) as l.
  intros l. revert st. induction l as [|[w g] l IH]; intros st; simpl.
  - exists (optim_state st). split; [destruct st; reflexivity | reflexivity].
  - unfold momentum_buffer_get.
    destruct (optim_state st w) as [d|] eqn:E; simpl.
    + apply IH.
    + destruct (IH (set_optim_state st
          (fun q => if Nat.eqb q w then Some None else optim_state st q)))
        as (o & Ho & Hb).
      exists o. split; [rewrite Ho; reflexivity|].
      intros q. rewrite Hb. unfold momentum_buffer. simpl.
      destruct (Nat.eqb_spec q w) as [->|]; [rewrite E|]; reflexivity.
Qed.

Lemma zip_with_map_same {A B C D} (f : B -> C -> D) (g : A -> B) (h : A -> C) (l : list A) :
  zip_with f (map g l) (map h l) = map (fun a => f (g a) (h a)) l.
Proof. induction l; simpl; congruence. Qed.

Lemma compute_hessian_eq backup dw data st :
  let s0 := restore_store (model_parameters st) backup (params st) in
  let eps := (0.01 / norm_cat dw)%R in
  let sp := perturb_store eps (model_parameters st) dw s0 in
  let sn := perturb_store (-2 * eps) (model_parameters st) dw sp in
  _compute_hessian backup dw data st
  = (map (fun a => tdiv (tsub (loss_grad data sp a) (loss_grad data sn a)) (2 * eps)%R)
       (nas_alphas st),
     set_params
       (if Rlt_dec (norm_cat dw) 1e-8
        then warn st (HessianNormWarning (norm_cat dw)) else st) sn).
Proof.
  cbv zeta. unfold _compute_hessian. rewrite restore_weights_eq.
  destruct (Rlt_dec (norm_cat dw) 1e-8); simpl;
    rewrite !perturb_eq; simpl; unfold autograd_grad; simpl;
    rewrite zip_with_map_same; reflexivity.
Qed.

Lemma set_grad_fold lr_ (l : list (loc * tensor * tensor)) st :
  fold_left (fun st' pdh => set_grad st' pdh.1.1 (tsub pdh.1.2 (tscale lr_ pdh.2))) l st
  = set_grads st (assign_grads lr_ l (grad st)).
Proof.
  unfold assign_grads. revert st. induction l as [|a l IH]; intros st; simpl.
  - destruct st; reflexivity.
  - rewrite IH. reflexivity.
Qed.

Lemma zip3_map {A B C} (f : A -> B) (g : A -> C) (l : list A) :
  zip (zip l (map f l)) (map g l) = map (fun a => (a, f a, g a)) l.
Proof. induction l; simpl; congruence. Qed.

Lemma assign_grads_map lr_ (D H : loc -> tensor) (l : list loc) g q :
  assign_grads lr_ (map (fun a => (a, D a, H a)) l) g q
  = if decide (q ∈ l) then Some (tsub (D q) (tscale lr_ (H q))) else g q.
Proof.
  unfold assign_grads. revert g. induction l as [|a l IH]; intros g; simpl.
  - destruct (decide (q ∈ [])) as [Hin|]; [|reflexivity].
    exfalso. revert Hin. apply not_elem_of_nil.
  - rewrite IH. destruct (decide (q ∈ l)) as [Hin|Hnin].
    + rewrite decide_True by (apply elem_of_cons; auto). reflexivity.
    + destruct (Nat.eqb_spec q a) as [->|Hne].
      * rewrite decide_True by (apply elem_of_cons; auto). reflexivity.
      * rewrite decide_False; [reflexivity|].
        rewrite elem_of_cons. intros [?|?]; contradiction.
Qed.

Lemma take_drop_map_app {A B} (f : A -> B) (l k : list A) :
  take (length l) (map f (l ++ k)) = map f l
  /\ drop (length l) (map f (l ++ k)) = map f k.
Proof.
  rewrite map_app. rewrite <- (length_map f l).
  split; [apply take_app_length | apply drop_app_length].
Qed.


Lemma perturb_store_shifted e ps dw s :
  NoDup ps -> Forall (fun p => p < length s) ps ->
  shifted ps s e dw (perturb_store e ps dw s).
Proof.
  intros Hnd Hin. split; [|split].
  - intros i p d Hp Hd. eapply perturb_store_at; eauto.
    eapply (proj1 (Forall_lookup _ _) Hin); eauto.
  - intros l Hl. apply perturb_store_frame. exact Hl.
  - apply perturb_store_length.
Qed.

Lemma well_formed_spec st :
  well_formed st = true ->
  NoDup (model_parameters st)
  /\ Forall (fun p => p < length (params st)) (model_parameters st).
Proof.
  unfold well_formed. intros H.
  apply andb_prop in H as [H _]. apply andb_prop in H as [H1 H2].
  split; [apply bool_decide_eq_true in H1; exact H1|].
  apply Forall_forall. intros p Hp.
  rewrite forallb_forall in H2. apply Nat.ltb_lt. apply H2.
  apply list_elem_of_In. exact Hp.
Qed.

(** The fields of the trainer [_unrolled_backward] returns. *)
Lemma unrolled_backward_fields train_data valid_data st :
  let ps := model_parameters st in
  let d_model := map (loss_grad valid_data (params st)) ps in
  let eps := (0.01 / norm_cat d_model)%R in
  let sp := perturb_store eps ps d_model (params st) in
  let sn := perturb_store (-2 * eps) ps d_model sp in
  let st' := (_unrolled_backward train_data valid_data st).2 in
  params st' = params st
  /\ (forall q, grad st' q =
        if decide (q ∈ nas_alphas st)
        then Some (tsub (loss_grad valid_data (params st) q)
                     (tscale (lr st)
                        (difference_quotient eps (loss_grad train_data sp q)
                           (loss_grad train_data sn q))))
        else grad st q)
  /\ (forall q, momentum_buffer (optim_state st') q = momentum_buffer (optim_state st) q)
  /\ log st' = log st ++ (if Rlt_dec (norm_cat d_model) 1e-8
                          then [HessianNormWarning (norm_cat d_model)] else [])
  /\ (model_parameters st' = ps /\ nas_alphas st' = nas_alphas st)
  /\ (lr st' = lr st /\ momentum st' = momentum st /\ weight_decay st' = weight_decay st)
  /\ (_unrolled_backward train_data valid_data st).1 = loss_value valid_data (params st).
Proof.
  cbv zeta.
  destruct (compute_virtual_model_eq train_data (lr st) (momentum st)
              (weight_decay st) st) as (o & Ho & Hb).
  unfold _unrolled_backward. rewrite Ho. cbn [set_optim_state params model_parameters nas_alphas].
  unfold autograd_grad. cbn [set_optim_state params model_parameters nas_alphas].
  destruct (take_drop_map_app (loss_grad valid_data (params st))
              (model_parameters st) (nas_alphas st)) as [-> ->].
  rewrite compute_hessian_eq. cbn [set_optim_state params model_parameters nas_alphas].
  rewrite set_grad_fold, zip3_map, restore_weights_eq.
  assert (Hs0 : restore_store (model_parameters st) (snapshot st) (params st) = params st).
  { apply restore_store_snapshot; [reflexivity | intros; reflexivity]. }
  rewrite Hs0.
  set (d_model := map (loss_grad valid_data (params st)) (model_parameters st)).
  set (eps := (0.01 / norm_cat d_model)%R).
  set (sp := perturb_store eps (model_parameters st) d_model (params st)).
  set (sn := perturb_store (-2 * eps) (model_parameters st) d_model sp).
  assert (Hback : restore_store (model_parameters st) (snapshot st) sn = params st).
  { apply restore_store_snapshot.
    - unfold sn, sp. rewrite !perturb_store_length. reflexivity.
    - intros l Hl. unfold sn, sp. rewrite !perturb_store_frame by exact Hl. reflexivity. }
  destruct (Rlt_dec (norm_cat d_model) 1e-8); cbn;
    (split; [exact Hback|]); (split; [intros q; apply assign_grads_map|]);
    (split; [exact Hb|]); rewrite ?app_nil_r; repeat split.
Qed.

(** C5 — Every call of [_unrolled_backward] returns with every tensor
    object holding the value it held on entry: the snapshot is written back
    after the virtual step and the two perturbations.  The configuration of
    the trainer and the momentum buffers of the optimizer are untouched as
    well; of the [.grad] fields only those of the architecture parameters of
    the operation-level wrappers can differ. *)
Theorem unrolled_backward_restores_parameters train_data valid_data st :
  let st' := (_unrolled_backward train_data valid_data st).2 in
  params st' = params st
  /\ snapshot st' = snapshot st
  /\ (forall q, q ∉ nas_alphas st -> grad st' q = grad st q)
  /\ (forall q, momentum_buffer (optim_state st') q = momentum_buffer (optim_state st) q)
  /\ model_parameters st' = model_parameters st
  /\ nas_alphas st' = nas_alphas st
  /\ lr st' = lr st /\ momentum st' = momentum st /\ weight_decay st' = weight_decay st.
Proof.
  destruct (unrolled_backward_fields train_data valid_data st)
    as (Hp & Hg & Hb & _ & (Hm & Ha) & (Hl & Hmo & Hw) & _).
  cbv zeta. repeat split; try assumption.
  - unfold snapshot. rewrite Hp, Hm. reflexivity.
  - intros q Hq. rewrite Hg. rewrite decide_False by exact Hq. reflexivity.
Qed.

(** C4 — The Hessian-vector product of one unrolled backward.  With
    [d_model] the validation gradient with respect to the model parameters
    and [eps = 0.01 / ||d_model||], there are two stores: [Spos], the entry
    values with every model parameter moved by [eps * d_model], and [Sneg],
    [Spos] with every model parameter moved by [-2 * eps * d_model]; the
    [.grad] of every [alpha] of [nas_modules] is set to
    [d_arch - lr * (g(Spos) - g(Sneg)) / (2 * eps)], [g] the training-loss
    gradient with respect to that [alpha].  A warning is logged exactly when
    the norm is below [1e-8], and the routine goes on.  No optimizer step is
    taken: no tensor value and no momentum buffer changes. *)
Theorem hessian_finite_difference train_data valid_data st :
  well_formed st = true ->
  let ps := model_parameters st in
  let d_model := map (loss_grad valid_data (params st)) ps in
  let norm := norm_cat d_model in
  let eps := (0.01 / norm)%R in
  let st' := (_unrolled_backward train_data valid_data st).2 in
  exists Spos Sneg : store,
    shifted ps (params st) eps d_model Spos
    /\ shifted ps Spos (-2 * eps) d_model Sneg
    /\ (forall a, a ∈ nas_alphas st ->
          grad st' a =
          Some (tsub (loss_grad valid_data (params st) a)
                  (tscale (lr st)
                     (difference_quotient eps (loss_grad train_data Spos a)
                        (loss_grad train_data Sneg a)))))
    /\ log st' = log st ++ (if Rlt_dec norm 1e-8 then [HessianNormWarning norm] else [])
    /\ params st' = params st
    /\ (forall q, momentum_buffer (optim_state st') q = momentum_buffer (optim_state st) q).
Proof.
  intros Hwf. destruct (well_formed_spec st Hwf) as [Hnd Hin].
  destruct (unrolled_backward_fields train_data valid_data st)
    as (Hp & Hg & Hb & Hlog & _).
  cbv zeta.
  set (d_model := map (loss_grad valid_data (params st)) (model_parameters st)) in *.
  set (eps := (0.01 / norm_cat d_model)%R) in *.
  exists (perturb_store eps (model_parameters st) d_model (params st)).
  exists (perturb_store (-2 * eps) (model_parameters st) d_model
            (perturb_store eps (model_parameters st) d_model (params st))).
  split; [apply perturb_store_shifted; assumption|].
  split.
  { apply perturb_store_shifted; [assumption|].
    rewrite perturb_store_length. assumption. }
  split.
  { intros a Ha. rewrite Hg. rewrite decide_True by exact Ha. reflexivity. }
  repeat split; assumption.
Qed.

End WithAutograd.

(** C4 at the one-weight supernet. *)
Lemma hessian_finite_difference_witness :
  well_formed toy_trainer = true
  /\ exists Spos Sneg : store,
       shifted [0; 1] (params toy_trainer)
         (0.01 / norm_cat (map (loss_grad 1%R (params toy_trainer)) [0; 1]))
         (map (loss_grad 1%R (params toy_trainer)) [0; 1]) Spos
       /\ grad (_unrolled_backward 1%R 1%R toy_trainer).2 1 =
          Some (tsub (loss_grad 1%R (params toy_trainer) 1)
                  (tscale (lr toy_trainer)
                     (difference_quotient
                        (0.01 / norm_cat (map (loss_grad 1%R (params toy_trainer)) [0; 1]))
                        (loss_grad 1%R Spos 1) (loss_grad 1%R Sneg 1)))).
Proof.
  split; [reflexivity|].
  destruct (hessian_finite_difference 1%R 1%R toy_trainer eq_refl)
    as (Spos & Sneg & Hpos & _ & Hgrad & _).
  exists Spos, Sneg. split; [exact Hpos|].
  apply Hgrad. apply elem_of_cons. left. reflexivity.
Defined.

(** C1 at the one-weight supernet: the virtual weight of [w] is
    [1 - 0.1 * (0.9 * 0 + 1 + 0 * 1) = 0.9], the value of [w] after
    [_compute_virtual_model] is still [1], and the validation gradient that
    follows is taken there. *)
Theorem virtual_step_not_applied :
  let st := toy_trainer in
  let g := loss_grad 1%R (params st) 0 in
  let st' := _compute_virtual_model 1%R (lr st) (momentum st) (weight_decay st) st in
  virtual_weight (lr st) (momentum st) (weight_decay st) (value (params st) 0)
    (momentum_buffer (optim_state st) 0) g = [0.9%R]
  /\ value (params st') 0 = [1%R]
  /\ params st' = params st
  /\ [0.9%R] <> value (params st') 0.
Proof.
  cbv zeta.
  assert (Hp : params (_compute_virtual_model 1%R (lr toy_trainer) (momentum toy_trainer)
                         (weight_decay toy_trainer) toy_trainer) = params toy_trainer).
  { destruct (compute_virtual_model_eq 1%R (lr toy_trainer) (momentum toy_trainer)
                (weight_decay toy_trainer) toy_trainer) as (o & -> & _). reflexivity. }
  rewrite Hp. repeat split.
  - cbn. f_equal. unfold scalar. cbn. lra.
  - cbn. intros [= H]. lra.
Qed.

End UnrolledFacts.

Module JSDivLossFacts.
Import Tensor JSDivLoss.

Lemma nth_zip_with_Rplus (a b : tensor) (j : nat) :
  length a = length b ->
  nth j (zip_with Rplus a b) 0%R = (nth j a 0 + nth j b 0)%R.
Proof.
  revert b j. induction a as [|x a IH]; intros [|y b] j Hl; try discriminate.
  - destruct j; simpl; lra.
  - destruct j; simpl; [reflexivity|]. apply IH. simpl in Hl. lia.
Qed.

Lemma map_nth_seq (l : tensor) : l = map (fun j => nth j l 0%R) (seq 0 (length l)).
Proof.
  induction l as [|a l IH]; [reflexivity|].
  cbn [length seq map nth]. f_equal.
  rewrite <- seq_shift, map_map. exact IH.
Qed.

Lemma sum_tensors_spec (m : nat) (ps : list tensor) (acc : tensor) :
  length acc = m -> Forall (fun p => length p = m) ps ->
  sum_tensors acc ps
  = Ok (map (fun j => nth j acc 0 + rsum (map (fun p => nth j p 0) ps))%R (seq 0 m)).
Proof.
  revert acc. induction ps as [|p ps IH]; intros acc Hacc Hps; simpl.
  - f_equal. rewrite (map_nth_seq acc) at 1. rewrite Hacc.
    apply map_ext. intros j. lra.
  - apply Forall_cons in Hps as [Hp Hps].
    unfold add_same_shape. rewrite Hacc, Hp, Nat.eqb_refl. simpl.
    rewrite IH; [|unfold tadd; rewrite length_zip_with; lia|exact Hps].
    f_equal. apply map_ext. intros j.
    unfold tadd. rewrite nth_zip_with_Rplus by congruence. lra.
Qed.

Lemma entropy_shannon (x : tensor) : entropy x = (- shannon_entropy x)%R.
Proof.
  unfold entropy, shannon_entropy, dot. rewrite Ropp_involutive. f_equal.
  induction x as [|a x IH]; simpl; [reflexivity|]. rewrite IH. reflexivity.
Qed.

Lemma fold_entropies (n : R) (probs : list tensor) (l0 : R) :
  fold_left (fun loss prob => (loss - entropy prob / n)%R) probs l0
  = (l0 + rsum (map shannon_entropy probs) / n)%R.
Proof.
  revert l0. induction probs as [|p probs IH]; intros l0; simpl.
  - unfold Rdiv. lra.
  - rewrite IH, entropy_shannon. unfold Rdiv. lra.
Qed.

Lemma softmax_length (a : tensor) : length (softmax a) = length a.
Proof. unfold softmax. apply length_map. Qed.

(** What [forward] returns, in the words of the specification. *)
Lemma forward_js (s : t) (m : nat) (alphas : list tensor) :
  alphas <> [] -> Forall (fun a => length a = m) alphas ->
  forward s alphas = Ok (- (weight s * js_divergence m (map softmax alphas)))%R.
Proof.
  intros Hne Hlen. unfold forward.
  destruct alphas as [|a alphas]; [congruence|]. clear Hne.
  apply Forall_cons in Hlen as [Ha Hlen].
  cbn [map]. set (n := INR (length (a :: alphas))).
  rewrite (sum_tensors_spec m).
  - unfold mbind, result_bind. f_equal. cbn [fold_left].
    rewrite fold_entropies, entropy_shannon.
    unfold js_divergence.
    replace (length (softmax a :: map softmax alphas)) with (length (a :: alphas))
      by (simpl; rewrite length_map; reflexivity).
    fold n.
    assert (Hmean :
      tdiv (map (fun j => nth j (sadd 0 (softmax a)) 0
                          + rsum (map (fun p => nth j p 0) (map softmax alphas)))%R
              (seq 0 m)) n
      = mean_distribution m (softmax a :: map softmax alphas)).
    { unfold tdiv, mean_distribution. rewrite map_map.
      replace (INR (length (softmax a :: map softmax alphas))) with n
        by (unfold n; simpl length; rewrite length_map; reflexivity).
      apply map_ext_in. intros j Hj. apply in_seq in Hj. f_equal.
      cbn [map rsum fold_right]. f_equal.
      unfold sadd.
      rewrite (nth_indep _ 0%R (0 + 0)%R)
        by (rewrite length_map, softmax_length; lia).
      rewrite (map_nth (Rplus 0)). lra. }
    rewrite Hmean. rewrite (entropy_shannon (softmax a)).
    cbn [map rsum fold_right]. unfold Rdiv, rsum. ring.
  - unfold sadd. rewrite length_map, softmax_length. exact Ha.
  - induction Hlen as [|a' l' Ha' _ IH]; simpl; constructor;
      [rewrite softmax_length; exact Ha' | exact IH].
Qed.

Lemma decay_weight (k : nat) (s : t) :
  weight (decay k s) = (weight s - INR k * weight_step s)%R
  /\ weight_step (decay k s) = weight_step s.
Proof.
  induction k as [|k [IHw IHs]].
  - simpl. split; [lra | reflexivity].
  - change (decay (S k) s) with (step (decay k s)).
    rewrite S_INR. unfold step. cbn [weight weight_step].
    rewrite IHw, IHs. split; [lra | reflexivity].
Qed.

Lemma weight_reaches_zero (w0 : R) (epochs : Z) :
  (5 < epochs)%Z ->
  exists s0, of_trainer w0 epochs = Ok s0
    /\ weight s0 = w0
    /\ (forall k, weight (decay k s0) = w0 - INR k * (w0 / IZR (epochs - 5)))%R
    /\ weight (decay (Z.to_nat (epochs - 5)) s0) = 0%R.
Proof.
  intros H. unfold of_trainer, init.
  destruct (Z.eqb_spec (epochs - 5) 0) as [E|_]; [lia|].
  eexists. split; [reflexivity|]. split; [reflexivity|].
  split.
  - intros k. rewrite (proj1 (decay_weight k _)). reflexivity.
  - rewrite (proj1 (decay_weight _ _)). simpl.
    rewrite INR_IZR_INZ, Z2Nat.id by lia.
    field. apply not_0_IZR. lia.
Qed.

(** C6 (as the code has it) — For every non-empty list of subset-architecture
    weight vectors of one length, the loss returned is the NEGATIVE of the
    Jensen-Shannon divergence of the per-task softmax distributions times the
    current weight ([entropy] is the sum of [x * log2 x], the negative of the
    Shannon entropy).  The weight starts at the configured value, loses
    [init / (epochs - 5)] at each step and is zero after [epochs - 5]
    steps. *)
Theorem js_div_loss_value (w0 : R) (epochs : Z) (m k : nat) (alphas : list tensor) :
  (5 < epochs)%Z ->
  alphas <> [] -> Forall (fun a => length a = m) alphas ->
  exists s0,
    of_trainer w0 epochs = Ok s0
    /\ forward (decay k s0) alphas
       = Ok (- (weight (decay k s0) * js_divergence m (map softmax alphas)))%R
    /\ weight (decay k s0) = (w0 - INR k * (w0 / IZR (epochs - 5)))%R
    /\ weight (decay (Z.to_nat (epochs - 5)) s0) = 0%R.
Proof.
  intros He Hne Hlen.
  destruct (weight_reaches_zero w0 epochs He) as (s0 & Hs0 & _ & Hk & Hz).
  exists s0. split; [exact Hs0|]. split; [apply forward_js; assumption|].
  split; [apply Hk | exact Hz].
Qed.

(** C6 for two tasks over two experts, ten epochs, after one step. *)
Lemma js_div_loss_value_witness :
  exists s0,
    of_trainer 0.5%R 10 = Ok s0
    /\ forward (decay 1 s0) [[0%R; 0%R]; [1%R; 0%R]]
       = Ok (- (weight (decay 1 s0)
                * js_divergence 2 (map softmax [[0%R; 0%R]; [1%R; 0%R]])))%R
    /\ weight (decay 1 s0) = (0.5 - INR 1 * (0.5 / IZR (10 - 5)))%R
    /\ weight (decay (Z.to_nat (10 - 5)) s0) = 0%R.
Proof.
  apply (js_div_loss_value 0.5%R 10 2 1 [[0%R; 0%R]; [1%R; 0%R]]).
  - lia.
  - discriminate.
  - repeat constructor.
Defined.

Lemma ln2_pos : (0 < ln 2)%R.
Proof. rewrite <- ln_1. apply ln_increasing; lra. Qed.

Lemma log2_div (x y : R) :
  (0 < x)%R -> (0 < y)%R -> log2 (x / y) = (log2 x - log2 y)%R.
Proof.
  intros Hx Hy. unfold log2.
  assert (E : ln (x / y) = (ln x - ln y)%R).
  { unfold Rdiv. rewrite ln_mult by (try apply Rinv_0_lt_compat; assumption).
    rewrite ln_Rinv by assumption. lra. }
  rewrite E. pose proof ln2_pos. field. lra.
Qed.

Lemma log2_pow2 (n : nat) : log2 (2 ^ n) = INR n.
Proof.
  unfold log2. rewrite ln_pow by lra. pose proof ln2_pos. field. lra.
Qed.

Lemma log2_5_bound : (log2 5 < 12 / 5)%R.
Proof.
  unfold log2. pose proof ln2_pos as H2.
  assert (H : (INR 5 * ln 5 < INR 12 * ln 2)%R).
  { rewrite <- !ln_pow by lra. apply ln_increasing; simpl; lra. }
  simpl in H.
  apply (Rmult_lt_reg_r (ln 2)); [exact H2|].
  unfold Rdiv. rewrite Rmult_assoc, Rinv_l by lra. lra.
Qed.

Lemma softmax_uniform2 : softmax [0%R; 0%R] = [(1 / 2)%R; (1 / 2)%R].
Proof. unfold softmax. simpl. rewrite exp_0. repeat f_equal; lra. Qed.

Lemma softmax_ln3 : softmax [ln 3; 0%R] = [(3 / 4)%R; (1 / 4)%R].
Proof.
  unfold softmax. simpl. rewrite exp_0, exp_ln by lra. repeat f_equal; lra.
Qed.

Lemma js_divergence_example :
  js_divergence 2 [[(1 / 2)%R; (1 / 2)%R]; [(3 / 4)%R; (1 / 4)%R]]
  = (3 / 2 - 5 / 8 * log2 5)%R.
Proof.
  unfold js_divergence, mean_distribution, shannon_entropy. simpl.
  replace ((1 / 2 + (3 / 4 + 0)) / (1 + 1))%R with (5 / 2 ^ 3)%R by lra.
  replace ((1 / 2 + (1 / 4 + 0)) / (1 + 1))%R with (3 / 2 ^ 3)%R by lra.
  replace (1 / 2)%R with (1 / 2 ^ 1)%R by lra.
  replace (3 / 4)%R with (3 / 2 ^ 2)%R by lra.
  replace (1 / 4)%R with (1 / 2 ^ 2)%R by lra.
  rewrite !log2_div by (try apply pow_lt; lra).
  rewrite !log2_pow2.
  replace (log2 1) with 0%R by (unfold log2; rewrite ln_1; lra).
  simpl. lra.
Qed.

(** C6 as stated fails: for the two tasks with weights [[0, 0]] and
    [[ln 3, 0]] (distributions [1/2, 1/2] and [3/4, 1/4]) and weight [1] the
    divergence is [3/2 - 5/8 * log2 5 > 0], and the loss returned is its
    negative. *)
Lemma js_div_loss_is_negated :
  let s := JSDivLoss.mk 1 0.2 in
  let alphas := [[0%R; 0%R]; [ln 3; 0%R]] in
  forward s alphas <> Ok (weight s * js_divergence 2 (map softmax alphas))%R.
Proof.
  cbv zeta. rewrite (forward_js _ 2) by (try discriminate; repeat constructor).
  simpl map. rewrite softmax_uniform2, softmax_ln3, js_divergence_example.
  simpl weight. pose proof log2_5_bound as Hb. intros [= H]. lra.
Qed.

End JSDivLossFacts.
Module DartsLayerChoiceFacts.
Import Tensor DartsLayerChoice.

Lemma entry_badd (a c : batch) (b j : nat) :
  shape a = shape c -> entry (badd a c) b j = (entry a b j + entry c b j)%R.
Proof.
  unfold entry, badd, shape. revert c b.
  induction a as [|ra a IH]; intros [|rc c] b Hs; try discriminate.
  - destruct b, j; simpl; lra.
  - simpl in Hs. injection Hs as Hr Hs. destruct b as [|b]; simpl.
    + clear IH Hs. revert rc j Hr.
      induction ra as [|v ra IHr]; intros [|v' rc] j Hr; try discriminate.
      * destruct j; simpl; lra.
      * destruct j; simpl; [reflexivity|]. apply IHr. simpl in Hr. lia.
    + apply IH. exact Hs.
Qed.

Lemma shape_badd (a c : batch) : shape a = shape c -> shape (badd a c) = shape a.
Proof.
  unfold badd, shape. revert c.
  induction a as [|ra a IH]; intros [|rc c] Hs; try discriminate; [reflexivity|].
  simpl in *. injection Hs as Hr Hs. f_equal; [|apply IH; exact Hs].
  unfold tadd. rewrite length_zip_with. lia.
Qed.

Lemma entry_map (f : R -> R) (x : batch) (b j : nat) :
  f 0%R = 0%R -> entry (map (map f) x) b j = f (entry x b j).
Proof.
  intros Hf. unfold entry. revert b.
  induction x as [|r x IH]; intros b.
  - destruct b, j; simpl; congruence.
  - destruct b as [|b]; simpl; [|apply IH].
    clear IH. revert j. induction r as [|v r IHr]; intros j.
    + destruct j; simpl; congruence.
    + destruct j; simpl; [reflexivity | apply IHr].
Qed.

Lemma entry_bmul (x : batch) (c : R) (b j : nat) :
  entry (bmul x c) b j = (entry x b j * c)%R.
Proof. unfold bmul. rewrite entry_map; [reflexivity | lra]. Qed.

Lemma entry_bscale (x : batch) (c : R) (b j : nat) :
  entry (bscale c x) b j = (c * entry x b j)%R.
Proof. unfold bscale. rewrite entry_map; [reflexivity | lra]. Qed.

Lemma shape_map (f : R -> R) (x : batch) : shape (map (map f) x) = shape x.
Proof.
  unfold shape. rewrite map_map. apply map_ext. intros row. apply length_map.
Qed.

Lemma shape_drop_path (tr : bool) (p : R) (mask : list R) (x : batch) :
  length mask = length x -> shape (drop_path tr p mask x) = shape x.
Proof.
  intros Hm. unfold drop_path. destruct tr; [|reflexivity].
  destruct (Rlt_dec 0 p) as [Hp|Hp]; [|reflexivity].
  unfold shape. revert mask Hm.
  induction x as [|r x IH]; intros [|mk mask] Hm; try discriminate; [reflexivity|].
  simpl. f_equal; [apply length_map | apply IH; simpl in Hm; lia].
Qed.

(** The sum over [dim=0] of a stack of one shape, entry by entry. *)
Lemma fold_badd (sh : list nat) (rs : list batch) (r : batch) (b j : nat) :
  shape r = sh -> Forall (fun r' => shape r' = sh) rs ->
  shape (fold_left badd rs r) = sh
  /\ entry (fold_left badd rs r) b j
     = (entry r b j + rsum (map (fun r' => entry r' b j) rs))%R.
Proof.
  revert r. induction rs as [|r' rs IH]; intros r Hr Hrs; simpl.
  - split; [exact Hr | lra].
  - apply Forall_cons in Hrs as [Hr' Hrs].
    destruct (IH (badd r r')) as [Hs He].
    + rewrite shape_badd; congruence.
    + exact Hrs.
    + split; [exact Hs|]. rewrite He, entry_badd by congruence. lra.
Qed.

Lemma sum_dim0_spec (sh : list nat) (rs : list batch) (b j : nat) :
  rs <> [] -> Forall (fun r => shape r = sh) rs ->
  shape (sum_dim0 rs) = sh
  /\ entry (sum_dim0 rs) b j = rsum (map (fun r => entry r b j) rs).
Proof.
  intros Hne Hrs. destruct rs as [|r rs]; [congruence|].
  apply Forall_cons in Hrs as [Hr Hrs]. simpl.
  exact (fold_badd sh rs r b j Hr Hrs).
Qed.

Lemma stack_same_shape (sh : list nat) (rs : list batch) :
  rs <> [] -> Forall (fun r => shape r = sh) rs -> stack rs = Ok rs.
Proof.
  intros Hne Hrs. destruct rs as [|r rs]; [congruence|].
  apply Forall_cons in Hrs as [Hr Hrs]. unfold stack.
  replace (forallb (same_shape r) rs) with true; [reflexivity|].
  symmetry. apply forallb_forall. intros r' Hin.
  unfold same_shape. apply bool_decide_eq_true.
  rewrite Forall_forall in Hrs. rewrite Hr. symmetry. apply Hrs.
  apply list_elem_of_In. exact Hin.
Qed.

Lemma rsum_weighted (f : nat -> string * (batch -> batch) -> batch)
  (ops : list (string * (batch -> batch))) (w : tensor) (b j : nat) :
  length w = length ops ->
  rsum (map (fun r => entry r b j) (zip_with bmul (imap f ops) w))
  = rsum (imap (fun i op => nth i w 0 * entry (f i op) b j)%R ops).
Proof.
  revert f w. induction ops as [|op ops IH]; intros f w Hl.
  - reflexivity.
  - destruct w as [|c w]; [discriminate|]. simpl.
    rewrite entry_bmul. rewrite (IH (f ∘ S) w) by (simpl in Hl; lia).
    rewrite Rmult_comm. reflexivity.
Qed.

Lemma Forall_shape_weighted (sh : list nat) (rs : list batch) (w : tensor) :
  Forall (fun r => shape r = sh) rs ->
  Forall (fun r => shape r = sh) (zip_with bmul rs w).
Proof.
  intros Hrs. revert w. induction Hrs as [|r rs Hr _ IH]; intros [|c w]; simpl;
    constructor; [|apply IH].
  unfold bmul. rewrite shape_map. exact Hr.
Qed.

Lemma Forall_shape_outputs (m : t) (mask_of : nat -> list R) (x : batch) :
  (forall op, In op (op_choices m) -> shape (op.2 x) = shape x) ->
  (forall i, length (mask_of i) = length x) ->
  Forall (fun r => shape r = shape x) (op_outputs m mask_of x).
Proof.
  intros Hops Hmask. unfold op_outputs.
  generalize (training m) (drop_path_ratio m). intros tr p.
  revert mask_of Hmask Hops. generalize (op_choices m) as ops.
  induction ops as [|op ops IH]; intros mask_of Hmask Hops; simpl; constructor.
  - rewrite shape_drop_path.
    + apply Hops. left. reflexivity.
    + rewrite Hmask. pose proof (Hops op (or_introl eq_refl)) as Hs.
      apply (f_equal (@length nat)) in Hs. unfold shape in Hs.
      rewrite !length_map in Hs. symmetry. exact Hs.
  - apply (IH (mask_of ∘ S)).
    + intros i. apply Hmask.
    + intros op' Hin. apply Hops. right. exact Hin.
Qed.

(** The output of [forward], entry by entry. *)
Lemma forward_entries (aux_weight : R) (m : t) (mask_of : nat -> list R) (x : batch) :
  op_choices m <> [] ->
  length (alpha m) = length (op_choices m) ->
  (forall op, In op (op_choices m) -> shape (op.2 x) = shape x) ->
  (forall i, length (mask_of i) = length x) ->
  exists out,
    forward aux_weight m mask_of x
    = (map (fun op => CallCandidate op.1 x) (op_choices m) ++ [CallAuxiliaryOp x], Ok out)
    /\ shape out = shape x
    /\ forall b j,
         entry out b j = (mixture_entry m mask_of x b j + aux_weight * entry x b j)%R.
Proof.
  intros Hne Hlen Hops Hmask.
  pose proof (Forall_shape_outputs m mask_of x Hops Hmask) as Hout.
  assert (Hne' : op_outputs m mask_of x <> []).
  { unfold op_outputs. destruct (op_choices m); [congruence | discriminate]. }
  assert (Hlen' : length (op_outputs m mask_of x) = length (softmax (alpha m))).
  { unfold op_outputs, softmax. rewrite length_imap, length_map. congruence. }
  unfold forward. rewrite (stack_same_shape (shape x)) by assumption.
  unfold mbind at 1, result_bind at 1. unfold mul_dim0.
  rewrite Hlen', Nat.eqb_refl. unfold mbind, result_bind.
  set (weighted := zip_with bmul (op_outputs m mask_of x) (softmax (alpha m))).
  assert (Hw : Forall (fun r => shape r = shape x) weighted)
    by (apply Forall_shape_weighted; exact Hout).
  assert (Hwne : weighted <> []).
  { unfold weighted. destruct (op_outputs m mask_of x) as [|r rs]; [congruence|].
    destruct (softmax (alpha m)); [discriminate Hlen' | discriminate]. }
  pose proof (fun b j => sum_dim0_spec (shape x) weighted b j Hwne Hw) as Hsum.
  destruct (Hsum 0 0) as [Hshape _].
  unfold add_batches, same_shape.
  rewrite bool_decide_eq_true_2
    by (unfold bscale; rewrite shape_map; exact Hshape).
  eexists. split; [reflexivity|]. split.
  - rewrite shape_badd; [exact Hshape|].
    unfold bscale. rewrite shape_map. exact Hshape.
  - intros b j. rewrite entry_badd
      by (unfold bscale; rewrite shape_map; exact Hshape).
    rewrite entry_bscale. f_equal.
    destruct (Hsum b j) as [_ ->]. unfold weighted, op_outputs, mixture_entry.
    apply rsum_weighted. unfold softmax. rewrite length_map. exact Hlen.
Qed.

Lemma drop_path_off (tr : bool) (p : R) (mask : list R) (x : batch) :
  tr = false \/ (p <= 0)%R -> drop_path tr p mask x = x.
Proof.
  intros [-> | Hp]; [reflexivity|]. unfold drop_path.
  destruct tr; [|reflexivity]. destruct (Rlt_dec 0 p); [lra | reflexivity].
Qed.

Lemma imap_ext_fun {A B} (f g : nat -> A -> B) (l : list A) :
  (forall i a, f i a = g i a) -> imap f l = imap g l.
Proof.
  revert f g. induction l as [|a l IH]; intros f g H; simpl; [reflexivity|].
  rewrite H. f_equal. apply IH. intros i a'. apply H.
Qed.

(** C2 (as the code has it) — For an operation-level wrapper with at least
    one candidate, one [alpha] entry per candidate and candidates that keep
    the shape of the input, [forward] calls every candidate once on the same
    input [x], then the auxiliary identity, and returns, entry by entry, the
    sum over the candidates of [softmax(alpha)[i]] times what [drop_path]
    makes of the [i]-th candidate's output PLUS
    [auxiliary_skip_weight.weight * x].  When the wrapper is not training or
    its drop-path ratio is not positive, the first summand is the weighted
    sum of the candidates' outputs. *)
Theorem forward_mixture_plus_skip
  (aux_weight : R) (m : t) (mask_of : nat -> list R) (x : batch) :
  op_choices m <> [] ->
  length (alpha m) = length (op_choices m) ->
  (forall op, In op (op_choices m) -> shape (op.2 x) = shape x) ->
  (forall i, length (mask_of i) = length x) ->
  exists out,
    forward aux_weight m mask_of x
    = (map (fun op => CallCandidate op.1 x) (op_choices m) ++ [CallAuxiliaryOp x], Ok out)
    /\ shape out = shape x
    /\ (forall b j,
          entry out b j = (mixture_entry m mask_of x b j + aux_weight * entry x b j)%R)
    /\ (training m = false \/ (drop_path_ratio m <= 0)%R ->
        forall b j, mixture_entry m mask_of x b j = weighted_sum_entry m x b j).
Proof.
  intros Hne Hlen Hops Hmask.
  destruct (forward_entries aux_weight m mask_of x Hne Hlen Hops Hmask)
    as (out & Hf & Hs & He).
  exists out. repeat split; try assumption.
  intros Hoff b j. unfold mixture_entry, weighted_sum_entry. f_equal.
  apply imap_ext_fun. intros i op. rewrite drop_path_off by exact Hoff. reflexivity.
Qed.

(** C2 on two candidates, the identity and the doubling, one data point. *)
Lemma forward_mixture_plus_skip_witness :
  let m := mk "bottom_module_layer_0"%string
             [("skipconnect"%string, fun x => x); ("double"%string, fun x => bscale 2 x)]
             [0%R; 0%R] 0%R true in
  let x := [[1%R; 2%R]] in
  exists out,
    forward 1%R m (fun _ => [1%R]) x
    = ([CallCandidate "skipconnect"%string x; CallCandidate "double"%string x; CallAuxiliaryOp x], Ok out)
    /\ forall b j,
         entry out b j = (mixture_entry m (fun _ => [1%R]) x b j + 1 * entry x b j)%R.
Proof.
  intros m x.
  destruct (forward_mixture_plus_skip 1%R m (fun _ => [1%R]) x)
    as (out & Hf & _ & He & _).
  - discriminate.
  - reflexivity.
  - intros op [<- | [<- | []]]; reflexivity.
  - reflexivity.
  - exists out. split; [exact Hf | exact He].
Defined.

(** C2 as stated fails: a wrapper whose only candidate is the identity, in
    epoch 0 (the auxiliary weight is 1.0 after [reset]), on the input [[1]]:
    the weighted sum is [1], the output is [2]. *)
Lemma skip_term_contributes :
  let m := mk "bottom_module_layer_0"%string [("skipconnect"%string, fun x => x)] [0%R] 0%R true in
  let x := [[1%R]] in
  exists out,
    (forward 1%R m (fun _ => [1%R]) x).2 = Ok out
    /\ entry out 0 0 = 2%R
    /\ weighted_sum_entry m x 0 0 = 1%R
    /\ entry out 0 0 <> weighted_sum_entry m x 0 0.
Proof.
  intros m x.
  destruct (forward_entries 1%R m (fun _ => [1%R]) x) as (out & Hf & _ & He).
  - discriminate.
  - reflexivity.
  - intros op [<- | []]; reflexivity.
  - reflexivity.
  - assert (Hw : weighted_sum_entry m x 0 0 = 1%R).
    { unfold weighted_sum_entry, softmax, entry. simpl. rewrite exp_0. lra. }
    assert (Ho : entry out 0 0 = 2%R).
    { rewrite He. unfold mixture_entry, softmax, entry. simpl.
      destruct (Rlt_dec 0 0) as [H|H]; [lra|]. simpl. rewrite exp_0. lra. }
    exists out. rewrite Hf. repeat split; try assumption. rewrite Ho, Hw. lra.
Qed.

End DartsLayerChoiceFacts.

Module ArchParamsFacts.
Import ArchParams PyFacts.

Lemma set_alpha_same (m : wrapper) : set_alpha m (alpha m) = m.
Proof. destruct m; reflexivity. Qed.

Lemma resolved_cons_bound (ctrl : dict nat) (l : string) (m : wrapper)
  (rest : modules) (a : nat) (n : string) :
  dict_get ctrl (name m) = Some a ->
  resolved ctrl ((l, m) :: rest) n = resolved ctrl rest n.
Proof.
  intros Hm. unfold resolved, first_with_name. simpl.
  destruct (dict_get ctrl n) eqn:En; [reflexivity|].
  destruct (String.eqb_spec (name m) n) as [E|_]; [congruence | reflexivity].
Qed.

Lemma resolved_cons_new (ctrl : dict nat) (l : string) (m : wrapper)
  (rest : modules) (n : string) :
  dict_get ctrl (name m) = None ->
  resolved (dict_set ctrl (name m) (alpha m)) rest n
  = resolved ctrl ((l, m) :: rest) n.
Proof.
  intros Hm. unfold resolved, first_with_name. simpl.
  destruct (String.eqb_spec (name m) n) as [<-|Hne].
  - rewrite dict_get_set_eq, Hm. reflexivity.
  - rewrite dict_get_set_ne by exact Hne. reflexivity.
Qed.

Lemma share_ctrl_params_spec (size : nat -> list nat) (ms : modules) (ctrl : dict nat) :
  match share_ctrl_params size ms ctrl with
  | Ok r =>
      r.1 = map (rebound ctrl ms) ms
      /\ (forall n, dict_get r.2 n = resolved ctrl ms n)
      /\ (NoDup (dict_keys ctrl) -> NoDup (dict_keys r.2))
      /\ (forall l m a, In (l, m) ms -> resolved ctrl ms (name m) = Some a ->
            size (alpha m) = size a)
  | Raise e =>
      e = AssertionError "Size of parameters with the same label should be same"
      /\ exists l m a, In (l, m) ms /\ resolved ctrl ms (name m) = Some a
                       /\ size (alpha m) <> size a
  end.
Proof.
  revert ctrl. induction ms as [|[l m] rest IH]; intros ctrl.
  - simpl. repeat split; try tauto.
    intros n. unfold resolved. simpl. destruct (dict_get ctrl n); reflexivity.
  - cbn [share_ctrl_params].
    destruct (dict_get ctrl (name m)) as [a|] eqn:Em.
    + assert (Hm : resolved ctrl ((l, m) :: rest) (name m) = Some a)
        by (unfold resolved; rewrite Em; reflexivity).
      unfold size_eqb. destruct (bool_decide_reflect (size (alpha m) = size a)) as [Es|Es].
      * specialize (IH ctrl).
        destruct (share_ctrl_params size rest ctrl) as [r|e]; simpl.
        -- destruct IH as (H1 & H2 & H3 & H4). repeat split.
           ++ unfold rebound at 1. simpl. rewrite Hm. simpl. f_equal.
              rewrite H1. apply map_ext. intros lm. unfold rebound.
              rewrite (resolved_cons_bound ctrl l m rest a) by exact Em. reflexivity.
           ++ intros n. rewrite H2. symmetry. eapply resolved_cons_bound. exact Em.
           ++ exact H3.
           ++ intros l' m' a' [[= <- <-]|Hin] Hr.
              ** congruence.
              ** apply (H4 l' m' a' Hin).
                 rewrite <- Hr. symmetry. eapply resolved_cons_bound. exact Em.
        -- destruct IH as (He & l' & m' & a' & Hin & Hr & Hs).
           split; [exact He|]. exists l', m', a'.
           split; [right; exact Hin|]. split; [|exact Hs].
           rewrite <- Hr. eapply resolved_cons_bound. exact Em.
      * split; [reflexivity|]. exists l, m, a.
        split; [left; reflexivity|]. split; assumption.
    + assert (Hm : resolved ctrl ((l, m) :: rest) (name m) = Some (alpha m)).
      { unfold resolved, first_with_name. simpl.
        rewrite Em, String.eqb_refl. reflexivity. }
      specialize (IH (dict_set ctrl (name m) (alpha m))).
      destruct (share_ctrl_params size rest (dict_set ctrl (name m) (alpha m)))
        as [r|e]; simpl.
      * destruct IH as (H1 & H2 & H3 & H4). repeat split.
        -- unfold rebound at 1. simpl. rewrite Hm. simpl.
           rewrite set_alpha_same. f_equal.
           rewrite H1. apply map_ext. intros lm. unfold rebound.
           rewrite (resolved_cons_new ctrl l m rest) by exact Em. reflexivity.
        -- intros n. rewrite H2. apply resolved_cons_new. exact Em.
        -- intros Hnd. apply H3. apply NoDup_dict_set. exact Hnd.
        -- intros l' m' a' [[= <- <-]|Hin] Hr.
           ++ congruence.
           ++ apply (H4 l' m' a' Hin).
              rewrite <- Hr. apply resolved_cons_new. exact Em.
      * destruct IH as (He & l' & m' & a' & Hin & Hr & Hs).
        split; [exact He|]. exists l', m', a'.
        split; [right; exact Hin|]. split; [|exact Hs].
        rewrite <- Hr. symmetry. apply resolved_cons_new. exact Em.
Qed.

Lemma first_with_name_In (ms : modules) (l : string) (m : wrapper) :
  In (l, m) ms ->
  exists m0, first_with_name ms (name m) = Some m0 /\ name m0 = name m.
Proof.
  unfold first_with_name. induction ms as [|[l' m'] ms IH]; simpl; [tauto|].
  intros [[= -> ->]|Hin].
  - rewrite String.eqb_refl. simpl. eauto.
  - destruct (String.eqb_spec (name m') (name m)) as [E|_]; simpl; [eauto|].
    apply IH. exact Hin.
Qed.

Lemma resolved_empty (ms : modules) (n : string) :
  resolved [] ms n = alpha <$> first_with_name ms n.
Proof. reflexivity. Qed.

(** The operation-level path, lines 169-178 of [__init__].  When it does
    not raise: wrappers of one label refer to one tensor object; every
    wrapper keeps its place and its label and refers to the [alpha] of the
    first wrapper of its label; the tensors handed to the architecture
    optimizer are exactly those first [alpha]s; no two same-labelled
    [alpha]s differ in shape; the expert-subset wrappers are as they were.
    It raises, an [AssertionError], exactly when some wrapper's [alpha]
    differs in shape from the first of its label. *)
Theorem ctrl_params_shared (size : nat -> list nat) (experts nas : modules) :
  match init_arch_params size experts nas with
  | Ok st =>
      shares_alpha (nas_modules st)
      /\ map (fun lm => (lm.1, name lm.2)) (nas_modules st)
         = map (fun lm => (lm.1, name lm.2)) nas
      /\ (forall l m, In (l, m) (nas_modules st) ->
            exists m0, first_with_name nas (name m) = Some m0 /\ alpha m = alpha m0)
      /\ (forall a, In a (ctrl_optim_params st) <->
            exists n m0, first_with_name nas n = Some m0 /\ alpha m0 = a)
      /\ ~ shape_mismatch size nas
      /\ expert_modules st = experts
  | Raise e =>
      e = AssertionError "Size of parameters with the same label should be same"
      /\ shape_mismatch size nas
  end.
Proof.
  unfold init_arch_params.
  pose proof (share_ctrl_params_spec size nas []) as H.
  destruct (share_ctrl_params size nas []) as [r|e]; simpl.
  - destruct H as (H1 & H2 & H3 & H4).
    assert (Hc : forall l m, In (l, m) r.1 ->
              exists m0, first_with_name nas (name m) = Some m0 /\ alpha m = alpha m0).
    { intros l m Hin. rewrite H1 in Hin. apply in_map_iff in Hin as ([l0 m1] & Heq & Hin).
      unfold rebound in Heq. simpl in Heq. injection Heq as <- <-.
      destruct (first_with_name_In nas l0 m1 Hin) as (m0 & Hf & _).
      exists m0. split; [exact Hf|]. simpl. rewrite resolved_empty, Hf. reflexivity. }
    repeat split.
    + intros l1 m1 l2 m2 Hin1 Hin2 Hn.
      destruct (Hc l1 m1 Hin1) as (m0 & Hf1 & ->).
      destruct (Hc l2 m2 Hin2) as (m0' & Hf2 & ->).
      rewrite Hn in Hf1. congruence.
    + rewrite H1, map_map. apply map_ext. intros [l m]. reflexivity.
    + exact Hc.
    + intros Hin. apply In_dict_values in Hin as [n Hn]; [|apply H3; constructor].
      rewrite H2, resolved_empty in Hn.
      destruct (first_with_name nas n) as [m0|] eqn:Ef; [|discriminate].
      injection Hn as <-. exists n, m0. split; [exact Ef | reflexivity].
    + intros (n & m0 & Hf & <-). apply In_dict_values; [apply H3; constructor|].
      exists n. rewrite H2, resolved_empty, Hf. reflexivity.
    + intros (l & m & m0 & Hin & Hf & Hs). apply Hs.
      apply (H4 l m (alpha m0) Hin). rewrite resolved_empty, Hf. reflexivity.
  - destruct H as (He & l & m & a & Hin & Hr & Hs). split; [exact He|].
    rewrite resolved_empty in Hr.
    destruct (first_with_name nas (name m)) as [m0|] eqn:Ef; [|discriminate].
    injection Hr as <-. exists l, m, m0. repeat split; assumption.
Qed.


End ArchParamsFacts.

Module ChoicerFacts.
Import Tensor Choicer.

Lemma last_cons {A} (v : A) (vs : list A) (d : A) :
  List.last (v :: vs) d = List.last vs v.
Proof.
  revert v d. induction vs as [|w vs IH]; intros v d; [reflexivity|].
  change (List.last (v :: w :: vs) d) with (List.last (w :: vs) d).
  rewrite (IH w d), (IH w v). reflexivity.
Qed.

Lemma top_push (st : context_stack) (key : string) (a : arch) :
  top (push st key a) key = Ok a.
Proof.
  unfold top, push, stack_of. rewrite PyFacts.dict_get_set_eq. simpl.
  destruct (default [] (dict_get st key) ++ [a]) as [|v vs] eqn:E.
  - destruct (default [] (dict_get st key)); discriminate.
  - rewrite <- (last_cons v vs v), <- E, last_last. reflexivity.
Qed.

Section WithInt.
Context (int_of_string : string -> option Z).

(** Under a binding of the label to a name of the candidate dictionary,
    [create_fixed_module] hands that candidate back. *)
Lemma create_fixed_module_bound (st : context_stack) (a : arch)
  (d : dict module) (label x : string) (m : module) :
  top st "fixed" = Ok a ->
  dict_get a label = Some (JStr x) ->
  dict_get d x = Some m ->
  create_fixed_module int_of_string st (CDict d) label = Ok m.
Proof.
  intros Ht Ha Hd. unfold create_fixed_module, get_fixed_value.
  rewrite Ht. simpl. rewrite Ha. simpl. rewrite Hd. reflexivity.
Qed.

(** C9 — Under a fixed-architecture binding of [label] to the candidate
    name [x], constructing [LayerChoice(candidates, label)] hands back the
    candidate [candidates[x]] itself, an operation module: [__new__] returns
    that object, no [LayerChoice] is initialised, and what is built computes
    what the candidate computes on every input and holds the candidate's
    parameters and no others. *)
Theorem fixed_layer_choice_is_candidate (st : context_stack) (a : arch)
  (d : dict module) (label x : string) (m : module) (prior : option (list R)) :
  top st "fixed" = Ok a ->
  dict_get a label = Some (JStr x) ->
  dict_get d x = Some m ->
  is_layer_choice m = false ->
  __new__ int_of_string st (Some (CDict d, label)) = Ok (Existing m)
  /\ construct int_of_string st (CDict d) label prior = Ok (Selected m)
  /\ (forall input, built_forward (Selected m) input = Ok (forward m input))
  /\ built_parameters (Selected m) = parameters m.
Proof.
  intros Ht Ha Hd Hm.
  assert (Hnew : __new__ int_of_string st (Some (CDict d, label)) = Ok (Existing m)).
  { unfold __new__. rewrite (create_fixed_module_bound st a d label x m) by assumption.
    reflexivity. }
  split; [exact Hnew|]. split.
  - unfold construct. rewrite Hnew. simpl. rewrite Hm. reflexivity.
  - split; [intros input|]; reflexivity.
Qed.

End WithInt.

(** C9 for a layer of the bottom module with two candidates, built inside
    [with fixed_arch({'bottom_module_layer_0': 'MLP-64'})]. *)
Lemma fixed_layer_choice_is_candidate_witness :
  let skip := mk_module false [] (fun t => t) in
  let mlp := mk_module false [3; 4] (fun t => Tensor.tscale 2 t) in
  let d := [("skipconnect"%string, skip); ("MLP-64"%string, mlp)] in
  let a := [("bottom_module_layer_0"%string, JStr "MLP-64")] in
  construct (fun _ => None) (fixed_arch [] a) (CDict d) "bottom_module_layer_0" None
  = Ok (Selected mlp)
  /\ built_parameters (Selected mlp) = [3; 4].
Proof.
  intros skip mlp d a.
  destruct (fixed_layer_choice_is_candidate (fun _ => None) (fixed_arch [] a) a d
              "bottom_module_layer_0" "MLP-64" mlp None
              eq_refl eq_refl eq_refl eq_refl) as (_ & Hc & _ & Hp).
  split; [exact Hc | exact Hp].
Defined.

(** Without a fixed architecture in scope the same call builds the
    searchable node over all candidates. *)
Lemma layer_choice_without_context (int_of_string : string -> option Z)
  (d : dict module) (label : string) :
  d <> [] ->
  construct int_of_string [] (CDict d) label None
  = (_ ← check_prior (length d) None; Ok (Searchable label (dict_keys d) d)).
Proof.
  intros Hne. unfold construct, __new__, create_fixed_module, get_fixed_value. simpl.
  unfold __init__. destruct (check_prior (length d) None); simpl; [|reflexivity].
  destruct d; [congruence | reflexivity].
Qed.

End ChoicerFacts.

Module WrapperFacts.
Import Wrapper.

Lemma named_members_fresh (members : list (string * nat)) (memo : list nat) (v : nat) :
  In v memo -> ~ In v (map snd (named_members members memo)).
Proof.
  revert memo. induction members as [|[k w] rest IH]; intros memo Hin; simpl; [tauto|].
  destruct (existsb (Nat.eqb w) memo) eqn:E.
  - apply IH. exact Hin.
  - simpl. intros [->|H].
    + assert (existsb (Nat.eqb v) memo = true).
      { apply existsb_exists. exists v. split; [exact Hin | apply Nat.eqb_refl]. }
      congruence.
    + revert H. apply IH. right. exact Hin.
Qed.

Lemma named_modules_head (m : nn_module) (prefix : string) :
  exists tl, (named_modules m prefix []).1 = (prefix, m) :: tl.
Proof. destruct m. simpl. eexists. reflexivity. Qed.

(** The wrapper's own [alpha] is never yielded: it comes first, under the
    name ['alpha'], and is not yielded a second time. *)
Lemma own_alpha_dropped (oid alpha : nat) (children : list (string * nn_module)) :
  ~ In alpha (parameters (Module oid [("alpha"%string, alpha)] children)).
Proof.
  unfold parameters, named_parameters, nn_named_parameters.
  destruct (named_modules_head (Module oid [("alpha"%string, alpha)] children) "")
    as (tl & ->).
  cbn [flat_map own_parameters map fst snd join app named_members existsb].
  intros Hin. apply in_map_iff in Hin as ([n p] & Hp & Hin). simpl in Hp. subst p.
  apply filter_In in Hin as [Hin Hname]. destruct Hin as [[= <-]|Hin].
  - discriminate Hname.
  - eapply named_members_fresh; [|apply in_map_iff; exists (n, alpha); split;
                                   [reflexivity | exact Hin]].
    left. reflexivity.
Qed.

(** C10 at the expert-subset wrapper of the supernet: its own [alpha]
    (object 200) is dropped, but the [alpha] of the operation-level wrapper
    inside its expert (object 100) is yielded, under a dotted name, next to
    the weights of the linear layer. *)
Theorem nested_alpha_is_yielded :
  named_parameters task_0_experts
  = [("op_choices.expert_0.layers.0.alpha"%string, 100);
     ("op_choices.expert_0.layers.0.op_choices.MLP-16.mlp_layers.0.weight"%string, 101);
     ("op_choices.expert_0.layers.0.op_choices.MLP-16.mlp_layers.0.bias"%string, 102)]
  /\ parameters task_0_experts = [100; 101; 102]
  /\ parameters expert_layer = [101; 102].
Proof. repeat split; reflexivity. Qed.

End WrapperFacts.

(** ** More on [utils.utils.DecayScheduler] *)

Module DecaySchedulerExtra.
Import DecayScheduler DecaySchedulerFacts.

Section WithFloat.
Context {F : Type} {fl : PyFloat F}.

(** The weight after [k + 1] steps is the one [step] computes from the
    counter [cnt + k + 1]. *)
Lemma advance_weight (k : nat) (s s' : t F) :
  advance (S k) s = Ok s' ->
  decayed (decay_type s) (base_weight s) (steps s) (cnt s + Z.of_nat (S k))
  = Ok (weight s').
Proof.
  simpl. destruct (advance k s) as [s1|e] eqn:E; simpl; [|discriminate].
  destruct (advance_schedule _ _ _ E) as ((Hb & Hd & Hn) & Hc).
  unfold step. rewrite Hb, Hd, Hn, Hc.
  replace (cnt s + Z.of_nat k + 1)%Z with (cnt s + Z.pos (Pos.of_succ_nat k))%Z by lia.
  destruct (decayed _ _ _ _) as [w|e]; simpl; [|discriminate].
  intros [= <-]. reflexivity.
Qed.

(** X1 — A search of one epoch: [reset(steps=1)] leaves [self.steps = 0],
    and the first [step()] of a cosine, slow-cosine or linear scheduler
    raises [ZeroDivisionError], however many steps are asked for; a
    scheduler of any other decay type never raises and keeps its base
    weight. *)
Theorem one_epoch_schedule_divides_by_zero
  (s0 : t F) (base : F) (epochs : Z) (k : nat) :
  (In (decay_type s0) ["cosine"; "slow_cosine"; "linear"]%string -> epochs = 1%Z ->
     advance (S k) (reset s0 base epochs) = Raise ZeroDivisionError)
  /\ (~ In (decay_type s0) ["cosine"; "slow_cosine"; "linear"]%string ->
     exists s, advance k (reset s0 base epochs) = Ok s
               /\ weight s = base /\ cnt s = Z.of_nat k).
Proof.
  split.
  - intros Hd ->. induction k as [|k IH].
    + simpl. unfold step, decayed, div_steps. simpl.
      destruct Hd as [<-|[<-|[<-|[]]]]; reflexivity.
    + change (advance (S (S k)) ?s) with (s' ← advance (S k) s; step s').
      rewrite IH. reflexivity.
  - intros Hd.
    assert (Hc : String.eqb (decay_type s0) "cosine" = false)
      by (apply String.eqb_neq; intros H; apply Hd; rewrite H; simpl; tauto).
    assert (Hs : String.eqb (decay_type s0) "slow_cosine" = false)
      by (apply String.eqb_neq; intros H; apply Hd; rewrite H; simpl; tauto).
    assert (Hl : String.eqb (decay_type s0) "linear" = false)
      by (apply String.eqb_neq; intros H; apply Hd; rewrite H; simpl; tauto).
    induction k as [|k (s & E & Hw & Hk)].
    + eexists. split; [reflexivity|]. split; reflexivity.
    + simpl. rewrite E. simpl.
      destruct (advance_schedule _ _ _ E) as ((Hb & Hdt & Hn) & _).
      unfold step, decayed. rewrite Hdt. simpl. rewrite Hc, Hs, Hl. simpl.
      eexists. split; [reflexivity|]. simpl. split; [exact Hb | lia].
Qed.

End WithFloat.

(** X1 for the scheduler the trainer owns. *)
Lemma one_epoch_schedule_divides_by_zero_witness :
  advance 1 (reset (init (F := R) 1%R 15 "linear") 1%R 1) = Raise ZeroDivisionError.
Proof.
  exact (proj1 (one_epoch_schedule_divides_by_zero
                  (init (F := R) 1%R 15 "linear") 1%R 1 0)
           ltac:(simpl; tauto) eq_refl).
Defined.

(** X2 — The linear schedule over the reals: after [k >= 1] steps of a scheduler
    reset for [epochs >= 2] epochs the weight is
    [base * (epochs - 1 - k) / (epochs - 1)], whatever [k]: it is [0] after
    [epochs - 1] steps (the weight in force during the last epoch) and it is
    not clamped: after [epochs] steps it is [- base / (epochs - 1)]. *)
Theorem linear_schedule_closed_form (s0 : t R) (base : R) (epochs : Z) (k : nat) :
  decay_type s0 = "linear"%string -> (2 <= epochs)%Z -> (1 <= k)%nat ->
  exists s,
    advance k (reset s0 base epochs) = Ok s
    /\ weight s = (base * IZR (epochs - 1 - Z.of_nat k) / IZR (epochs - 1))%R
    /\ (Z.of_nat k = epochs - 1 -> weight s = 0%R)%Z
    /\ (Z.of_nat k = epochs -> weight s = - base / IZR (epochs - 1))%R.
Proof.
  intros Hd He Hk. destruct k as [|k]; [lia|].
  destruct (advance_ok (S k) (reset s0 base epochs)) as (s & E & Hc);
    [simpl; lia|].
  exists s. split; [exact E|].
  pose proof (advance_weight k _ _ E) as Hw. simpl in Hw.
  unfold decayed, div_steps in Hw. rewrite Hd in Hw. simpl in Hw.
  destruct (Z.eqb_spec (epochs - 1) 0) as [E0|_]; [lia|].
  injection Hw as Hw.
  assert (Hne : IZR (epochs - 1) <> 0%R) by (apply not_0_IZR; lia).
  assert (Hform : weight s
                  = (base * IZR (epochs - 1 - Z.of_nat (S k)) / IZR (epochs - 1))%R).
  { rewrite <- Hw. rewrite Z.add_0_l. reflexivity. }
  split; [exact Hform|]. split.
  - intros Hlast. rewrite Hform.
    replace (epochs - 1 - Z.of_nat (S k))%Z with 0%Z by lia.
    unfold Rdiv. rewrite Rmult_0_r, Rmult_0_l. reflexivity.
  - intros Hlast. rewrite Hform.
    replace (epochs - 1 - Z.of_nat (S k))%Z with (-1)%Z by lia.
    field. exact Hne.
Qed.

Lemma linear_schedule_closed_form_witness :
  exists s,
    advance 9 (reset (init 1%R 15 "linear") 1%R 10) = Ok s /\ weight s = 0%R.
Proof.
  destruct (linear_schedule_closed_form (init 1%R 15 "linear") 1%R 10 9
              eq_refl ltac:(lia) ltac:(lia)) as (s & E & _ & Hz & _).
  exists s. split; [exact E | apply Hz; reflexivity].
Defined.

(** X3 — Over the reals each of the three named decay types brings the
    weight to exactly [0] after [epochs - 1] steps, for every base weight. *)
Theorem named_schedules_end_at_zero (s0 : t R) (base : R) (epochs : Z) :
  In (decay_type s0) ["cosine"; "slow_cosine"; "linear"]%string -> (2 <= epochs)%Z ->
  exists s,
    advance (Z.to_nat (epochs - 1)) (reset s0 base epochs) = Ok s
    /\ weight s = 0%R /\ cnt s = (epochs - 1)%Z.
Proof.
  intros Hd He.
  destruct (Z.to_nat (epochs - 1)) as [|k] eqn:Ek; [lia|].
  destruct (advance_ok (S k) (reset s0 base epochs)) as (s & E & Hc);
    [simpl; lia|].
  exists s. split; [exact E|].
  split; [|rewrite Hc; simpl cnt; lia].
  pose proof (advance_weight k _ _ E) as Hw. cbn [reset decay_type base_weight steps cnt] in Hw.
  replace (0 + Z.of_nat (S k))%Z with (epochs - 1)%Z in Hw by lia.
  assert (Hne : IZR (epochs - 1) <> 0%R) by (apply not_0_IZR; lia).
  unfold decayed, div_steps in Hw.
  destruct (Z.eqb_spec (epochs - 1) 0) as [E0|_]; [lia|].
  destruct Hd as [Hd|[Hd|[Hd|[]]]]; rewrite <- Hd in Hw; simpl in Hw;
    injection Hw as <-.
  - replace (PI * IZR (epochs - 1) / IZR (epochs - 1))%R with PI by (field; exact Hne).
    rewrite cos_PI. lra.
  - replace (PI / 2 * IZR (epochs - 1) / IZR (epochs - 1))%R with (PI / 2)%R
      by (field; exact Hne).
    rewrite cos_PI2. lra.
  - rewrite Z.sub_diag. unfold Rdiv. rewrite Rmult_0_r, Rmult_0_l. reflexivity.
Qed.

Lemma named_schedules_end_at_zero_witness :
  exists s,
    advance (Z.to_nat (10 - 1)) (reset (init 1%R 15 "cosine") 0.5%R 10) = Ok s
    /\ weight s = 0%R /\ cnt s = (10 - 1)%Z.
Proof.
  apply (named_schedules_end_at_zero (init 1%R 15 "cosine") 0.5%R 10);
    [simpl; tauto | lia].
Defined.

End DecaySchedulerExtra.

(** ** More on [ContextStack] and on the construction of a [LayerChoice] *)

Module ChoicerExtra.
Import Tensor Choicer PyFacts ChoicerFacts.

Lemma stack_of_push_eq (st : context_stack) (key : string) (v : arch) :
  stack_of (push st key v) key = stack_of st key ++ [v].
Proof. unfold push. unfold stack_of at 1. rewrite dict_get_set_eq. reflexivity. Qed.

Lemma stack_of_push_ne (st : context_stack) (key key' : string) (v : arch) :
  key <> key' -> stack_of (push st key v) key' = stack_of st key'.
Proof.
  intros Hne. unfold push. unfold stack_of at 1.
  rewrite dict_get_set_ne by exact Hne. reflexivity.
Qed.

Lemma top_stack_of (st1 st2 : context_stack) (key : string) :
  stack_of st1 key = stack_of st2 key -> top st1 key = top st2 key.
Proof. unfold top. intros ->. reflexivity. Qed.

(** X4 — The context stack is a stack per namespace.  After [push(key, v)]
    the top of [key] is [v] and every other namespace is as before;
    a [pop(key)] that follows succeeds and leaves every namespace with the
    values it had before the push. *)
Theorem context_stack_push_pop (st : context_stack) (key : string) (v : arch) :
  top (push st key v) key = Ok v
  /\ (forall key', key <> key' -> top (push st key v) key' = top st key')
  /\ exists st',
       pop (push st key v) key = Ok st'
       /\ forall key', stack_of st' key' = stack_of st key'.
Proof.
  split; [apply top_push|]. split.
  - intros key' Hne. apply top_stack_of. apply stack_of_push_ne. exact Hne.
  - unfold pop. rewrite stack_of_push_eq.
    destruct (stack_of st key ++ [v]) as [|x xs] eqn:E.
    + destruct (stack_of st key); discriminate.
    + eexists. split; [reflexivity|].
      intros key'. rewrite <- E, removelast_last.
      destruct (String.eqb_spec key key') as [<-|Hne].
      * unfold stack_of at 1. rewrite dict_get_set_eq. reflexivity.
      * unfold stack_of at 1. rewrite dict_get_set_ne by exact Hne.
        fold (stack_of (push st key v) key'). apply stack_of_push_ne. exact Hne.
Qed.

Section WithInt.
Context (int_of_string : string -> option Z).

Lemma construct_stack_of (st1 st2 : context_stack) (c : candidates) (label : string)
  (prior : option (list R)) :
  stack_of st1 "fixed" = stack_of st2 "fixed" ->
  construct int_of_string st1 c label prior = construct int_of_string st2 c label prior.
Proof.
  intros H. unfold construct, __new__, create_fixed_module, get_fixed_value.
  rewrite (top_stack_of st1 st2 "fixed" H). reflexivity.
Qed.

(** X5 — A fixed-architecture scope is scoped.  Inside
    [with fixed_arch(a)] the binding in force is [a], whatever was in force
    outside; once the scope is left, every construction of a choice gives
    what it would have given had the scope never been entered. *)
Theorem fixed_arch_is_scoped (st : context_stack) (a : arch) :
  top (fixed_arch st a) "fixed" = Ok a
  /\ exists st',
       pop (fixed_arch st a) "fixed" = Ok st'
       /\ forall c label prior,
            construct int_of_string st' c label prior
            = construct int_of_string st c label prior.
Proof.
  destruct (context_stack_push_pop st "fixed" a) as (Ht & _ & st' & Hp & Hs).
  split; [exact Ht|]. exists st'. split; [exact Hp|].
  intros c label prior. apply construct_stack_of. apply Hs.
Qed.

(** X6 — A fixed architecture that does not answer is an error, not a
    fallback: when a fixed architecture is in scope and has no entry for the
    label, or names a candidate the dictionary of candidates does not hold,
    the construction raises [KeyError]; no searchable node is built. *)
Theorem fixed_label_missing_raises (st : context_stack) (a : arch)
  (c : candidates) (d : dict module) (label x : string) (prior : option (list R)) :
  top st "fixed" = Ok a ->
  (dict_get a label = None ->
     construct int_of_string st c label prior = Raise KeyError)
  /\ (dict_get a label = Some (JStr x) -> dict_get d x = None ->
     construct int_of_string st (CDict d) label prior = Raise KeyError).
Proof.
  intros Ht. unfold construct, __new__, create_fixed_module, get_fixed_value.
  rewrite Ht. simpl. split.
  - intros ->. reflexivity.
  - intros -> Hd. simpl. rewrite Hd. reflexivity.
Qed.

End WithInt.

Lemma fixed_label_missing_raises_witness :
  let skip := mk_module false [] (fun t => t) in
  let a := [("bottom_module_layer_0"%string, JStr "MLP-64")] in
  construct (fun _ => None) (fixed_arch [] a) (CDict [("skipconnect"%string, skip)])
    "expert_0_layer_0" None = Raise KeyError
  /\ construct (fun _ => None) (fixed_arch [] a) (CDict [("skipconnect"%string, skip)])
       "bottom_module_layer_0" None = Raise KeyError.
Proof.
  intros skip a.
  destruct (fixed_label_missing_raises (fun _ => None) (fixed_arch [] a) a
              (CDict [("skipconnect"%string, skip)]) [("skipconnect"%string, skip)]
              "expert_0_layer_0" "MLP-64" None eq_refl) as [H1 _].
  destruct (fixed_label_missing_raises (fun _ => None) (fixed_arch [] a) a
              (CDict [("skipconnect"%string, skip)]) [("skipconnect"%string, skip)]
              "bottom_module_layer_0" "MLP-64" None eq_refl) as [_ H2].
  split; [apply H1; reflexivity | apply H2; reflexivity].
Defined.

Lemma fold_left_Rplus (l : list R) (a : R) :
  fold_left Rplus l a = (a + rsum l)%R.
Proof.
  revert a. induction l as [|x l IH]; intros a; simpl; [lra|].
  rewrite IH. lra.
Qed.

Lemma rsum_repeat (x : R) (n : nat) : rsum (repeat x n) = (INR n * x)%R.
Proof.
  induction n as [|n IH]; [simpl; lra|].
  rewrite S_INR. cbn [repeat rsum fold_right]. fold (rsum (repeat x n)).
  rewrite IH. lra.
Qed.

Lemma check_prior_default (n : nat) :
  check_prior n None
  = match n with
    | O => Raise (AssertionError "Sum of prior distribution is not 1.")
    | S _ => Ok tt
    end.
Proof.
  unfold check_prior. rewrite fold_left_Rplus, rsum_repeat.
  destruct n as [|n].
  - simpl. destruct (Rlt_dec _ _) as [H|H]; [|reflexivity].
    exfalso. revert H. rewrite Rmult_0_l, Rplus_0_l.
    replace (0 - 1)%R with (-1)%R by lra. rewrite Rabs_left by lra. lra.
  - assert (Hn : INR (S n) <> 0%R) by (apply not_0_INR; lia).
    replace (0 + INR (S n) * (1 / INR (S n)) - 1)%R with 0%R by (field; exact Hn).
    rewrite Rabs_R0. destruct (Rlt_dec 0 1e-5) as [H|H]; [reflexivity | lra].
Qed.

Section WithInt2.
Context (int_of_string : string -> option Z).

(** X7 — With no fixed architecture in scope, [LayerChoice(candidates,
    label)] over a dictionary builds the searchable node: it holds every
    candidate, under its name, in the order of the dictionary (the default
    prior is uniform and passes the assertion).  With no candidate at all
    the assertion on the prior fails: [AssertionError]. *)
Theorem layer_choice_searchable (st : context_stack) (d : dict module) (label : string) :
  stack_of st "fixed" = [] ->
  construct int_of_string st (CDict d) label None
  = match d with
    | [] => Raise (AssertionError "Sum of prior distribution is not 1.")
    | _ => Ok (Searchable label (dict_keys d) d)
    end.
Proof.
  intros Hs. unfold construct, __new__, create_fixed_module, get_fixed_value, top.
  rewrite Hs. simpl. rewrite check_prior_default.
  destruct d; reflexivity.
Qed.

(** X8 — The prior handed to a searchable [LayerChoice] must sum to one
    within [1e-5]: a non-empty prior over a non-empty dictionary of
    candidates is accepted exactly when [|sum(prior) - 1| < 1e-5], and
    [AssertionError] is raised otherwise. *)
Theorem layer_choice_prior_checked (st : context_stack) (d : dict module)
  (label : string) (p : list R) :
  stack_of st "fixed" = [] -> d <> [] -> p <> [] ->
  ((Rabs (rsum p - 1) < 1e-5)%R ->
     construct int_of_string st (CDict d) label (Some p)
     = Ok (Searchable label (dict_keys d) d))
  /\ (~ (Rabs (rsum p - 1) < 1e-5)%R ->
     construct int_of_string st (CDict d) label (Some p)
     = Raise (AssertionError "Sum of prior distribution is not 1.")).
Proof.
  intros Hs Hd Hp.
  unfold construct, __new__, create_fixed_module, get_fixed_value, top.
  rewrite Hs. simpl. unfold check_prior.
  destruct p as [|x xs]; [congruence|].
  rewrite fold_left_Rplus, Rplus_0_l.
  split; intros H; destruct (Rlt_dec _ _) as [H'|H']; try contradiction; simpl.
  - destruct d; [congruence | reflexivity].
  - reflexivity.
Qed.

End WithInt2.

Lemma layer_choice_searchable_witness :
  let skip := mk_module false [] (fun t => t) in
  construct (fun _ => None) [] (CDict [("skipconnect"%string, skip)]) "l" None
  = Ok (Searchable "l" ["skipconnect"%string] [("skipconnect"%string, skip)]).
Proof.
  intros skip.
  exact (layer_choice_searchable (fun _ => None) [] [("skipconnect"%string, skip)]
           "l" eq_refl).
Defined.

Lemma layer_choice_prior_checked_witness :
  let skip := mk_module false [] (fun t => t) in
  let d := [("a"%string, skip); ("b"%string, skip)] in
  construct (fun _ => None) [] (CDict d) "l" (Some [0.5%R; 0.5%R])
  = Ok (Searchable "l" ["a"%string; "b"%string] d)
  /\ construct (fun _ => None) [] (CDict d) "l" (Some [0.5%R; 0.6%R])
     = Raise (AssertionError "Sum of prior distribution is not 1.").
Proof.
  intros skip d. split.
  - apply (layer_choice_prior_checked (fun _ => None) [] d "l" [0.5%R; 0.5%R]
             eq_refl ltac:(discriminate) ltac:(discriminate)).
    simpl. replace (0.5 + (0.5 + 0) - 1)%R with 0%R by lra. rewrite Rabs_R0. lra.
  - apply (layer_choice_prior_checked (fun _ => None) [] d "l" [0.5%R; 0.6%R]
             eq_refl ltac:(discriminate) ltac:(discriminate)).
    simpl. replace (0.5 + (0.6 + 0) - 1)%R with 0.1%R by lra.
    rewrite Rabs_right by lra. lra.
Defined.

End ChoicerExtra.

(** ** More on the routines of the claims *)

Module UnrolledExtra.
Import Tensor Unrolled UnrolledFacts.

Lemma restore_store_length ps backup s :
  length (restore_store ps backup s) = length s.
Proof.
  unfold restore_store. revert backup s.
  induction ps as [|p ps IH]; intros [|b backup] s; simpl; try reflexivity.
  rewrite IH, length_insert. reflexivity.
Qed.

Lemma restore_store_frame ps backup s l :
  l ∉ ps -> restore_store ps backup s !! l = s !! l.
Proof.
  unfold restore_store. revert backup s.
  induction ps as [|p ps IH]; intros [|b backup] s Hl; simpl; try reflexivity.
  apply not_elem_of_cons in Hl as [Hne Hl].
  rewrite IH by exact Hl. apply list_lookup_insert_ne. congruence.
Qed.

Lemma restore_store_at ps backup s i p b :
  NoDup ps -> ps !! i = Some p -> backup !! i = Some b -> p < length s ->
  value (restore_store ps backup s) p = b.
Proof.
  unfold restore_store. revert backup s i.
  induction ps as [|q ps IH]; intros [|b' backup] s i Hnd Hp Hb Hlt;
    try (destruct i; discriminate).
  apply NoDup_cons in Hnd as [Hq Hnd]. destruct i as [|i]; simpl in *.
  - injection Hp as ->. injection Hb as ->.
    unfold value. rewrite (list_lookup_total_alt _ p).
    change (fold_left _ (zip ps backup) ?s0) with (restore_store ps backup s0).
    rewrite restore_store_frame by exact Hq.
    rewrite list_lookup_insert_eq by exact Hlt. reflexivity.
  - apply (IH backup _ i Hnd Hp Hb). rewrite length_insert. exact Hlt.
Qed.

Section WithAutograd.
Context {batch losses : Type} {ag : Autograd batch losses}.

(** X9 — [_restore_weights(backup)] writes the backup back, tensor by
    tensor: afterwards the [i]-th model parameter holds the [i]-th tensor of
    the backup, every tensor object that is no model parameter keeps its
    value, and nothing else of the trainer changes.  In particular a
    snapshot taken earlier is what [snapshot] returns again. *)
Theorem restore_weights_writes_backup (backup : list tensor) (st : trainer) :
  well_formed st = true ->
  length backup = length (model_parameters st) ->
  let st' := _restore_weights backup st in
  (forall i p b, model_parameters st !! i = Some p -> backup !! i = Some b ->
     value (params st') p = b)
  /\ (forall l, l ∉ model_parameters st -> params st' !! l = params st !! l)
  /\ snapshot st' = backup
  /\ st' = set_params st (params st').
Proof.
  intros Hwf Hlen. destruct (well_formed_spec st Hwf) as [Hnd Hin].
  cbv zeta. rewrite restore_weights_eq. cbn [set_params params].
  assert (Hat : forall i p b, model_parameters st !! i = Some p -> backup !! i = Some b ->
            value (restore_store (model_parameters st) backup (params st)) p = b).
  { intros i p b Hp Hb. eapply restore_store_at; eauto.
    eapply (proj1 (Forall_lookup _ _) Hin); eauto. }
  split; [exact Hat|]. split; [intros l Hl; apply restore_store_frame; exact Hl|].
  split; [|reflexivity].
  unfold snapshot. cbn [set_params params model_parameters].
  apply list_eq. intros i. rewrite list_lookup_fmap.
  destruct (model_parameters st !! i) as [p|] eqn:Ep; simpl.
  - destruct (backup !! i) as [b|] eqn:Eb.
    + f_equal. eapply Hat; eauto.
    + apply lookup_ge_None in Eb. apply lookup_lt_Some in Ep. lia.
  - symmetry. apply lookup_ge_None. apply lookup_ge_None in Ep. lia.
Qed.

End WithAutograd.

Lemma restore_weights_writes_backup_witness :
  snapshot (_restore_weights [[5%R]; [7%R]] toy_trainer) = [[5%R]; [7%R]].
Proof.
  exact (proj1 (proj2 (proj2
    (restore_weights_writes_backup [[5%R]; [7%R]] toy_trainer eq_refl eq_refl)))).
Defined.

End UnrolledExtra.

Module ArchParamsExtra.
Import ArchParams PyFacts ArchParamsFacts.

Lemma collect_fold_app (ms : modules) (m : string * wrapper) (d : dict nat) :
  fold_left (fun d lm => dict_set d (name lm.2) (alpha lm.2)) (ms ++ [m]) d
  = dict_set (fold_left (fun d lm => dict_set d (name lm.2) (alpha lm.2)) ms d)
      (name m.2) (alpha m.2).
Proof. rewrite fold_left_app. reflexivity. Qed.

Lemma collect_keys_NoDup (ms : modules) : NoDup (dict_keys (collect_expert_params ms)).
Proof.
  unfold collect_expert_params.
  induction ms as [|m ms IH] using rev_ind; [constructor|].
  rewrite collect_fold_app. apply NoDup_dict_set. exact IH.
Qed.

(** X10 — The expert-subset path of [__init__] keeps, for every label, the
    [alpha] of the LAST wrapper built with that label: [expert_params] maps a
    label to that tensor, and the tensors the expert optimizer is given are
    exactly those, one per label. *)
Theorem expert_params_last_wins (experts : modules) :
  (forall n, dict_get (collect_expert_params experts) n
             = alpha <$> first_with_name (rev experts) n)
  /\ (forall a, In a (dict_values (collect_expert_params experts)) <->
        exists n m, first_with_name (rev experts) n = Some m /\ alpha m = a).
Proof.
  assert (H : forall n, dict_get (collect_expert_params experts) n
                        = alpha <$> first_with_name (rev experts) n).
  { unfold collect_expert_params.
    induction experts as [|m ms IH] using rev_ind; intros n; [reflexivity|].
    rewrite collect_fold_app, rev_app_distr. simpl rev.
    unfold first_with_name. simpl.
    destruct (String.eqb_spec (name m.2) n) as [<-|Hne].
    - rewrite dict_get_set_eq. reflexivity.
    - rewrite dict_get_set_ne by exact Hne. apply IH. }
  split; [exact H|]. intros a.
  rewrite In_dict_values by apply collect_keys_NoDup. split.
  - intros [n Hn]. rewrite H in Hn.
    destruct (first_with_name (rev experts) n) as [m|] eqn:E; [|discriminate].
    injection Hn as <-. eauto.
  - intros (n & m & Hf & <-). exists n. rewrite H, Hf. reflexivity.
Qed.




End ArchParamsExtra.

Module JSDivLossExtra.
Import Tensor JSDivLoss JSDivLossFacts.

Lemma rsum_map_repeat {A} (f : A -> R) (x : A) (n : nat) :
  rsum (map f (repeat x n)) = (INR n * f x)%R.
Proof.
  induction n as [|n IH]; [simpl; lra|].
  rewrite S_INR. cbn [repeat map rsum fold_right]. fold (rsum (map f (repeat x n))).
  rewrite IH. lra.
Qed.

(** X12 — Tasks that route alike are not rewarded: when all [n >= 1] tasks
    have the same weight vector, the loss returned is [0], whatever the
    weight of the loss. *)
Theorem js_div_loss_zero_on_equal (s : t) (a : tensor) (n : nat) :
  (1 <= n)%nat -> forward s (repeat a n) = Ok 0%R.
Proof.
  intros Hn.
  rewrite (forward_js s (length a)).
  - f_equal. unfold js_divergence.
    assert (Hnz : INR n <> 0%R) by (apply not_0_INR; lia).
    assert (Hmap : map softmax (repeat a n) = repeat (softmax a) n).
    { clear. induction n; simpl; congruence. }
    rewrite Hmap, repeat_length.
    assert (Hmean : mean_distribution (length a) (repeat (softmax a) n) = softmax a).
    { unfold mean_distribution. rewrite repeat_length.
      etransitivity; [|symmetry; apply map_nth_seq]. rewrite softmax_length.
      apply map_ext. intros j.
      rewrite (rsum_map_repeat (fun p => nth j p 0%R)). field. exact Hnz. }
    rewrite Hmean, rsum_map_repeat. field. exact Hnz.
  - destruct n; [lia | discriminate].
  - clear. induction n; simpl; constructor; [reflexivity | assumption].
Qed.

Lemma js_div_loss_zero_on_equal_witness :
  forward (JSDivLoss.mk 0.5 0.1) (repeat [1%R; 2%R] 3) = Ok 0%R.
Proof. apply js_div_loss_zero_on_equal. lia. Defined.

End JSDivLossExtra.

Module DropPathExtra.
Import Tensor DartsLayerChoice DartsLayerChoiceFacts.

Lemma entry_zip_rows (f : R -> R -> R) (x : batch) (mask : list R) (b j : nat) :
  length mask = length x -> (forall m, f 0%R m = 0%R) ->
  entry (zip_with (fun row m => map (fun v => f v m) row) x mask) b j
  = f (entry x b j) (nth b mask 0%R).
Proof.
  intros Hl Hf. unfold entry. revert mask b Hl.
  induction x as [|r x IH]; intros [|m mask] b Hl; try discriminate.
  - destruct b, j; simpl; symmetry; apply Hf.
  - destruct b as [|b]; simpl.
    + clear IH Hl. revert j. induction r as [|v r IHr]; intros j.
      * destruct j; simpl; symmetry; apply Hf.
      * destruct j; simpl; [reflexivity | apply IHr].
    + apply IH. simpl in Hl. lia.
Qed.

(** X13 — Drop path, row by row: while training with a positive ratio [p]
    every entry of the data point [b] becomes [x / (1 - p) * mask[b]], so a
    data point whose mask entry is [0] is zeroed and one whose mask entry is
    [1] is scaled by [1 / (1 - p)]; the shape is kept.  In evaluation mode,
    or with a ratio that is not positive, the input is returned as it is. *)
Theorem drop_path_rows (tr : bool) (p : R) (mask : list R) (x : batch) (b j : nat) :
  length mask = length x ->
  shape (drop_path tr p mask x) = shape x
  /\ (tr = true -> (0 < p)%R ->
      entry (drop_path tr p mask x) b j = (entry x b j / (1 - p) * nth b mask 0)%R
      /\ (nth b mask 0%R = 0%R -> entry (drop_path tr p mask x) b j = 0%R)
      /\ (nth b mask 0%R = 1%R ->
          entry (drop_path tr p mask x) b j = (entry x b j / (1 - p))%R))
  /\ (tr = false \/ (p <= 0)%R -> drop_path tr p mask x = x).
Proof.
  intros Hl. split; [apply shape_drop_path; exact Hl|]. split.
  - intros -> Hp.
    assert (He : entry (drop_path true p mask x) b j
                 = (entry x b j / (1 - p) * nth b mask 0)%R).
    { unfold drop_path. destruct (Rlt_dec 0 p) as [_|Hn]; [|contradiction].
      apply (entry_zip_rows (fun v m => v / (1 - p) * m)%R); [exact Hl|].
      intros m. unfold Rdiv. ring. }
    split; [exact He|]. split; intros Hm; rewrite He, Hm; ring.
  - apply drop_path_off.
Qed.

Lemma drop_path_rows_witness :
  entry (drop_path true 0.5%R [1%R; 0%R] [[3%R]; [4%R]]) 1 0 = 0%R.
Proof.
  destruct (drop_path_rows true 0.5%R [1%R; 0%R] [[3%R]; [4%R]] 1 0 eq_refl)
    as (_ & H & _).
  destruct (H eq_refl ltac:(lra)) as (_ & Hz & _). apply Hz. reflexivity.
Defined.

End DropPathExtra.

Module WrapperExtra.
Import Wrapper WrapperFacts.

(** X14 — Neither wrapper ever yields its own [alpha] from [parameters()]
    or [named_parameters()], whatever its candidates are, also when one of
    them holds that very tensor object. *)
Theorem wrappers_drop_own_alpha (oid alpha : nat) (candidates : list (string * nn_module)) :
  ~ In alpha (parameters (DartsLayerChoice oid alpha candidates))
  /\ ~ In alpha (parameters (DartsExpertChoice oid alpha candidates))
  /\ ~ In alpha (map snd (named_parameters (DartsLayerChoice oid alpha candidates)))
  /\ ~ In alpha (map snd (named_parameters (DartsExpertChoice oid alpha candidates))).
Proof.
  repeat split; apply own_alpha_dropped.
Qed.

End WrapperExtra.


(** ** [EarlyStopper], [LossContainer] and [DataProvider] *)

Module EarlyStopperExtra.
Import EarlyStopper.

Lemma feed_app (s : t) (xs ys : list R) :
  feed s (xs ++ ys) = feed (feed s xs) ys.
Proof. unfold feed. apply fold_left_app. Qed.

Lemma feed_keeps (s : t) (ms : list R) :
  _method (feed s ms) = _method s /\ _patience (feed s ms) = _patience s.
Proof.
  revert s. induction ms as [|m ms IH]; intros s; [split; reflexivity|].
  change (feed s (m :: ms)) with (feed (add_metric s m).2 ms).
  destruct (IH (add_metric s m).2) as [E1 E2]. rewrite E1, E2.
  unfold add_metric.
  destruct (_cur_max s); destruct (Rgt_dec _ _); split; reflexivity.
Qed.

(** Metrics below the best one seen leave it and count up. *)
Lemma feed_no_rise (s : t) (c : R) (post : list R) :
  _cur_max s = Some c ->
  Forall (fun x => (signed (_method s) x <= c)%R) post ->
  _cur_max (feed s post) = Some c
  /\ _not_rise_steps (feed s post) = (_not_rise_steps s + Z.of_nat (length post))%Z.
Proof.
  revert s. induction post as [|x post IH]; intros s Hc Hall.
  - simpl. split; [exact Hc | lia].
  - apply Forall_cons in Hall as [Hx Hall].
    change (feed s (x :: post)) with (feed (add_metric s x).2 post).
    assert (Hs : _cur_max (add_metric s x).2 = Some c
                 /\ _not_rise_steps (add_metric s x).2 = (_not_rise_steps s + 1)%Z
                 /\ _method (add_metric s x).2 = _method s).
    { unfold add_metric. rewrite Hc.
      destruct (Rgt_dec (signed (_method s) x) c) as [Hgt|Hle]; [lra|].
      repeat split; reflexivity. }
    destruct Hs as (H1 & H2 & H3).
    destruct (IH (add_metric s x).2 H1) as [E1 E2].
    { rewrite H3. exact Hall. }
    split; [exact E1|]. rewrite E2, H2. simpl length. lia.
Qed.

(** Below a bound, the best metric seen stays below it. *)
Lemma feed_below (s : t) (M : R) (pre : list R) :
  (forall c, _cur_max s = Some c -> (c < M)%R) ->
  Forall (fun x => (signed (_method s) x < M)%R) pre ->
  (forall c, _cur_max (feed s pre) = Some c -> (c < M)%R)
  /\ (pre <> [] -> _cur_max (feed s pre) <> None).
Proof.
  revert s. induction pre as [|x pre IH]; intros s Hc Hall.
  - split; [exact Hc | congruence].
  - apply Forall_cons in Hall as [Hx Hall].
    change (feed s (x :: pre)) with (feed (add_metric s x).2 pre).
    assert (Hs : (forall c, _cur_max (add_metric s x).2 = Some c -> (c < M)%R)
                 /\ _cur_max (add_metric s x).2 <> None
                 /\ _method (add_metric s x).2 = _method s).
    { unfold add_metric.
      destruct (_cur_max s) as [c0|] eqn:E0.
      - destruct (Rgt_dec (signed (_method s) x) c0) as [Hgt|Hle]; simpl;
          (split; [intros c [= <-]; auto | split; [congruence | reflexivity]]).
      - destruct (Rgt_dec _ _) as [Hgt|Hle]; simpl;
          (split; [intros c [= <-]; auto | split; [congruence | reflexivity]]). }
    destruct Hs as (H1 & H2 & H3).
    destruct (IH (add_metric s x).2 H1) as [E1 E2].
    { rewrite H3. exact Hall. }
    split; [exact E1|]. intros _.
    destruct pre as [|y pre]; [exact H2 | apply E2; congruence].
Qed.

(** X15 — [EarlyStopper.add_metric], fed a run of metrics from a new
    stopper: once the run holds a metric [m] (after the sign change of
    method 'min') that is strictly better than all before it and not
    beaten strictly after it, the stored best is [m] and the counter is the
    number of metrics after [m]; when [m] is the very first metric it is
    counted too, so the counter is one more. *)
Theorem early_stopper_counts_since_best
  (patience : Z) (method : string) (pre post : list R) (m : R) :
  Forall (fun x => (signed method x < signed method m)%R) pre ->
  Forall (fun x => (signed method x <= signed method m)%R) post ->
  let s := feed (init patience method) (pre ++ m :: post) in
  _cur_max s = Some (signed method m)
  /\ _not_rise_steps s =
       (match pre with [] => 1 | _ => 0 end + Z.of_nat (length post))%Z.
Proof.
  intros Hpre Hpost s. subst s.
  rewrite feed_app.
  change (feed (feed (init patience method) pre) (m :: post))
    with (feed (add_metric (feed (init patience method) pre) m).2 post).
  set (s0 := feed (init patience method) pre).
  destruct (feed_keeps (init patience method) pre) as [Hm _].
  fold s0 in Hm. simpl in Hm.
  destruct (feed_below (init patience method) (signed method m) pre) as [Hb Hn].
  { simpl. congruence. }
  { exact Hpre. }
  fold s0 in Hb, Hn.
  assert (Hs : _cur_max (add_metric s0 m).2 = Some (signed method m)
               /\ _not_rise_steps (add_metric s0 m).2
                  = match pre with [] => 1%Z | _ => 0%Z end
               /\ _method (add_metric s0 m).2 = method).
  { unfold add_metric. rewrite Hm.
    destruct (_cur_max s0) as [c|] eqn:Ec.
    - specialize (Hb c eq_refl).
      destruct (Rgt_dec (signed method m) c) as [Hgt|Hle]; [|lra].
      destruct pre as [|y pre]; [|repeat split; reflexivity].
      unfold s0 in Ec. simpl in Ec. discriminate.
    - destruct pre as [|y pre]; [|exfalso; apply Hn; congruence].
      destruct (Rgt_dec (signed method m) (signed method m)) as [Hgt|Hle]; [lra|].
      repeat split; reflexivity. }
  destruct Hs as (H1 & H2 & H3).
  destruct (feed_no_rise (add_metric s0 m).2 (signed method m) post H1) as [E1 E2].
  { rewrite H3. exact Hpost. }
  split; [exact E1 | rewrite E2, H2; reflexivity].
Qed.

Lemma early_stopper_counts_since_best_witness :
  let s := feed (init 5 "min") ([3; 2] ++ 1 :: [1; 4])%R in
  _cur_max s = Some (signed "min" 1)
  /\ _not_rise_steps s = (0 + Z.of_nat (length [1; 4]%R))%Z.
Proof.
  apply (early_stopper_counts_since_best 5 "min" [3; 2]%R [1; 4]%R 1%R).
  - repeat constructor; unfold signed; simpl; lra.
  - repeat constructor; unfold signed; simpl; lra.
Defined.

End EarlyStopperExtra.

Module LossContainerExtra.
Import Tensor LossContainer.

Lemma updates_scalars_from (s : t) (s0 : R) (xs : list R) :
  sum s = Some (LScalar s0) ->
  exists s', updates s (map LScalar xs) = Ok s'
    /\ sum s' = Some (LScalar (s0 + rsum xs))
    /\ cnt s' = (cnt s + Z.of_nat (length xs))%Z
    /\ (xs <> [] -> avg s' = Some (LScalar ((s0 + rsum xs) / IZR (cnt s')))).
Proof.
  revert s s0. induction xs as [|x xs IH]; intros s s0 Hs.
  - exists s. simpl. repeat split.
    + rewrite Hs. do 2 f_equal. lra.
    + lia.
    + congruence.
  - simpl map. simpl updates. rewrite Hs.
    unfold mbind, result_bind.
    set (s1 := {| sum := Some (LScalar (s0 + x));
                  avg := Some (LScalar ((s0 + x) / IZR (cnt s + 1)));
                  cnt := cnt s + 1 |}).
    destruct (IH s1 (s0 + x)%R eq_refl) as (s' & E & Hsum & Hcnt & Havg).
    exists s'. split; [exact E|].
    assert (Er : (s0 + x + rsum xs = s0 + rsum (x :: xs))%R)
      by (unfold rsum; simpl; lra).
    split; [rewrite Hsum, Er; reflexivity|].
    split; [rewrite Hcnt; simpl cnt; simpl length; lia|].
    intros _. destruct xs as [|y xs].
    + simpl in E. injection E as <-. simpl. do 2 f_equal.
      unfold rsum. simpl. lra.
    + rewrite Havg by congruence. rewrite Er. reflexivity.
Qed.

(** X16 — [LossContainer.update] over a run of single losses, from a new
    or reset container: it never raises, [cnt] is the number of updates,
    [sum] the sum of the losses and [avg] their mean. *)
Theorem loss_container_scalar_mean (x : R) (xs : list R) :
  exists s, updates init (map LScalar (x :: xs)) = Ok s
    /\ cnt s = Z.of_nat (length (x :: xs))
    /\ sum s = Some (LScalar (rsum (x :: xs)))
    /\ avg s = Some (LScalar (rsum (x :: xs) / INR (length (x :: xs)))).
Proof.
  simpl map. simpl updates. simpl sum.
  unfold mbind, result_bind.
  set (s1 := {| sum := Some (LScalar x);
                avg := Some (LScalar (x / IZR (cnt init + 1)));
                cnt := cnt init + 1 |}).
  destruct (updates_scalars_from s1 x xs eq_refl) as (s' & E & Hsum & Hcnt & Havg).
  exists s'. split; [exact E|].
  assert (Hc : cnt s' = Z.of_nat (length (x :: xs))).
  { rewrite Hcnt. simpl cnt. simpl length. lia. }
  split; [exact Hc|].
  split; [rewrite Hsum; reflexivity|].
  rewrite INR_IZR_INZ, <- Hc.
  destruct xs as [|y xs].
  - simpl in E. injection E as <-. simpl. do 2 f_equal.
    unfold rsum. simpl. lra.
  - rewrite Havg by congruence. reflexivity.
Qed.

Lemma add_tuples_length (a b : list R) :
  length a = length b -> length (add_tuples a b) = length a.
Proof. intros H. unfold add_tuples. rewrite length_zip_with. lia. Qed.

Lemma add_tuples_nth (a b : list R) (i : nat) :
  length a = length b ->
  nth i (add_tuples a b) 0%R = (nth i a 0 + nth i b 0)%R.
Proof.
  revert b i. induction a as [|x a IH]; intros [|y b] i H; simpl in H; try lia.
  - destruct i; simpl; lra.
  - destruct i as [|i]; simpl; [lra|]. apply IH. lia.
Qed.

Lemma updates_tuples_from (n : nat) (s : t) (acc : list R) (ts : list (list R)) :
  sum s = Some (LTuple acc) -> length acc = n ->
  Forall (fun tu => length tu = n) ts ->
  exists s' l, updates s (map LTuple ts) = Ok s'
    /\ sum s' = Some (LTuple l) /\ length l = n
    /\ (forall i, nth i l 0 = nth i acc 0 + rsum (map (fun tu => nth i tu 0%R) ts))%R
    /\ cnt s' = (cnt s + Z.of_nat (length ts))%Z
    /\ (ts <> [] -> avg s' = Some (LTuple (map (fun v => v / IZR (cnt s'))%R l))).
Proof.
  revert s acc. induction ts as [|tu ts IH]; intros s acc Hs Hlen Hall.
  - exists s, acc. simpl. repeat split; auto.
    + intros i. unfold rsum. simpl. lra.
    + lia.
    + congruence.
  - apply Forall_cons in Hall as [Htu Hall].
    simpl map. simpl updates. rewrite Hs.
    unfold mbind, result_bind.
    set (s1 := {| sum := Some (LTuple (add_tuples acc tu));
                  avg := Some (LTuple (map (fun loss => loss / IZR (cnt s + 1))%R
                                         (add_tuples acc tu)));
                  cnt := cnt s + 1 |}).
    assert (Hl1 : length (add_tuples acc tu) = n)
      by (rewrite add_tuples_length; lia).
    destruct (IH s1 (add_tuples acc tu) eq_refl Hl1 Hall)
      as (s' & l & E & Hsum & Hl & Hnth & Hcnt & Havg).
    exists s', l. split; [exact E|]. split; [exact Hsum|]. split; [exact Hl|].
    split.
    { intros i. rewrite Hnth, add_tuples_nth by lia.
      unfold rsum. simpl. lra. }
    split; [rewrite Hcnt; simpl cnt; simpl length; lia|].
    intros _. destruct ts as [|tu' ts].
    + simpl in E. injection E as <-. simpl in Hsum. injection Hsum as <-.
      reflexivity.
    + apply Havg. congruence.
Qed.

(** X17 — [LossContainer.update] over a run of loss tuples of one length,
    from a new or reset container: it never raises, [sum] is a tuple of
    that length whose [i]-th entry is the sum of the [i]-th losses, and
    [avg] is [sum] divided entry by entry by the number of updates. *)
Theorem loss_container_tuple_mean (n : nat) (tu : list R) (ts : list (list R)) :
  Forall (fun tu' => length tu' = n) (tu :: ts) ->
  exists s l, updates init (map LTuple (tu :: ts)) = Ok s
    /\ cnt s = Z.of_nat (length (tu :: ts))
    /\ sum s = Some (LTuple l) /\ length l = n
    /\ (forall i, nth i l 0 = rsum (map (fun tu' => nth i tu' 0) (tu :: ts)))%R
    /\ avg s = Some (LTuple (map (fun v => v / INR (length (tu :: ts)))%R l)).
Proof.
  intros Hall. apply Forall_cons in Hall as [Htu Hall].
  pose proof (INR_IZR_INZ (length (tu :: ts))) as HN.
  set (N := INR (length (tu :: ts))) in *.
  set (K := Z.of_nat (length (tu :: ts))) in *.
  simpl map. simpl updates. simpl sum.
  unfold mbind, result_bind.
  set (s1 := {| sum := Some (LTuple tu);
                avg := Some (LTuple (map (fun loss => loss / IZR (cnt init + 1))%R tu));
                cnt := cnt init + 1 |}).
  destruct (updates_tuples_from n s1 tu ts eq_refl Htu Hall)
    as (s' & l & E & Hsum & Hl & Hnth & Hcnt & Havg).
  exists s', l. split; [exact E|].
  assert (Hc : cnt s' = K).
  { rewrite Hcnt. subst K. simpl cnt. simpl length. lia. }
  split; [exact Hc|]. split; [exact Hsum|]. split; [exact Hl|].
  split.
  { intros i. rewrite Hnth. unfold rsum. simpl. reflexivity. }
  rewrite HN, <- Hc.
  destruct ts as [|tu' ts].
  - simpl in E. injection E as <-. simpl in Hsum. injection Hsum as <-.
    reflexivity.
  - apply Havg. congruence.
Qed.

Lemma loss_container_tuple_mean_witness :
  exists s l, updates init (map LTuple ([1; 2] :: [[3; 4]]))%R = Ok s
    /\ cnt s = Z.of_nat (length ([1; 2] :: [[3; 4]]))%R
    /\ sum s = Some (LTuple l) /\ length l = 2
    /\ (forall i, nth i l 0
                  = rsum (map (fun tu' => nth i tu' 0) ([1; 2] :: [[3; 4]])))%R
    /\ avg s = Some (LTuple (map (fun v => v / INR (length ([1; 2] :: [[3; 4]])))%R l)).
Proof.
  apply (loss_container_tuple_mean 2 [1; 2]%R [[3; 4]]%R).
  repeat constructor.
Defined.

Lemma updates_raise_after_scalar (s : t) (x : R) (ls : list losses) :
  sum s = Some (LScalar x) ->
  (exists l, In (LTuple l) ls) -> updates s ls = Raise TypeError.
Proof.
  revert s x. induction ls as [|l0 ls IH]; intros s x Hs [l Hin].
  - destruct Hin.
  - simpl. destruct l0 as [l0|x0]; unfold update; rewrite Hs; [reflexivity|].
    unfold mbind, result_bind.
    destruct Hin as [Hin|Hin]; [discriminate|].
    eapply IH; [reflexivity | eauto].
Qed.

Lemma updates_raise_after_tuple (s : t) (a : list R) (ls : list losses) :
  sum s = Some (LTuple a) ->
  (exists x, In (LScalar x) ls) -> updates s ls = Raise TypeError.
Proof.
  revert s a. induction ls as [|l0 ls IH]; intros s a Hs [x Hin].
  - destruct Hin.
  - simpl. destruct l0 as [l0|x0]; unfold update; rewrite Hs; [|reflexivity].
    unfold mbind, result_bind.
    destruct Hin as [Hin|Hin]; [discriminate|].
    eapply IH; [reflexivity | eauto].
Qed.

(** X18 — [LossContainer.update] fed both a tuple of losses and a single
    loss between two resets raises [TypeError], whatever the order: the
    stored sum of one kind cannot be added to nor zipped with the other. *)
Theorem loss_container_mixed_kinds (ls : list losses) :
  (exists l, In (LTuple l) ls) -> (exists x, In (LScalar x) ls) ->
  updates init ls = Raise TypeError.
Proof.
  intros Ht Hx. destruct ls as [|l0 ls]; [destruct Ht as [? []]|].
  simpl. destruct l0 as [l0|x0]; unfold update; simpl sum;
    unfold mbind, result_bind.
  - eapply updates_raise_after_tuple; [reflexivity|].
    destruct Hx as [x [Hx|Hx]]; [discriminate | eauto].
  - eapply updates_raise_after_scalar; [reflexivity|].
    destruct Ht as [l [Ht|Ht]]; [discriminate | eauto].
Qed.

Lemma loss_container_mixed_kinds_witness :
  updates init [LScalar 1; LTuple [1; 2]%R] = Raise TypeError.
Proof.
  apply (loss_container_mixed_kinds [LScalar 1; LTuple [1; 2]%R]).
  - exists [1; 2]%R. right. left. reflexivity.
  - exists 1%R. left. reflexivity.
Defined.

End LossContainerExtra.

Module DataProviderExtra.
Import DataProvider.

Section Circulating.
Context {A : Type} (dl : dataloader A) (n : nat).
Hypothesis Hn : 0 < n.
Hypothesis Hlen : forall p, length (dl p) = n.

Lemma next_at_position (s : t A) (p r : nat) :
  at_position dl n s p r ->
  exists a, (next dl s).1 = Batch a
    /\ ((r < n /\ dl p !! r = Some a /\ at_position dl n (next dl s).2 p (S r))
        \/ (r = n /\ dl (S p) !! 0 = Some a /\ at_position dl n (next dl s).2 (S p) 1)).
Proof.
  intros (Hp & Hi & Hr). unfold next. rewrite Hi, Hp.
  destruct (decide (r < n)) as [Hlt|Hge].
  - destruct (lookup_lt_is_Some_2 (dl p) r) as [a Ha]; [rewrite Hlen; lia|].
    rewrite (drop_S _ _ _ Ha). exists a. split; [reflexivity|].
    left. repeat split; auto; simpl; lia.
  - assert (r = n) by lia. subst r.
    rewrite drop_ge by (rewrite Hlen; lia).
    destruct (dl (S p)) as [|a rest] eqn:E.
    + specialize (Hlen (S p)). rewrite E in Hlen. simpl in Hlen. lia.
    + exists a. split; [reflexivity|].
      right. repeat split; auto; simpl; try lia; try (rewrite E; reflexivity).
Qed.

Lemma calls_snoc (k : nat) (s : t A) :
  (calls dl (S k) s).2 = (next dl (calls dl k s).2).2.
Proof.
  revert s. induction k as [|k IH]; intros s; [reflexivity|].
  change (calls dl (S (S k)) s).2 with (calls dl (S k) (next dl s).2).2.
  rewrite IH. reflexivity.
Qed.

Lemma calls_position (k : nat) :
  exists p r, at_position dl n (calls dl k (init dl)).2 p r /\ p * n + r = k
              /\ (r = 0 -> k = 0).
Proof.
  induction k as [|k (p & r & Hat & Hk & Hz)].
  - exists 0, 0. repeat split; simpl; lia.
  - rewrite calls_snoc.
    destruct (next_at_position _ p r Hat) as (a & _ & [(Hlt & _ & Hat')|(-> & _ & Hat')]).
    + exists p, (S r). split; [exact Hat'|]. lia.
    + exists (S p), 1. split; [exact Hat'|]. lia.
Qed.

End Circulating.

(** X19 — [DataProvider.next] over a loader whose every pass has the same
    positive number [n] of batches: the call number [k] (from 0) never
    raises and returns batch [k mod n] of pass [k / n], so the provider
    runs through the loader pass after pass. *)
Theorem data_provider_circulates {A : Type} (dl : dataloader A) (n k : nat) :
  0 < n -> (forall p, length (dl p) = n) ->
  exists a, dl (k / n) !! (k mod n) = Some a
    /\ (next dl (calls dl k (init dl)).2).1 = Batch a.
Proof.
  intros Hn Hlen.
  destruct (calls_position dl n Hn Hlen k) as (p & r & Hat & Hk & Hz).
  destruct (next_at_position dl n Hn Hlen _ p r Hat)
    as (a & Hb & [(Hlt & Ha & _)|(-> & Ha & _)]).
  - exists a. split; [|exact Hb].
    assert (k / n = p /\ k mod n = r) as [-> ->]; [|exact Ha].
    subst k. split.
    + rewrite Nat.div_add_l, Nat.div_small by lia. lia.
    + rewrite Nat.add_comm, Nat.Div0.mod_add. apply Nat.mod_small. lia.
  - exists a. split; [|exact Hb].
    assert (k / n = S p /\ k mod n = 0) as [-> ->]; [|exact Ha].
    replace k with (S p * n) by lia. split.
    + apply Nat.div_mul. lia.
    + apply Nat.Div0.mod_mul.
Qed.

Lemma data_provider_circulates_witness :
  exists a, (fun p => [p; p + 10]) (3 / 2) !! (3 mod 2) = Some a
    /\ (next (fun p => [p; p + 10])
          (calls (fun p => [p; p + 10]) 3 (init (fun p => [p; p + 10]))).2).1
       = Batch a.
Proof.
  apply (data_provider_circulates (fun p => [p; p + 10]) 2 3).
  - lia.
  - reflexivity.
Defined.

End DataProviderExtra.


(** ** The [export] methods and the way back through [fixed_arch] *)

Module ArchExportExtra.
Import Tensor Choicer ArchExport PyFacts.

Lemma argmax_from_spec (a : list R) (best_i : nat) (best : R) (i : nat) :
  (argmax_from best_i best i a = best_i /\ Forall (fun x => x <= best)%R a)
  \/ exists k x,
       argmax_from best_i best i a = i + k /\ a !! k = Some x /\ (best < x)%R
       /\ Forall (fun y => y <= x)%R a
       /\ forall j y, j < k -> a !! j = Some y -> (y < x)%R.
Proof.
  revert best_i best i. induction a as [|x a IH]; intros best_i best i.
  - left. split; [reflexivity | constructor].
  - simpl. destruct (Rgt_dec x best) as [Hgt|Hle].
    + right. destruct (IH i x (S i)) as [[E Hall]|(k & x' & E & Hk & Hlt & Hall & Hfirst)].
      * exists 0, x. rewrite E.
        split; [lia|]. split; [reflexivity|]. split; [lra|].
        split; [constructor; [lra | exact Hall]|].
        intros j y Hj. lia.
      * exists (S k), x'. rewrite E.
        split; [lia|]. split; [exact Hk|]. split; [lra|].
        split; [constructor; [lra | exact Hall]|].
        intros [|j] y Hj Hy; simpl in Hy.
        -- injection Hy as <-. exact Hlt.
        -- apply (Hfirst j y); [lia | exact Hy].
    + destruct (IH best_i best (S i)) as [[E Hall]|(k & x' & E & Hk & Hlt & Hall & Hfirst)].
      * left. split; [exact E|]. constructor; [lra | exact Hall].
      * right. exists (S k), x'. rewrite E.
        split; [lia|]. split; [exact Hk|]. split; [lra|].
        split; [constructor; [lra | exact Hall]|].
        intros [|j] y Hj Hy; simpl in Hy.
        -- injection Hy as <-. lra.
        -- apply (Hfirst j y); [lia | exact Hy].
Qed.

Lemma argmax_spec (a : list R) :
  a <> [] ->
  exists i v, argmax a = Ok i /\ a !! i = Some v
    /\ (forall j y, a !! j = Some y -> (y <= v)%R)
    /\ (forall j y, j < i -> a !! j = Some y -> (y < v)%R).
Proof.
  intros Hne. destruct a as [|x a]; [congruence|]. unfold argmax.
  destruct (argmax_from_spec a 0 x 1) as [[E Hall]|(k & x' & E & Hk & Hlt & Hall & Hfirst)].
  - exists 0, x. rewrite E.
    split; [reflexivity|]. split; [reflexivity|]. split.
    + intros [|j] y Hy; simpl in Hy.
      * injection Hy as <-. lra.
      * rewrite Forall_forall in Hall. apply Hall.
        eapply list_elem_of_lookup_2. exact Hy.
    + intros j y Hj. lia.
  - exists (S k), x'. rewrite E.
    split; [reflexivity|]. split; [exact Hk|]. split.
    + intros [|j] y Hy; simpl in Hy.
      * injection Hy as <-. lra.
      * rewrite Forall_forall in Hall. apply Hall.
        eapply list_elem_of_lookup_2. exact Hy.
    + intros [|j] y Hj Hy; simpl in Hy.
      * injection Hy as <-. exact Hlt.
      * apply (Hfirst j y); [lia | exact Hy].
Qed.

(** X20 — [DartsLayerChoice.export], for a wrapper with at least one
    candidate and one [alpha] entry per candidate: it returns the name of
    the candidate at the first index where [alpha] is largest. *)
Theorem layer_choice_export_first_maximum (m : DartsLayerChoice.t) :
  DartsLayerChoice.op_choices m <> [] ->
  length (DartsLayerChoice.alpha m) = length (DartsLayerChoice.op_choices m) ->
  exists i op v,
    layer_choice_export m = Ok op.1
    /\ DartsLayerChoice.op_choices m !! i = Some op
    /\ DartsLayerChoice.alpha m !! i = Some v
    /\ (forall j y, DartsLayerChoice.alpha m !! j = Some y -> (y <= v)%R)
    /\ (forall j y, j < i -> DartsLayerChoice.alpha m !! j = Some y -> (y < v)%R).
Proof.
  intros Hne Hlen.
  destruct (argmax_spec (DartsLayerChoice.alpha m)) as (i & v & E & Hi & Hmax & Hfirst).
  { intros Ha. rewrite Ha in Hlen. destruct (DartsLayerChoice.op_choices m);
      [congruence | discriminate]. }
  destruct (lookup_lt_is_Some_2 (DartsLayerChoice.op_choices m) i) as [op Hop].
  { rewrite <- Hlen. eapply lookup_lt_Some. exact Hi. }
  exists i, op, v. repeat split; auto.
  unfold layer_choice_export. rewrite E. unfold mbind, result_bind, name_at.
  rewrite list_lookup_fmap, Hop. reflexivity.
Qed.

Lemma layer_choice_export_first_maximum_witness :
  exists i op v,
    layer_choice_export
      (DartsLayerChoice.mk "l" [("a"%string, fun x => x); ("b"%string, fun x => x)]
         [1; 2]%R 0 false) = Ok op.1
    /\ [("a"%string, fun x : list (list R) => x); ("b"%string, fun x => x)] !! i = Some op
    /\ [1; 2]%R !! i = Some v
    /\ (forall j y, [1; 2]%R !! j = Some y -> (y <= v)%R)
    /\ (forall j y, j < i -> [1; 2]%R !! j = Some y -> (y < v)%R).
Proof.
  apply (layer_choice_export_first_maximum
           (DartsLayerChoice.mk "l" [("a"%string, fun x => x); ("b"%string, fun x => x)]
              [1; 2]%R 0 false)).
  - discriminate.
  - reflexivity.
Defined.

Lemma rsum_exp_pos (a : list R) : a <> [] -> (0 < rsum (map exp a))%R.
Proof.
  intros Hne. destruct a as [|x a]; [congruence|]. clear Hne.
  unfold rsum. simpl.
  assert (H : (0 <= fold_right Rplus 0 (map exp a))%R).
  { induction a as [|y a IH]; simpl; [lra|]. pose proof (exp_pos y). lra. }
  pose proof (exp_pos x). lra.
Qed.

Lemma softmax_nth (a : list R) (i : nat) (v : R) :
  a !! i = Some v -> nth i (softmax a) 0%R = (exp v / rsum (map exp a))%R.
Proof.
  intros Hi. unfold softmax.
  apply nth_lookup_Some with (d := 0%R).
  rewrite list_lookup_fmap, Hi. reflexivity.
Qed.

Lemma softmax_nth_le (a : list R) (i j : nat) (v : R) :
  a !! i = Some v -> (forall k y, a !! k = Some y -> (y <= v)%R) ->
  (nth j (softmax a) 0 <= nth i (softmax a) 0)%R.
Proof.
  intros Hi Hmax.
  assert (Hpos : (0 < rsum (map exp a))%R).
  { apply rsum_exp_pos. intros ->. discriminate. }
  rewrite (softmax_nth a i v Hi).
  assert (Hv : (0 < exp v / rsum (map exp a))%R).
  { apply Rdiv_lt_0_compat; [apply exp_pos | exact Hpos]. }
  destruct (a !! j) as [y|] eqn:Hj.
  - rewrite (softmax_nth a j y Hj).
    apply Rmult_le_compat_r; [left; apply Rinv_0_lt_compat; exact Hpos|].
    destruct (Hmax j y Hj) as [Hlt| ->]; [left; apply exp_increasing; exact Hlt | lra].
  - rewrite nth_overflow; [lra|].
    unfold softmax. rewrite length_map. apply lookup_ge_None. exact Hj.
Qed.

(** X21 — The candidate [DartsLayerChoice.export] names is one that
    [forward] weighs most: no entry of [softmax(alpha)] exceeds the entry
    at the exported candidate's index. *)
Theorem layer_choice_export_largest_weight (m : DartsLayerChoice.t) :
  DartsLayerChoice.op_choices m <> [] ->
  length (DartsLayerChoice.alpha m) = length (DartsLayerChoice.op_choices m) ->
  exists i op,
    layer_choice_export m = Ok op.1
    /\ DartsLayerChoice.op_choices m !! i = Some op
    /\ forall j, (nth j (softmax (DartsLayerChoice.alpha m)) 0
                  <= nth i (softmax (DartsLayerChoice.alpha m)) 0)%R.
Proof.
  intros Hne Hlen.
  destruct (argmax_spec (DartsLayerChoice.alpha m)) as (i & v & E & Hi & Hmax & _).
  { intros Ha. rewrite Ha in Hlen. destruct (DartsLayerChoice.op_choices m);
      [congruence | discriminate]. }
  destruct (lookup_lt_is_Some_2 (DartsLayerChoice.op_choices m) i) as [op Hop].
  { rewrite <- Hlen. eapply lookup_lt_Some. exact Hi. }
  exists i, op. split; [|split; [exact Hop|]].
  - unfold layer_choice_export. rewrite E. unfold mbind, result_bind, name_at.
    rewrite list_lookup_fmap, Hop. reflexivity.
  - intros j. eapply softmax_nth_le; eauto.
Qed.

Lemma layer_choice_export_largest_weight_witness :
  exists i op,
    layer_choice_export
      (DartsLayerChoice.mk "l" [("a"%string, fun x => x); ("b"%string, fun x => x)]
         [1; 2]%R 0 false) = Ok op.1
    /\ [("a"%string, fun x : list (list R) => x); ("b"%string, fun x => x)] !! i = Some op
    /\ forall j, (nth j (softmax [1; 2]%R) 0 <= nth i (softmax [1; 2]%R) 0)%R.
Proof.
  apply (layer_choice_export_largest_weight
           (DartsLayerChoice.mk "l" [("a"%string, fun x => x); ("b"%string, fun x => x)]
              [1; 2]%R 0 false)).
  - discriminate.
  - reflexivity.
Defined.

Lemma insert_descending_perm (a : list R) (i : nat) (idx : list nat) :
  Permutation (insert_descending a i idx) (i :: idx).
Proof.
  induction idx as [|j idx IH]; simpl; [reflexivity|].
  destruct (Rlt_dec (nth j a 0%R) (nth i a 0%R)) as [Hlt|Hge]; [reflexivity|].
  rewrite IH. apply perm_swap.
Qed.

Lemma insert_descending_sorted (a : list R) (i : nat) (idx : list nat) :
  descending a idx -> descending a (insert_descending a i idx).
Proof.
  induction idx as [|j idx IH]; intros Hd; simpl; [tauto|].
  destruct (Rlt_dec (nth j a 0%R) (nth i a 0%R)) as [Hlt|Hge].
  - split; [lra | exact Hd].
  - destruct Hd as [Hj Hd]. split; [|apply IH; exact Hd].
    destruct idx as [|j' idx]; simpl; [lra|].
    destruct (Rlt_dec (nth j' a 0%R) (nth i a 0%R)); [lra | exact Hj].
Qed.

Lemma fold_insert_descending (a : list R) (ks acc : list nat) :
  descending a acc ->
  Permutation (fold_left (fun idx i => insert_descending a i idx) ks acc) (ks ++ acc)
  /\ descending a (fold_left (fun idx i => insert_descending a i idx) ks acc).
Proof.
  revert acc. induction ks as [|i ks IH]; intros acc Hd; simpl; [split; auto|].
  destruct (IH (insert_descending a i acc)) as [Hp Hs].
  { apply insert_descending_sorted. exact Hd. }
  split; [|exact Hs].
  rewrite Hp, insert_descending_perm. symmetry. apply Permutation_middle.
Qed.

Lemma names_at_in_range (names : list string) (idx : list nat) :
  Forall (fun i => i < length names) idx ->
  names_at names idx = Ok (map (fun i => nth i names ""%string) idx).
Proof.
  induction 1 as [|i idx Hi _ IH]; simpl; [reflexivity|].
  unfold name_at. destruct (lookup_lt_is_Some_2 names i Hi) as [n Hn].
  rewrite Hn. unfold mbind, result_bind. rewrite IH.
  rewrite (nth_lookup_Some _ _ ""%string _ Hn). reflexivity.
Qed.

(** X22 — [DartsExpertChoice.export], for a wrapper with one [alpha] entry
    per expert: it returns every expert name once, in an order along which
    [alpha] does not increase. *)
Theorem expert_choice_export_sorted (m : DartsExpertChoice.t) :
  length (DartsExpertChoice.alpha m) = length (DartsExpertChoice.op_choices m) ->
  exists idx,
    expert_choice_export m
    = Ok (map (fun i => nth i (map fst (DartsExpertChoice.op_choices m)) ""%string) idx)
    /\ Permutation idx (seq 0 (length (DartsExpertChoice.op_choices m)))
    /\ descending (DartsExpertChoice.alpha m) idx.
Proof.
  intros Hlen. unfold expert_choice_export, sort_descending.
  destruct (fold_insert_descending (DartsExpertChoice.alpha m)
              (seq 0 (length (DartsExpertChoice.alpha m))) []) as [Hp Hs];
    [exact I|].
  rewrite app_nil_r, Hlen in Hp. rewrite Hlen in Hs.
  set (idx := fold_left _ _ _) in *. rewrite Hlen. fold idx.
  exists idx. split; [|split; [exact Hp | exact Hs]].
  apply names_at_in_range. rewrite length_map.
  apply Forall_forall. intros i Hi.
  rewrite Hp in Hi. apply elem_of_seq in Hi. lia.
Qed.

Lemma expert_choice_export_sorted_witness :
  exists idx,
    expert_choice_export
      (DartsExpertChoice.mk 1 "e" [("a"%string, fun x => x); ("b"%string, fun x => x)]
         [1; 2]%R)
    = Ok (map (fun i => nth i ["a"; "b"]%string ""%string) idx)
    /\ Permutation idx (seq 0 2)
    /\ descending [1; 2]%R idx.
Proof.
  apply (expert_choice_export_sorted
           (DartsExpertChoice.mk 1 "e" [("a"%string, fun x => x); ("b"%string, fun x => x)]
              [1; 2]%R)).
  reflexivity.
Defined.

Lemma first_labelled_cons {M} (name : string) (module : M)
  (rest : list (string * M)) (l : string) :
  first_labelled ((name, module) :: rest) l
  = if String.eqb name l then Some module else first_labelled rest l.
Proof.
  unfold first_labelled. simpl. destruct (String.eqb name l); reflexivity.
Qed.

Lemma export_loop_spec {M} (f : M -> result json) (ms : list (string * M))
  (r0 : dict json) :
  Forall (fun lm => is_ok (f lm.2) = true) ms ->
  exists r, export_loop f ms r0 = Ok r
    /\ (NoDup (dict_keys r0) -> NoDup (dict_keys r))
    /\ forall l, dict_get r l
                 = match dict_get r0 l with
                   | Some v => Some v
                   | None => match first_labelled ms l with
                             | Some m => to_option (f m)
                             | None => None
                             end
                   end.
Proof.
  revert r0. induction ms as [|[name module] ms IH]; intros r0 Hok.
  - exists r0. split; [reflexivity|]. split; [auto|].
    intros l. destruct (dict_get r0 l); reflexivity.
  - apply Forall_cons in Hok as [Hm Hok]. simpl in Hm. simpl export_loop.
    unfold dict_mem. destruct (dict_get r0 name) as [v0|] eqn:E0.
    + destruct (IH r0 Hok) as (r & E & Hnd & Hget).
      exists r. split; [exact E|]. split; [exact Hnd|].
      intros l. rewrite Hget, first_labelled_cons.
      destruct (dict_get r0 l) eqn:El; [reflexivity|].
      destruct (String.eqb_spec name l) as [->|Hne]; [congruence | reflexivity].
    + destruct (f module) as [v|e] eqn:Ef; [|discriminate].
      unfold mbind, result_bind.
      destruct (IH (dict_set r0 name v) Hok) as (r & E & Hnd & Hget).
      exists r. split; [exact E|].
      split; [intros H0; apply Hnd, NoDup_dict_set; exact H0|].
      intros l. rewrite Hget, first_labelled_cons.
      destruct (String.eqb_spec name l) as [->|Hne].
      * rewrite dict_get_set_eq, E0, Ef. reflexivity.
      * rewrite dict_get_set_ne by exact Hne. reflexivity.
Qed.

(** X23 — [DartsTrainer.export], when the [export] of every wrapper
    succeeds: the result has one entry per label; a label of
    [nas_modules] maps to what the first operation-level wrapper with that
    label exports, any other label of [expert_modules] to what the first
    expert-level wrapper with it exports. *)
Theorem trainer_export_first_wins
  (nas_modules : list (string * DartsLayerChoice.t))
  (expert_modules : list (string * DartsExpertChoice.t)) :
  Forall (fun lm => is_ok (layer_choice_export lm.2) = true) nas_modules ->
  Forall (fun lm => is_ok (expert_choice_export lm.2) = true) expert_modules ->
  exists r,
    export nas_modules expert_modules = Ok r
    /\ NoDup (dict_keys r)
    /\ forall l,
         dict_get r l
         = match first_labelled nas_modules l with
           | Some m => JStr <$> to_option (layer_choice_export m)
           | None =>
               match first_labelled expert_modules l with
               | Some m => JList <$> to_option (expert_choice_export m)
               | None => None
               end
           end.
Proof.
  intros Hnas Hexp. unfold export.
  destruct (export_loop_spec (fun m => v ← layer_choice_export m; Ok (JStr v))
              nas_modules []) as (r1 & E1 & Hnd1 & Hget1).
  { eapply Forall_impl; [exact Hnas|]. intros [l m] H. simpl in *.
    destruct (layer_choice_export m); [reflexivity | discriminate]. }
  rewrite E1. unfold mbind at 1, result_bind at 1.
  destruct (export_loop_spec (fun m => v ← expert_choice_export m; Ok (JList v))
              expert_modules r1) as (r & E & Hnd & Hget).
  { eapply Forall_impl; [exact Hexp|]. intros [l m] H. simpl in *.
    destruct (expert_choice_export m); [reflexivity | discriminate]. }
  exists r. split; [exact E|].
  split; [apply Hnd, Hnd1; constructor|].
  intros l. rewrite Hget, Hget1. simpl dict_get.
  destruct (first_labelled nas_modules l) as [m|] eqn:Em.
  - assert (Hm : is_ok (layer_choice_export m) = true).
    { unfold first_labelled in Em.
      destruct (List.find _ nas_modules) as [[l' m']|] eqn:Ef; [|discriminate].
      injection Em as ->. apply find_some in Ef as [Hin _].
      rewrite Forall_forall in Hnas. apply (Hnas (l', m)).
      apply list_elem_of_In. exact Hin. }
    destruct (layer_choice_export m); [reflexivity | discriminate].
  - destruct (first_labelled expert_modules l) as [m|]; [|reflexivity].
    destruct (expert_choice_export m); reflexivity.
Qed.

Lemma trainer_export_first_wins_witness :
  exists r,
    export [("l"%string, DartsLayerChoice.mk "l" [("a"%string, fun x => x)] [3%R] 0 false);
            ("l"%string, DartsLayerChoice.mk "l" [("b"%string, fun x => x)] [4%R] 0 false)]
           [("e"%string, DartsExpertChoice.mk 1 "e" [("x"%string, fun x => x)] [5%R])]
    = Ok r
    /\ NoDup (dict_keys r)
    /\ dict_get r "l" = Some (JStr "a")
    /\ dict_get r "e" = Some (JList ["x"%string]).
Proof.
  destruct (trainer_export_first_wins
    [("l"%string, DartsLayerChoice.mk "l" [("a"%string, fun x => x)] [3%R] 0 false);
     ("l"%string, DartsLayerChoice.mk "l" [("b"%string, fun x => x)] [4%R] 0 false)]
    [("e"%string, DartsExpertChoice.mk 1 "e" [("x"%string, fun x => x)] [5%R])])
    as (r & E & Hnd & Hget).
  - repeat constructor.
  - repeat constructor.
  - exists r. split; [exact E|]. split; [exact Hnd|].
    split; rewrite Hget; reflexivity.
Defined.

Lemma dict_get_lookup {V} (d : dict V) (i : nat) (k : string) (v : V) :
  NoDup (dict_keys d) -> d !! i = Some (k, v) -> dict_get d k = Some v.
Proof.
  revert i. induction d as [|[k' v'] d IH]; intros i Hnd Hi; [discriminate|].
  simpl in Hnd. apply NoDup_cons in Hnd as [Hk' Hnd].
  destruct i as [|i]; simpl in Hi.
  - injection Hi as -> ->. simpl. rewrite String.eqb_refl. reflexivity.
  - simpl. destruct (String.eqb_spec k' k) as [->|Hne]; [|eapply IH; eauto].
    exfalso. apply Hk'. unfold dict_keys.
    apply list_elem_of_fmap. exists (k, v). split; [reflexivity|].
    eapply list_elem_of_lookup_2. exact Hi.
Qed.

Lemma export_nas_entry
  (nas_modules : list (string * DartsLayerChoice.t))
  (expert_modules : list (string * DartsExpertChoice.t)) :
  Forall (fun lm => is_ok (layer_choice_export lm.2) = true) nas_modules ->
  Forall (fun lm => is_ok (expert_choice_export lm.2) = true) expert_modules ->
  exists a,
    export nas_modules expert_modules = Ok a
    /\ forall l w s, first_labelled nas_modules l = Some w ->
                     layer_choice_export w = Ok s ->
                     dict_get a l = Some (JStr s).
Proof.
  intros Hnas Hexp. unfold export.
  destruct (export_loop_spec (fun m => v ← layer_choice_export m; Ok (JStr v))
              nas_modules []) as (r1 & E1 & _ & Hget1).
  { eapply Forall_impl; [exact Hnas|]. intros [l m] H. simpl in *.
    destruct (layer_choice_export m); [reflexivity | discriminate]. }
  rewrite E1. unfold mbind at 1, result_bind at 1.
  destruct (export_loop_spec (fun m => v ← expert_choice_export m; Ok (JList v))
              expert_modules r1) as (r & E & _ & Hget).
  { eapply Forall_impl; [exact Hexp|]. intros [l m] H. simpl in *.
    destruct (expert_choice_export m); [reflexivity | discriminate]. }
  exists r. split; [exact E|].
  intros l w s Hw Hs. rewrite Hget, Hget1. simpl dict_get.
  rewrite Hw, Hs. reflexivity.
Qed.

(** X24 — From search to retraining.  Let [DartsTrainer.export] succeed and
    let the first operation-level wrapper with label [label] have the
    candidate names of the dictionary [d], none of whose candidates is
    itself a [LayerChoice].  Then, inside [with fixed_arch(...)] on the
    exported architecture, [LayerChoice(d, label)] returns the candidate of
    [d] at an index where that wrapper's [alpha] is largest. *)
Theorem exported_choice_is_rebuilt (int_of_string : string -> option Z)
  (st : list (string * list (list (string * json))))
  (nas_modules : list (string * DartsLayerChoice.t))
  (expert_modules : list (string * DartsExpertChoice.t))
  (label : string) (w : DartsLayerChoice.t) (d : dict module)
  (prior : option (list R)) :
  Forall (fun lm => is_ok (layer_choice_export lm.2) = true) nas_modules ->
  Forall (fun lm => is_ok (expert_choice_export lm.2) = true) expert_modules ->
  first_labelled nas_modules label = Some w ->
  map fst (DartsLayerChoice.op_choices w) = dict_keys d ->
  NoDup (dict_keys d) ->
  Forall (fun km => is_layer_choice km.2 = false) d ->
  exists a i s m v,
    export nas_modules expert_modules = Ok a
    /\ d !! i = Some (s, m)
    /\ DartsLayerChoice.alpha w !! i = Some v
    /\ (forall j y, DartsLayerChoice.alpha w !! j = Some y -> (y <= v)%R)
    /\ construct int_of_string (fixed_arch st a) (CDict d) label prior
       = Ok (Selected m).
Proof.
  intros Hnas Hexp Hw Hnames Hnd Hplain.
  destruct (export_nas_entry nas_modules expert_modules Hnas Hexp)
    as (a & E & Hget).
  specialize (Hget label w).
  assert (Hok : is_ok (layer_choice_export w) = true).
  { unfold first_labelled in Hw.
    destruct (List.find _ nas_modules) as [[l' m']|] eqn:Ef; [|discriminate].
    injection Hw as ->. apply find_some in Ef as [Hin _].
    rewrite Forall_forall in Hnas. apply (Hnas (l', w)).
    apply list_elem_of_In. exact Hin. }
  destruct (layer_choice_export w) as [s|] eqn:Es; [|discriminate].
  specialize (Hget s Hw eq_refl).
  unfold layer_choice_export in Es.
  destruct (argmax (DartsLayerChoice.alpha w)) as [i|] eqn:Ei; [|discriminate].
  unfold mbind, result_bind, name_at in Es. rewrite Hnames in Es.
  destruct (dict_keys d !! i) as [s'|] eqn:Ek; [|discriminate].
  injection Es as ->.
  unfold dict_keys in Ek. rewrite list_lookup_fmap in Ek.
  apply fmap_Some in Ek as ([s0 m] & Ed & Hs0). simpl in Hs0. subst s0.
  destruct (argmax_spec (DartsLayerChoice.alpha w)) as (i' & v & Ei' & Hv & Hmax & _).
  { intros Ha. rewrite Ha in Ei. discriminate. }
  rewrite Ei in Ei'. injection Ei' as <-.
  exists a, i, s, m, v. split; [exact E|]. split; [exact Ed|].
  split; [exact Hv|]. split; [exact Hmax|].
  assert (Hm : is_layer_choice m = false).
  { rewrite Forall_forall in Hplain. apply (Hplain (s, m)).
    eapply list_elem_of_lookup_2. exact Ed. }
  unfold construct, __new__.
  rewrite (ChoicerFacts.create_fixed_module_bound int_of_string
             (fixed_arch st a) a d label s m).
  - unfold mbind, result_bind. rewrite Hm. reflexivity.
  - apply ChoicerFacts.top_push.
  - exact Hget.
  - eapply dict_get_lookup; eauto.
Qed.

Lemma exported_choice_is_rebuilt_witness :
  exists a i s m v,
    export [("l"%string, DartsLayerChoice.mk "l" [("a"%string, fun x => x)] [3%R] 0 false)] []
    = Ok a
    /\ [("a"%string, mk_module false [7] (fun t => t))] !! i = Some (s, m)
    /\ [3%R] !! i = Some v
    /\ (forall j y, [3%R] !! j = Some y -> (y <= v)%R)
    /\ construct (fun _ => None) (fixed_arch [] a)
         (CDict [("a"%string, mk_module false [7] (fun t => t))]) "l" None
       = Ok (Selected m).
Proof.
  apply (exported_choice_is_rebuilt (fun _ => None) []
           [("l"%string, DartsLayerChoice.mk "l" [("a"%string, fun x => x)] [3%R] 0 false)]
           [] "l" (DartsLayerChoice.mk "l" [("a"%string, fun x => x)] [3%R] 0 false)
           [("a"%string, mk_module false [7] (fun t => t))] None).
  - repeat constructor.
  - constructor.
  - reflexivity.
  - reflexivity.
  - apply NoDup_singleton.
  - repeat constructor.
Defined.

End ArchExportExtra.

Module DartsExpertChoiceExtra.
Import Tensor DartsExpertChoice.

Lemma rsum_map_div (l : list R) (c : R) :
  rsum (map (fun x => x / c)%R l) = (rsum l / c)%R.
Proof.
  unfold rsum. induction l as [|x l IH]; simpl; [unfold Rdiv; lra|].
  rewrite IH. unfold Rdiv. lra.
Qed.

Lemma softmax_sums_to_one (a : list R) : a <> [] -> rsum (softmax a) = 1%R.
Proof.
  intros Hne. pose proof (ArchExportExtra.rsum_exp_pos a Hne) as Hpos.
  unfold softmax.
  rewrite <- (map_map exp (fun e => e / rsum (map exp a))%R), rsum_map_div.
  field. lra.
Qed.

Lemma softmax_positive (a : list R) : Forall (fun w => 0 < w)%R (softmax a).
Proof.
  destruct a as [|x a]; [constructor|].
  pose proof (ArchExportExtra.rsum_exp_pos (x :: a)) as Hpos.
  unfold softmax. apply Forall_forall. intros w Hw.
  apply list_elem_of_fmap in Hw as (y & -> & _).
  apply Rdiv_lt_0_compat; [apply exp_pos | apply Hpos; discriminate].
Qed.

(** X25 — [DartsExpertChoice.forward], for a wrapper with at least one
    expert, one [alpha] entry per expert and experts whose outputs on [x]
    have one shape: the result has that shape and is, entry by entry, the
    sum of the experts' outputs weighted by [softmax(alpha)]; the weights
    are positive and sum to one, and nothing else is added. *)
Theorem expert_forward_softmax_mixture (m : t) (x : list (list R)) (sh : list nat) :
  op_choices m <> [] ->
  length (alpha m) = length (op_choices m) ->
  (forall op, In op (op_choices m) -> DartsLayerChoice.shape (op.2 x) = sh) ->
  exists out,
    forward m x = Ok out
    /\ DartsLayerChoice.shape out = sh
    /\ (forall b j,
          DartsLayerChoice.entry out b j
          = rsum (imap (fun i op => nth i (softmax (alpha m)) 0
                                    * DartsLayerChoice.entry (op.2 x) b j)%R
                    (op_choices m)))
    /\ Forall (fun w => 0 < w)%R (softmax (alpha m))
    /\ rsum (softmax (alpha m)) = 1%R.
Proof.
  intros Hne Hlen Hsh.
  set (rs := map (fun op : string * (list (list R) -> list (list R)) => op.2 x)
               (op_choices m)).
  assert (Hrs : Forall (fun r => DartsLayerChoice.shape r = sh) rs).
  { apply Forall_forall. intros r Hr. apply list_elem_of_fmap in Hr as (op & -> & Hop).
    apply Hsh. apply list_elem_of_In. exact Hop. }
  assert (Hrne : rs <> []).
  { unfold rs. destruct (op_choices m); [congruence | discriminate]. }
  assert (Hw : length (softmax (alpha m)) = length (op_choices m)).
  { rewrite JSDivLossFacts.softmax_length. exact Hlen. }
  unfold forward. fold rs.
  rewrite (DartsLayerChoiceFacts.stack_same_shape sh rs Hrne Hrs).
  unfold mbind, result_bind, DartsLayerChoice.mul_dim0.
  replace (length rs =? length (softmax (alpha m))) with true
    by (symmetry; apply Nat.eqb_eq; unfold rs; rewrite length_map; lia).
  destruct (DartsLayerChoiceFacts.sum_dim0_spec sh
              (zip_with DartsLayerChoice.bmul rs (softmax (alpha m))) 0 0) as [Hshape _].
  { destruct rs as [|r rs']; [congruence|].
    destruct (softmax (alpha m)) as [|w ws] eqn:Ew; [|discriminate].
    destruct (op_choices m); [congruence | discriminate]. }
  { apply DartsLayerChoiceFacts.Forall_shape_weighted. exact Hrs. }
  eexists. split; [reflexivity|]. split; [exact Hshape|].
  split; [|split; [apply softmax_positive|]].
  - intros b j.
    destruct (DartsLayerChoiceFacts.sum_dim0_spec sh
                (zip_with DartsLayerChoice.bmul rs (softmax (alpha m))) b j) as [_ He].
    { destruct rs as [|r rs']; [congruence|].
      destruct (softmax (alpha m)) as [|w ws] eqn:Ew; [|discriminate].
      destruct (op_choices m); [congruence | discriminate]. }
    { apply DartsLayerChoiceFacts.Forall_shape_weighted. exact Hrs. }
    rewrite He. unfold rs.
    rewrite <- (imap_const (fun op : string * (list (list R) -> list (list R)) => op.2 x)).
    apply (DartsLayerChoiceFacts.rsum_weighted
             (fun _ op => op.2 x) (op_choices m) (softmax (alpha m)) b j Hw).
  - apply softmax_sums_to_one. intros Ha. rewrite Ha in Hlen.
    destruct (op_choices m); [congruence | discriminate].
Qed.

Lemma expert_forward_softmax_mixture_witness :
  let m := mk 1 "task_0_experts"
             [("expert_0"%string, fun x => x);
              ("expert_1"%string, fun x => DartsLayerChoice.bscale 2 x)]
             [0%R; 0%R] in
  exists out,
    forward m [[1%R; 2%R]] = Ok out
    /\ DartsLayerChoice.shape out = [2]
    /\ (forall b j,
          DartsLayerChoice.entry out b j
          = rsum (imap (fun i op => nth i (softmax (alpha m)) 0
                                    * DartsLayerChoice.entry (op.2 [[1%R; 2%R]]) b j)%R
                    (op_choices m)))
    /\ Forall (fun w => 0 < w)%R (softmax (alpha m))
    /\ rsum (softmax (alpha m)) = 1%R.
Proof.
  intros m.
  apply (expert_forward_softmax_mixture m [[1%R; 2%R]] [2]).
  - discriminate.
  - reflexivity.
  - intros op [<- | [<- | []]]; reflexivity.
Defined.

End DartsExpertChoiceExtra.


(** ** [ChosenExperts] *)

Module ChosenExpertsExtra.
Import Tensor Choicer ChosenExperts PyFacts.

Lemma lookup_all_present (candidates : dict expert) (keys : list string) :
  Forall (fun k => dict_mem candidates k = true) keys ->
  exists es, lookup_all candidates keys = Ok es
    /\ map Some es = map (dict_get candidates) keys.
Proof.
  induction 1 as [|k keys Hk _ (es & E & Hes)]; simpl.
  - exists []. split; reflexivity.
  - unfold dict_mem in Hk. destruct (dict_get candidates k) as [e|]; [|discriminate].
    rewrite E. exists (e :: es). split; [reflexivity|]. simpl. rewrite Hes. reflexivity.
Qed.

Lemma lookup_all_missing (candidates : dict expert) (keys : list string) (k : string) :
  In k keys -> dict_get candidates k = None ->
  lookup_all candidates keys = Raise KeyError.
Proof.
  intros Hin Hk. induction keys as [|k' keys IH]; [destruct Hin|].
  simpl. destruct (dict_get candidates k') as [e|] eqn:E; [|reflexivity].
  destruct Hin as [-> | Hin]; [congruence|].
  rewrite (IH Hin). reflexivity.
Qed.

(** X26 — [ChosenExperts.__init__] on a list of names: when every name is
    a key of [candidates] and the list is not empty, [self.experts] holds
    the candidate of every listed name, in order and also past [n_chosen],
    while [self.chosen] keeps the first [n_chosen] names only; when some
    listed name, at whatever position, is no key, it raises [KeyError]. *)
Theorem chosen_experts_registers_all (init_weight : nat -> nat -> list (list R))
  (candidates : dict expert) (l : list string) (n : nat) :
  l <> [] ->
  (Forall (fun k => dict_mem candidates k = true) l ->
   exists m, __init__ init_weight candidates (JList l) n = Ok m
     /\ n_chosen m = n
     /\ chosen m = map JStr (take n l)
     /\ map Some (experts m) = map (dict_get candidates) l)
  /\ ((exists k, In k l /\ dict_get candidates k = None) ->
      __init__ init_weight candidates (JList l) n = Raise KeyError).
Proof.
  intros Hne. split.
  - intros Hall. destruct (lookup_all_present candidates l Hall) as (es & E & Hes).
    unfold __init__. simpl iterate. unfold mbind at 1, result_bind at 1.
    rewrite E. unfold mbind, result_bind.
    destruct es as [|e0 es].
    + destruct l; [congruence | discriminate].
    + eexists. split; [reflexivity|]. simpl.
      split; [reflexivity|]. split; [|exact Hes].
      rewrite <- fmap_take. reflexivity.
  - intros (k & Hin & Hk). unfold __init__. simpl iterate.
    unfold mbind at 1, result_bind at 1.
    rewrite (lookup_all_missing candidates l k Hin Hk). reflexivity.
Qed.

Lemma chosen_experts_registers_all_witness :
  let c := [("expert_0"%string, mk_expert 4 (fun x => x));
            ("expert_1"%string, mk_expert 4 (fun x => x))] in
  exists m, __init__ (fun _ _ => []) c (JList ["expert_1"; "expert_0"]%string) 1 = Ok m
    /\ n_chosen m = 1
    /\ chosen m = map JStr (take 1 ["expert_1"; "expert_0"]%string)
    /\ map Some (experts m) = map (dict_get c) ["expert_1"; "expert_0"]%string.
Proof.
  intros c.
  destruct (chosen_experts_registers_all (fun _ _ => []) c
              ["expert_1"; "expert_0"]%string 1) as [H _]; [discriminate|].
  apply H. repeat constructor.
Defined.

Lemma lookup_all_characters (candidates : dict expert) (cs : list Ascii.ascii) :
  Forall (fun k => String.length k <> 1) (dict_keys candidates) ->
  cs <> [] ->
  lookup_all candidates (map (fun c => String c EmptyString) cs) = Raise KeyError.
Proof.
  intros Hkeys Hne. destruct cs as [|c cs]; [congruence|]. simpl.
  destruct (dict_get candidates (String c EmptyString)) as [e|] eqn:E; [|reflexivity].
  exfalso. rewrite Forall_forall in Hkeys.
  apply (Hkeys (String c EmptyString)); [|reflexivity].
  clear Hkeys. induction candidates as [|[k v] d IH]; [discriminate|].
  simpl in E. destruct (String.eqb_spec k (String c EmptyString)) as [->|Hk].
  - left.
  - right. apply IH. exact E.
Qed.

(** X27 — [ChosenExperts.__init__] on a single name given as a string:
    the comprehension iterates over [chosen], not over the list
    [self.chosen] made from it, so the string is looked up character by
    character; with no one-character key among the candidates a string
    that is not empty raises [KeyError]. *)
Theorem chosen_experts_string_by_character
  (init_weight : nat -> nat -> list (list R))
  (candidates : dict expert) (s : string) (n : nat) :
  Forall (fun k => String.length k <> 1) (dict_keys candidates) ->
  s <> ""%string ->
  __init__ init_weight candidates (JStr s) n = Raise KeyError.
Proof.
  intros Hkeys Hs. unfold __init__. simpl iterate.
  unfold mbind at 1, result_bind at 1.
  rewrite lookup_all_characters; [reflexivity | exact Hkeys|].
  destruct s; [congruence | discriminate].
Qed.

Lemma chosen_experts_string_by_character_witness :
  __init__ (fun _ _ => []) [("expert_0"%string, mk_expert 4 (fun x => x))]
    (JStr "expert_0") 1 = Raise KeyError.
Proof.
  apply (chosen_experts_string_by_character (fun _ _ => [])
           [("expert_0"%string, mk_expert 4 (fun x => x))] "expert_0" 1).
  - repeat constructor. simpl. lia.
  - discriminate.
Defined.

Lemma experts_outputs_seq (es : list expert) (x : list (list R)) (n k : nat) :
  k + n <= length es ->
  experts_outputs es x (seq k n) = Ok (map (fun e => run e x) (take n (drop k es))).
Proof.
  revert k. induction n as [|n IH]; intros k Hk; [reflexivity|].
  simpl seq. simpl experts_outputs.
  destruct (lookup_lt_is_Some_2 es k) as [e He]; [lia|].
  rewrite He, (IH (S k)) by lia. unfold mbind, result_bind.
  rewrite (drop_S _ _ _ He). reflexivity.
Qed.

Lemma experts_outputs_short (es : list expert) (x : list (list R)) (n k : nat) :
  k <= length es -> length es < k + n ->
  experts_outputs es x (seq k n) = Raise IndexError.
Proof.
  revert k. induction n as [|n IH]; intros k Hk Hn; [lia|].
  simpl seq. simpl experts_outputs.
  destruct (es !! k) as [e|] eqn:He; [|reflexivity].
  apply lookup_lt_Some in He.
  rewrite (IH (S k)) by lia. reflexivity.
Qed.

(** X28 — [ChosenExperts.forward] with fewer experts registered than
    [n_chosen]: once the gate has accepted the input, the comprehension
    over [range(self.n_chosen)] runs past the end of [self.experts] and the
    call raises [IndexError]. *)
Theorem chosen_experts_too_few (m : t) (x : list (list R)) :
  is_ok (linear (gate_weight m) x) = true ->
  length (experts m) < n_chosen m ->
  forward m x = Raise IndexError.
Proof.
  intros Hlin Hlen. unfold forward.
  destruct (linear (gate_weight m) x) as [logits|]; [|discriminate].
  unfold mbind at 1, result_bind at 1.
  rewrite experts_outputs_short by lia. reflexivity.
Qed.

Lemma chosen_experts_too_few_witness :
  forward (mk [JStr "expert_0"] 2 [mk_expert 1 (fun x => x)] [[1%R]; [1%R]]) [[1%R]]
  = Raise IndexError.
Proof.
  apply (chosen_experts_too_few
           (mk [JStr "expert_0"] 2 [mk_expert 1 (fun x => x)] [[1%R]; [1%R]]) [[1%R]]).
  - reflexivity.
  - simpl. lia.
Defined.

Lemma dot_imap {A} (f : A -> R) (es : list A) (g : list R) :
  length g = length es ->
  dot g (map f es) = rsum (imap (fun i e => nth i g 0 * f e)%R es).
Proof.
  revert g. induction es as [|e es IH]; intros [|y g] Hl; try discriminate;
    [reflexivity|].
  unfold dot, rsum in *. simpl. f_equal.
  rewrite IH by (simpl in Hl; lia). f_equal.
Qed.

Lemma shape_imap_rows (F : nat -> list R -> nat -> R) (gv o : list (list R)) :
  length gv = length o ->
  DartsLayerChoice.shape
    (imap (fun b g => map (F b g) (seq 0 (length (nth b o [])))) gv)
  = DartsLayerChoice.shape o.
Proof.
  unfold DartsLayerChoice.shape.
  revert F o. induction gv as [|g gv IH]; intros F [|r o] Hl; try discriminate;
    [reflexivity|].
  simpl. f_equal; [rewrite length_map, length_seq; reflexivity|].
  rewrite <- (IH (fun b => F (S b)) o) by (simpl in Hl; lia).
  f_equal.
Qed.

(** X29 — [ChosenExperts.forward] with at least [n_chosen > 0] experts
    registered, a gate that fits the rows of [x] and outputs of one shape:
    the result has that shape, and its row [b] is the sum of the rows [b]
    of the first [n_chosen] experts' outputs, weighted by the softmax of
    the gate's linear map of row [b] of [x]; the weights of a row sum to
    one, and experts registered past [n_chosen] take no part. *)
Theorem chosen_experts_forward_mixture (m : t) (x : list (list R)) (sh : list nat) :
  0 < n_chosen m -> n_chosen m <= length (experts m) ->
  length (gate_weight m) = n_chosen m ->
  Forall (fun row => Forall (fun w => length w = length row) (gate_weight m)) x ->
  length sh = length x ->
  (forall e, In e (take (n_chosen m) (experts m)) ->
             DartsLayerChoice.shape (run e x) = sh) ->
  exists out,
    forward m x = Ok out
    /\ DartsLayerChoice.shape out = sh
    /\ forall b row D j,
         x !! b = Some row -> sh !! b = Some D -> j < D ->
         let gate := softmax (map (fun w => dot w row) (gate_weight m)) in
         DartsLayerChoice.entry out b j
         = rsum (imap (fun i e => nth i gate 0 * DartsLayerChoice.entry (run e x) b j)%R
                   (take (n_chosen m) (experts m)))
         /\ rsum gate = 1%R.
Proof.
  intros Hpos Hn HW Hrows Hsh Hshape.
  set (es := take (n_chosen m) (experts m)) in *.
  assert (Hes : length es = n_chosen m) by (unfold es; rewrite length_take; lia).
  unfold forward.
  assert (Elin : linear (gate_weight m) x
                 = Ok (map (fun row => map (fun w => dot w row) (gate_weight m)) x)).
  { unfold linear.
    replace (forallb _ x) with true; [reflexivity|].
    symmetry. apply forallb_forall. intros row Hin.
    apply forallb_forall. intros w Hw. apply Nat.eqb_eq.
    rewrite Forall_forall in Hrows. apply list_elem_of_In in Hin.
    specialize (Hrows row Hin). rewrite Forall_forall in Hrows.
    apply Hrows. apply list_elem_of_In. exact Hw. }
  rewrite Elin. unfold mbind at 1, result_bind at 1.
  rewrite experts_outputs_seq by lia. rewrite drop_0. fold es.
  unfold mbind at 1, result_bind at 1.
  set (outs := map (fun e => run e x) es).
  assert (Houts : Forall (fun r => DartsLayerChoice.shape r = sh) outs).
  { apply Forall_forall. intros r Hr. apply list_elem_of_fmap in Hr as (e & -> & He).
    apply Hshape. apply list_elem_of_In. exact He. }
  assert (Hone : outs <> []).
  { unfold outs. destruct es; [simpl in Hes; lia | discriminate]. }
  rewrite (DartsLayerChoiceFacts.stack_same_shape sh outs Hone Houts).
  unfold mbind, result_bind.
  set (gv := map softmax (map (fun row => map (fun w => dot w row) (gate_weight m)) x)).
  destruct outs as [|o outs'] eqn:Eo; [congruence|].
  assert (Ho : DartsLayerChoice.shape o = sh).
  { apply Forall_cons in Houts as [H _]. exact H. }
  assert (Hlo : length o = length x).
  { rewrite <- Hsh, <- Ho. unfold DartsLayerChoice.shape. rewrite length_map. reflexivity. }
  assert (Hgv : length gv = length o).
  { unfold gv. rewrite !length_map. lia. }
  unfold bmm. rewrite Hgv, Nat.eqb_refl.
  eexists. split; [reflexivity|]. split.
  { rewrite <- Ho.
    apply (shape_imap_rows
             (fun b g j => dot g (map (fun r => DartsLayerChoice.entry r b j) (o :: outs')))
             gv o Hgv). }
  intros b row D j Hb HD Hj.
  set (gate := softmax (map (fun w => dot w row) (gate_weight m))).
  assert (Hg : gv !! b = Some gate).
  { unfold gv. rewrite !list_lookup_fmap, Hb. reflexivity. }
  assert (HDo : length (nth b o []) = D).
  { rewrite <- Ho in HD. unfold DartsLayerChoice.shape in HD.
    rewrite list_lookup_fmap in HD.
    destruct (o !! b) as [r|] eqn:Er; [|discriminate].
    simpl in HD. injection HD as <-.
    rewrite (nth_lookup_Some _ _ [] _ Er). reflexivity. }
  assert (Hlg : length gate = length es).
  { unfold gate. rewrite JSDivLossFacts.softmax_length, length_map. lia. }
  split.
  - unfold DartsLayerChoice.entry at 1.
    erewrite (nth_lookup_Some _ b []);
      [|rewrite list_lookup_imap, Hg; reflexivity].
    erewrite (nth_lookup_Some _ j 0%R);
      [|rewrite list_lookup_fmap, lookup_seq_lt by lia; reflexivity].
    cbv beta. rewrite <- Eo. unfold outs. rewrite map_map.
    apply (dot_imap (fun e => DartsLayerChoice.entry (run e x) b j) es gate Hlg).
  - apply DartsExpertChoiceExtra.softmax_sums_to_one.
    destruct (gate_weight m); [simpl in HW; lia | discriminate].
Qed.

Lemma chosen_experts_forward_mixture_witness :
  let m := mk [JStr "expert_1"] 1
             [mk_expert 1 (fun x => x); mk_expert 1 (fun x => [])] [[1%R]] in
  exists out,
    forward m [[3%R]] = Ok out
    /\ DartsLayerChoice.shape out = [1]
    /\ forall b row D j,
         [[3%R]] !! b = Some row -> [1] !! b = Some D -> j < D ->
         let gate := softmax (map (fun w => dot w row) (gate_weight m)) in
         DartsLayerChoice.entry out b j
         = rsum (imap (fun i e => nth i gate 0
                                  * DartsLayerChoice.entry (run e [[3%R]]) b j)%R
                   (take (n_chosen m) (experts m)))
         /\ rsum gate = 1%R.
Proof.
  intros m.
  apply (chosen_experts_forward_mixture m [[3%R]] [1]).
  - simpl. lia.
  - simpl. lia.
  - reflexivity.
  - repeat constructor.
  - reflexivity.
  - intros e [<- | []]. reflexivity.
Defined.

Lemma export_expert_entry
  (nas_modules : list (string * DartsLayerChoice.t))
  (expert_modules : list (string * DartsExpertChoice.t)) :
  Forall (fun lm => is_ok (ArchExport.layer_choice_export lm.2) = true) nas_modules ->
  Forall (fun lm => is_ok (ArchExport.expert_choice_export lm.2) = true) expert_modules ->
  exists a,
    ArchExport.export nas_modules expert_modules = Ok a
    /\ forall l w s, ArchExport.first_labelled nas_modules l = None ->
                     ArchExport.first_labelled expert_modules l = Some w ->
                     ArchExport.expert_choice_export w = Ok s ->
                     dict_get a l = Some (JList s).
Proof.
  intros Hnas Hexp. unfold ArchExport.export.
  destruct (ArchExportExtra.export_loop_spec
              (fun m => v ← ArchExport.layer_choice_export m; Ok (JStr v))
              nas_modules []) as (r1 & E1 & _ & Hget1).
  { eapply Forall_impl; [exact Hnas|]. intros [l m] H. simpl in *.
    destruct (ArchExport.layer_choice_export m); [reflexivity | discriminate]. }
  rewrite E1. unfold mbind at 1, result_bind at 1.
  destruct (ArchExportExtra.export_loop_spec
              (fun m => v ← ArchExport.expert_choice_export m; Ok (JList v))
              expert_modules r1) as (r & E & _ & Hget).
  { eapply Forall_impl; [exact Hexp|]. intros [l m] H. simpl in *.
    destruct (ArchExport.expert_choice_export m); [reflexivity | discriminate]. }
  exists r. split; [exact E|].
  intros l w s Hn Hw Hs. rewrite Hget, Hget1. simpl dict_get.
  rewrite Hn, Hw, Hs. reflexivity.
Qed.

(** X30 — From search to retraining, for the experts.  Let
    [DartsTrainer.export] succeed, let [label] be the label of no
    operation-level wrapper, and let the first expert-level wrapper with
    that label have one [alpha] entry per expert and the expert names of
    the dictionary [c].  Then, inside [with fixed_arch(...)] on the
    exported architecture, [ExpertChoice(c, n_chosen, label)] builds a
    [ChosenExperts] whose [self.experts] are all experts of [c], ordered so
    that the wrapper's [alpha] does not increase. *)
Theorem exported_experts_are_rebuilt (init_weight : nat -> nat -> list (list R))
  (st : list (string * list (list (string * json))))
  (nas_modules : list (string * DartsLayerChoice.t))
  (expert_modules : list (string * DartsExpertChoice.t))
  (label : string) (w : DartsExpertChoice.t) (c : dict expert) (n : nat) :
  Forall (fun lm => is_ok (ArchExport.layer_choice_export lm.2) = true) nas_modules ->
  Forall (fun lm => is_ok (ArchExport.expert_choice_export lm.2) = true) expert_modules ->
  ArchExport.first_labelled nas_modules label = None ->
  ArchExport.first_labelled expert_modules label = Some w ->
  map fst (DartsExpertChoice.op_choices w) = dict_keys c ->
  length (DartsExpertChoice.alpha w) = length (DartsExpertChoice.op_choices w) ->
  NoDup (dict_keys c) -> c <> [] ->
  exists a idx m,
    ArchExport.export nas_modules expert_modules = Ok a
    /\ create_fixed_module init_weight (fixed_arch st a) c n label = Ok m
    /\ Permutation idx (seq 0 (length c))
    /\ ArchExport.descending (DartsExpertChoice.alpha w) idx
    /\ n_chosen m = n
    /\ map Some (experts m) = map (fun i => snd <$> c !! i) idx.
Proof.
  intros Hnas Hexp Hn Hw Hnames Hlen Hnd Hne.
  destruct (export_expert_entry nas_modules expert_modules Hnas Hexp) as (a & E & Hget).
  specialize (Hget label w).
  assert (Hlc : length (DartsExpertChoice.op_choices w) = length c).
  { rewrite <- (length_map fst), Hnames. unfold dict_keys. apply length_map. }
  destruct (ArchExportExtra.fold_insert_descending (DartsExpertChoice.alpha w)
              (seq 0 (length (DartsExpertChoice.alpha w))) []) as [Hp Hs]; [exact I|].
  rewrite app_nil_r in Hp.
  set (idx := fold_left _ _ _) in *.
  rewrite Hlen, Hlc in Hp.
  assert (Hidx : Forall (fun i => i < length c) idx).
  { apply Forall_forall. intros i Hi. rewrite Hp in Hi.
    apply elem_of_seq in Hi. lia. }
  assert (Hexport : ArchExport.expert_choice_export w
                    = Ok (map (fun i => nth i (dict_keys c) ""%string) idx)).
  { unfold ArchExport.expert_choice_export, ArchExport.sort_descending.
    fold idx. rewrite Hnames.
    apply ArchExportExtra.names_at_in_range.
    unfold dict_keys. rewrite length_map. exact Hidx. }
  specialize (Hget _ Hn Hw Hexport).
  set (l := map (fun i => nth i (dict_keys c) ""%string) idx) in *.
  assert (Hentry : forall i, i < length c ->
            exists e, c !! i = Some (nth i (dict_keys c) ""%string, e)
                      /\ dict_get c (nth i (dict_keys c) ""%string) = Some e).
  { intros i Hi. destruct (lookup_lt_is_Some_2 c i Hi) as [[k e] Hke].
    assert (Hk : nth i (dict_keys c) ""%string = k).
    { apply nth_lookup_Some. unfold dict_keys.
      rewrite list_lookup_fmap, Hke. reflexivity. }
    rewrite Hk. exists e. split; [exact Hke|].
    eapply ArchExportExtra.dict_get_lookup; eauto. }
  destruct (lookup_all_present c l) as (es & Ees & Hes).
  { apply Forall_forall. intros k Hk. unfold l in Hk.
    apply list_elem_of_fmap in Hk as (i & -> & Hi).
    rewrite Forall_forall in Hidx. destruct (Hentry i (Hidx i Hi)) as (e & _ & He).
    unfold dict_mem. rewrite He. reflexivity. }
  assert (Hl : l <> []).
  { unfold l. intros Hnil. apply map_eq_nil in Hnil. rewrite Hnil in Hp.
    apply Permutation_length in Hp. rewrite length_seq in Hp.
    destruct c; [congruence | discriminate]. }
  destruct es as [|e0 es'] eqn:Ee.
  { destruct l; [congruence | discriminate]. }
  eexists a, idx, _. split; [exact E|].
  split.
  { unfold create_fixed_module, get_fixed_value, fixed_arch.
    rewrite ChoicerFacts.top_push. unfold mbind at 2, result_bind at 2.
    rewrite Hget. unfold mbind at 1, result_bind at 1.
    unfold __init__. simpl iterate. unfold mbind at 1, result_bind at 1.
    rewrite Ees. unfold mbind, result_bind. reflexivity. }
  split; [exact Hp|]. split; [exact Hs|]. split; [reflexivity|].
  simpl experts. rewrite Hes. unfold l. rewrite map_map.
  apply map_ext_in. intros i Hi.
  rewrite Forall_forall in Hidx. apply list_elem_of_In in Hi.
  destruct (Hentry i (Hidx i Hi)) as (e & Hke & He).
  rewrite He, Hke. reflexivity.
Qed.

Lemma exported_experts_are_rebuilt_witness :
  let w := DartsExpertChoice.mk 1 "task_0_experts" [("expert_0"%string, fun x => x)] [3%R] in
  let c := [("expert_0"%string, mk_expert 4 (fun x => x))] in
  exists a idx m,
    ArchExport.export [] [("task_0_experts"%string, w)] = Ok a
    /\ create_fixed_module (fun _ _ => []) (fixed_arch [] a) c 1 "task_0_experts" = Ok m
    /\ Permutation idx (seq 0 (length c))
    /\ ArchExport.descending (DartsExpertChoice.alpha w) idx
    /\ n_chosen m = 1
    /\ map Some (experts m) = map (fun i => snd <$> c !! i) idx.
Proof.
  intros w c.
  apply (exported_experts_are_rebuilt (fun _ _ => []) [] []
           [("task_0_experts"%string, w)] "task_0_experts" w c 1).
  - constructor.
  - repeat constructor.
  - reflexivity.
  - reflexivity.
  - reflexivity.
  - reflexivity.
  - apply NoDup_singleton.
  - discriminate.
Defined.

End ChosenExpertsExtra.

